(** * check_estimation: a shallow embedding of
      sql/files/defaultdata/estimation/check_estimation.c

    The program compares the output of a submission (file 1) with a
    reference output (file 2), token by token.  The embedding follows the C
    text function by function: [should_accept], [scanspace], the per-line
    token loop and the line loop of [main], and the option handling at the
    start of [main].

    Conventions.
    - [flt] (C: [long double]) is modelled by its IEEE classes: a finite
      value carries an exact rational, next to the two infinities and NaN.
      [Flt] takes a difference and a quotient of finite values exactly;
      [Rounded] rounds them to a binary format as the machine does, with
      an infinity for a result beyond the format.  The sign of zero is not
      represented.
    - A [char] buffer is a [list ascii]; reading a cell outside the buffer
      is undefined behaviour and shows up as the result [Fault].
    - [int] counters are [nat]; overflow of a counter is not represented.
    - Identifiers that the C file uses but does not declare ([f1], [f2],
      [abs_prec], [rel_prec], [equal], [ignore_ws], [absdiff], [reldiff])
      and the C library's number parser are parameters of the model.
    - [getopt_long] is not modelled: [main] is given the results of its
      successive calls.
    - A stream is the list of the characters still to be read.
    - [isspace] is that of the C locale; a character above 127 is not
      white space. *)

From Stdlib Require Import Ascii String DecimalString.
From Stdlib Require Import List Bool Arith ZArith QArith Qabs Lia.
Import ListNotations.

Set Implicit Arguments.

(* ------------------------------------------------------------------ *)
(** * Floating-point values *)

Module Flt.

Inductive flt : Type :=
  | Fin (q : Q)
  | PInf
  | NInf
  | NaN.

Definition isfinite (x : flt) : bool :=
  match x with Fin _ => true | _ => false end.

Definition isnan (x : flt) : bool :=
  match x with NaN => true | _ => false end.

Definition isinf (x : flt) : bool :=
  match x with PInf | NInf => true | _ => false end.

(** Strict and non-strict order on rationals, decided on cross products. *)
Definition Qltb (a b : Q) : bool :=
  (Qnum a * QDen b <? Qnum b * QDen a)%Z.

Definition Qleb (a b : Q) : bool :=
  (Qnum a * QDen b <=? Qnum b * QDen a)%Z.

Definition Qzero (a : Q) : bool := (Qnum a =? 0)%Z.

(** C's [x < y]: false as soon as one side is NaN. *)
Definition flt_lt (x y : flt) : bool :=
  match x, y with
  | NaN, _ | _, NaN => false
  | Fin a, Fin b => Qltb a b
  | NInf, NInf => false
  | NInf, _ => true
  | _, NInf => false
  | PInf, _ => false
  | Fin _, PInf => true
  end.

(** C's [x > y]. *)
Definition flt_gt (x y : flt) : bool := flt_lt y x.

(** C's [x <= y]: false as soon as one side is NaN. *)
Definition flt_le (x y : flt) : bool :=
  match x, y with
  | NaN, _ | _, NaN => false
  | Fin a, Fin b => Qleb a b
  | NInf, _ => true
  | _, PInf => true
  | PInf, _ => false
  | Fin _, NInf => false
  end.

Definition zero : flt := Fin 0.

(** [x - y]. *)
Definition fsub (x y : flt) : flt :=
  match x, y with
  | NaN, _ | _, NaN => NaN
  | Fin a, Fin b => Fin (a - b)
  | PInf, PInf | NInf, NInf => NaN
  | PInf, _ => PInf
  | NInf, _ => NInf
  | Fin _, PInf => NInf
  | Fin _, NInf => PInf
  end.

(** [x / y].  A zero divisor counts as +0; every use in the program takes
    [fabsl] of the quotient, which erases that choice. *)
Definition fdiv (x y : flt) : flt :=
  match x, y with
  | NaN, _ | _, NaN => NaN
  | Fin a, Fin b =>
      if Qzero b then
        if Qzero a then NaN else if Qltb a 0 then NInf else PInf
      else Fin (a / b)
  | Fin _, _ => Fin 0
  | PInf, Fin b => if Qltb b 0 then NInf else PInf
  | NInf, Fin b => if Qltb b 0 then PInf else NInf
  | _, _ => NaN
  end.

Definition fabsl (x : flt) : flt :=
  match x with
  | Fin a => Fin (Qabs.Qabs a)
  | PInf | NInf => PInf
  | NaN => NaN
  end.

End Flt.
Import Flt.

Close Scope Q_scope.
Open Scope nat_scope.

(* ------------------------------------------------------------------ *)
(** * [should_accept] *)

Section ShouldAccept.

(** The body of [should_accept] reads [f1], [f2], [abs_prec] and
    [rel_prec], none of which is declared in the file. *)
Variables f1 f2 : flt.
Variables abs_prec rel_prec : flt.

(** [int should_accept(flt successes, flt cases)], lines 100-121, with
    [f1-f2] and [(f1-f2)/f2] taken exactly; [Rounded.should_accept]
    below rounds them. *)
Definition should_accept (successes cases : flt) : bool :=
  if isfinite f1 && isfinite f2 then
    let absdiff := fabsl (fsub f1 f2) in
    let reldiff := fabsl (fdiv (fsub f1 f2) f2) in
    negb (flt_gt absdiff abs_prec && flt_gt reldiff rel_prec)
  else if isnan f1 && isnan f2 then true
  else if isinf f1 && isinf f2 then
    (flt_lt f1 zero && flt_lt f2 zero) || (flt_gt f1 zero && flt_gt f2 zero)
  else false.

End ShouldAccept.

(* ------------------------------------------------------------------ *)
(** * Rounded arithmetic *)

(** The differences of [should_accept] as the machine computes them: the
    exact difference and the exact quotient, rounded to the nearest value
    of a binary format, ties to the even significand; a result beyond the
    largest value of the format is an infinity, and a result below half the
    least value is zero. *)
Module Rounded.

(** A binary format: the number of digits of the significand, and the
    exponent that no finite value reaches (every finite value is below
    [2^emax] in magnitude). *)
Record format : Type := mkFormat { prec : Z; emax : Z }.

(** The [long double] of the x86. *)
Definition x87 : format := mkFormat 64 16384.

(** The [long double] of machines that use IEEE binary128, and [double],
    which is the [long double] of others. *)
Definition binary128 : format := mkFormat 113 16384.
Definition binary64 : format := mkFormat 53 1024.

Section Format.

Variable fmt : format.

(** The exponent of the last digit of the values next to zero. *)
Definition emin : Z := (3 - emax fmt - prec fmt)%Z.

(** [d * 2^t <= n], for [t] of either sign. *)
Definition scaled_le (d t n : Z) : bool :=
  (if 0 <=? t then d * 2 ^ t <=? n else d <=? n * 2 ^ (- t))%Z.

(** The exponent of [n/d], for [n] and [d] above zero: the largest [e]
    with [2^e <= n/d]. *)
Definition exponent (n d : Z) : Z :=
  let t := (Z.log2 n - Z.log2 d)%Z in
  if scaled_le d t n then t else (t - 1)%Z.

(** The integer nearest to [n/d], the even one of two that are equally
    near. *)
Definition nearest_even (n d : Z) : Z :=
  let k := (n / d)%Z in
  match (2 * (n mod d) ?= d)%Z with
  | Lt => k
  | Gt => (k + 1)%Z
  | Eq => if Z.even k then k else (k + 1)%Z
  end.

(** [m * 2^e]. *)
Definition scale (m e : Z) : Q :=
  if (0 <=? e)%Z then inject_Z (m * 2 ^ e)
  else Qmake m (Z.to_pos (2 ^ (- e))).

(** [n/d] rounded, for [n] and [d] above zero; [None] stands for a value
    of [2^emax] or more. *)
Definition round_pos (n d : Z) : option Q :=
  let e := Z.max (exponent n d - prec fmt + 1) emin in
  let m := if (0 <=? e)%Z then nearest_even n (d * 2 ^ e)
           else nearest_even (n * 2 ^ (- e)) d in
  if (2 ^ (emax fmt - e) <=? m)%Z then None else Some (scale m e).

Definition round (q : Q) : flt :=
  match Qnum q with
  | Z0 => Fin 0
  | Zpos n =>
      match round_pos (Zpos n) (Zpos (Qden q)) with
      | Some v => Fin v
      | None => PInf
      end
  | Zneg n =>
      match round_pos (Zpos n) (Zpos (Qden q)) with
      | Some v => Fin (- v)
      | None => NInf
      end
  end.

(** [x - y]. *)
Definition fsub (x y : flt) : flt :=
  match x, y with
  | NaN, _ | _, NaN => NaN
  | Fin a, Fin b => round (a - b)
  | PInf, PInf | NInf, NInf => NaN
  | PInf, _ => PInf
  | NInf, _ => NInf
  | Fin _, PInf => NInf
  | Fin _, NInf => PInf
  end.

(** [x / y].  A zero divisor counts as +0, as in [Flt.fdiv]. *)
Definition fdiv (x y : flt) : flt :=
  match x, y with
  | NaN, _ | _, NaN => NaN
  | Fin a, Fin b =>
      if Qzero b then
        if Qzero a then NaN else if Qltb a 0 then NInf else PInf
      else round (a / b)
  | Fin _, _ => Fin 0
  | PInf, Fin b => if Qltb b 0 then NInf else PInf
  | NInf, Fin b => if Qltb b 0 then PInf else NInf
  | _, _ => NaN
  end.

Section ShouldAccept.

Variables f1 f2 : flt.
Variables abs_prec rel_prec : flt.

(** [int should_accept(flt successes, flt cases)], lines 100-121, with
    [f1-f2] and [(f1-f2)/f2] rounded to the format. *)
Definition should_accept (successes cases : flt) : bool :=
  if isfinite f1 && isfinite f2 then
    let absdiff := fabsl (fsub f1 f2) in
    let reldiff := fabsl (fdiv (fsub f1 f2) f2) in
    negb (flt_gt absdiff abs_prec && flt_gt reldiff rel_prec)
  else if isnan f1 && isnan f2 then true
  else if isinf f1 && isinf f2 then
    (flt_lt f1 zero && flt_lt f2 zero) || (flt_gt f1 zero && flt_gt f2 zero)
  else false.

End ShouldAccept.

End Format.

End Rounded.

(* ------------------------------------------------------------------ *)
(** * Characters, C strings and buffers *)

Definition NUL : ascii := "000"%char.
Definition newline : ascii := "010"%char.

Definition is_nul (c : ascii) : bool := Ascii.eqb c NUL.

(** [isspace] in the C locale: space, and the controls 9 to 13. *)
Definition isspace (c : ascii) : bool :=
  let n := nat_of_ascii c in
  (n =? 32) || ((9 <=? n) && (n <=? 13)).

(** [strcmp(a,b)==0] on the contents of two C strings. *)
Fixpoint streq (a b : list ascii) : bool :=
  match a, b with
  | [], [] => true
  | x :: a', y :: b' => Ascii.eqb x y && streq a' b'
  | _, _ => false
  end.

Definition MAXLINELEN : nat := 1024.

(** [scanspace(str,res)], lines 124-134.  [str] is the part of the buffer
    that starts at the pointer passed in; the result is the returned count
    and the C string stored in [res].  Running off the buffer is [None]. *)
Fixpoint scanspace (str : list ascii) : option (nat * list ascii) :=
  match str with
  | [] => None
  | c :: rest =>
      if isspace c then
        match scanspace rest with
        | Some (pos, res) => Some (S pos, c :: res)
        | None => None
        end
      else Some (0, [])
  end.

(** The characters a [%s] conversion stores: up to white space or the
    terminator. *)
Fixpoint scan_word (s : list ascii) : option (nat * list ascii) :=
  match s with
  | [] => None
  | c :: rest =>
      if isspace c || is_nul c then Some (0, [])
      else
        match scan_word rest with
        | Some (n, w) => Some (S n, c :: w)
        | None => None
        end
  end.

(** One [%s] directive applied to the C string that starts at [s]: white
    space is skipped, then a word is read.  [Some None] is an input failure
    (the string ends before a word starts, sscanf returns EOF and stores
    nothing); [Some (Some (n, w))] is a conversion that consumed [n]
    characters and produced [w]. *)
Fixpoint scan_token (s : list ascii) : option (option (nat * list ascii)) :=
  match s with
  | [] => None
  | c :: rest =>
      if isspace c then
        match scan_token rest with
        | Some (Some (n, w)) => Some (Some (S n, w))
        | r => r
        end
      else if is_nul c then Some None
      else
        match scan_word s with
        | Some (n, w) => Some (Some (n, w))
        | None => None
        end
  end.

(** [fgets(buf, MAXLINELEN, stream)]: at most [MAXLINELEN-1] characters, up
    to and including a newline. *)
Fixpoint take_line (room : nat) (s : list ascii) : list ascii :=
  match room, s with
  | S room', c :: s' =>
      if Ascii.eqb c newline then [c] else c :: take_line room' s'
  | _, _ => []
  end.

(** The result is [None] for a null pointer (end of file, buffer untouched),
    otherwise the new contents of the buffer and the rest of the stream. *)
Definition fgets (buf stream : list ascii)
  : option (list ascii * list ascii) :=
  match stream with
  | [] => None
  | _ :: _ =>
      let chunk := take_line (MAXLINELEN - 1) stream in
      Some (chunk ++ NUL :: skipn (S (length chunk)) buf,
            skipn (length chunk) stream)
  end.

(* ------------------------------------------------------------------ *)
(** * What the program prints *)

Inductive file_id : Type := File1 | File2.

(** One constructor per [printf] of a report line in [main]. *)
Inductive diag : Type :=
  | FileEnded (short : file_id) (linenr : nat)
  | MissesToken (linenr tokennr : nat)
  | ExcessToken (linenr tokennr : nat)
  | CannotParse (file : file_id) (linenr tokennr : nat)
  | NonFloatDiffer (linenr tokennr : nat) (s1 s2 : list ascii)
  | FloatDiffers (linenr tokennr : nat) (x y : flt)
                 (absdiff reldiff : option flt)
  | WsMismatch (linenr tokennr : nat)
  | Found (diff lines : nat).

(** The messages passed to [error()]. *)
Inductive error_msg : Type :=
  | BadAlpha
  | BadProbability
  | UnknownOption (optopt : ascii)
  | GetoptCode (opt : Z)
  | NotEnoughArguments
  | BothStdin
  | CannotOpen (name : list ascii).

(** Results of a loop that runs on fuel. *)
Inductive result (A : Type) : Type :=
  | Done (a : A)
  | Fault
  | OutOfFuel.
Arguments Done {A} a.
Arguments Fault {A}.
Arguments OutOfFuel {A}.

(** Outcome of one [%Lf] conversion: sscanf returns 1, 0 or EOF. *)
Inductive conv : Type :=
  | Converted (v : flt)
  | NoMatch
  | InputEnd.

Definition is_converted (c : conv) : bool :=
  match c with Converted _ => true | _ => false end.

Definition is_nomatch (c : conv) : bool :=
  match c with NoMatch => true | _ => false end.

(* ------------------------------------------------------------------ *)
(** * The environment of the program *)

(** What the file takes from elsewhere: the C library's conversions of a
    floating-point subject, the identifiers used without a declaration, and
    the exit status of [error()] (lib.error). *)
Record Env : Type := mkEnv {
  (** value of a [%Lf] conversion on a subject that starts with a
      non-space character, if it has the expected form *)
  scan_flt : list ascii -> option flt;
  (** [strtold] on such a subject: value and number of characters used *)
  strtold_subject : list ascii -> option (flt * nat);
  equal : flt -> flt -> bool;
  ignore_ws : bool;
  abs_prec : flt;
  rel_prec : flt;
  exit_failure : Z
}.

(* ------------------------------------------------------------------ *)
(** * The variables of [main] *)

Record locals : Type := mkLocals {
  file1 : list ascii;          (* what is left to read of each stream *)
  file2 : list ascii;
  linenr : nat;
  tokennr : nat;
  diff : nat;
  wsdiff : nat;
  line1 : list ascii;          (* char line1[MAXLINELEN] *)
  line2 : list ascii;
  pos1 : nat;
  pos2 : nat;
  n1 : nat;
  n2 : nat;
  str1 : list ascii;           (* contents of str1 up to its terminator *)
  str2 : list ascii;
  f1 : flt;                    (* not declared in the file *)
  f2 : flt;
  out : list diag              (* standard output, oldest first *)
}.

Definition set_file1 v s := mkLocals v (file2 s) (linenr s) (tokennr s) (diff s) (wsdiff s) (line1 s) (line2 s) (pos1 s) (pos2 s) (n1 s) (n2 s) (str1 s) (str2 s) (f1 s) (f2 s) (out s).
Definition set_file2 v s := mkLocals (file1 s) v (linenr s) (tokennr s) (diff s) (wsdiff s) (line1 s) (line2 s) (pos1 s) (pos2 s) (n1 s) (n2 s) (str1 s) (str2 s) (f1 s) (f2 s) (out s).
Definition set_linenr v s := mkLocals (file1 s) (file2 s) v (tokennr s) (diff s) (wsdiff s) (line1 s) (line2 s) (pos1 s) (pos2 s) (n1 s) (n2 s) (str1 s) (str2 s) (f1 s) (f2 s) (out s).
Definition set_tokennr v s := mkLocals (file1 s) (file2 s) (linenr s) v (diff s) (wsdiff s) (line1 s) (line2 s) (pos1 s) (pos2 s) (n1 s) (n2 s) (str1 s) (str2 s) (f1 s) (f2 s) (out s).
Definition set_diff v s := mkLocals (file1 s) (file2 s) (linenr s) (tokennr s) v (wsdiff s) (line1 s) (line2 s) (pos1 s) (pos2 s) (n1 s) (n2 s) (str1 s) (str2 s) (f1 s) (f2 s) (out s).
Definition set_wsdiff v s := mkLocals (file1 s) (file2 s) (linenr s) (tokennr s) (diff s) v (line1 s) (line2 s) (pos1 s) (pos2 s) (n1 s) (n2 s) (str1 s) (str2 s) (f1 s) (f2 s) (out s).
Definition set_line1 v s := mkLocals (file1 s) (file2 s) (linenr s) (tokennr s) (diff s) (wsdiff s) v (line2 s) (pos1 s) (pos2 s) (n1 s) (n2 s) (str1 s) (str2 s) (f1 s) (f2 s) (out s).
Definition set_line2 v s := mkLocals (file1 s) (file2 s) (linenr s) (tokennr s) (diff s) (wsdiff s) (line1 s) v (pos1 s) (pos2 s) (n1 s) (n2 s) (str1 s) (str2 s) (f1 s) (f2 s) (out s).
Definition set_pos1 v s := mkLocals (file1 s) (file2 s) (linenr s) (tokennr s) (diff s) (wsdiff s) (line1 s) (line2 s) v (pos2 s) (n1 s) (n2 s) (str1 s) (str2 s) (f1 s) (f2 s) (out s).
Definition set_pos2 v s := mkLocals (file1 s) (file2 s) (linenr s) (tokennr s) (diff s) (wsdiff s) (line1 s) (line2 s) (pos1 s) v (n1 s) (n2 s) (str1 s) (str2 s) (f1 s) (f2 s) (out s).
Definition set_n1 v s := mkLocals (file1 s) (file2 s) (linenr s) (tokennr s) (diff s) (wsdiff s) (line1 s) (line2 s) (pos1 s) (pos2 s) v (n2 s) (str1 s) (str2 s) (f1 s) (f2 s) (out s).
Definition set_n2 v s := mkLocals (file1 s) (file2 s) (linenr s) (tokennr s) (diff s) (wsdiff s) (line1 s) (line2 s) (pos1 s) (pos2 s) (n1 s) v (str1 s) (str2 s) (f1 s) (f2 s) (out s).
Definition set_str1 v s := mkLocals (file1 s) (file2 s) (linenr s) (tokennr s) (diff s) (wsdiff s) (line1 s) (line2 s) (pos1 s) (pos2 s) (n1 s) (n2 s) v (str2 s) (f1 s) (f2 s) (out s).
Definition set_str2 v s := mkLocals (file1 s) (file2 s) (linenr s) (tokennr s) (diff s) (wsdiff s) (line1 s) (line2 s) (pos1 s) (pos2 s) (n1 s) (n2 s) (str1 s) v (f1 s) (f2 s) (out s).
Definition set_f1 v s := mkLocals (file1 s) (file2 s) (linenr s) (tokennr s) (diff s) (wsdiff s) (line1 s) (line2 s) (pos1 s) (pos2 s) (n1 s) (n2 s) (str1 s) (str2 s) v (f2 s) (out s).
Definition set_f2 v s := mkLocals (file1 s) (file2 s) (linenr s) (tokennr s) (diff s) (wsdiff s) (line1 s) (line2 s) (pos1 s) (pos2 s) (n1 s) (n2 s) (str1 s) (str2 s) (f1 s) v (out s).
Definition set_out v s := mkLocals (file1 s) (file2 s) (linenr s) (tokennr s) (diff s) (wsdiff s) (line1 s) (line2 s) (pos1 s) (pos2 s) (n1 s) (n2 s) (str1 s) (str2 s) (f1 s) (f2 s) v.

(** [printf] of one report line. *)
Definition print (d : diag) (s : locals) : locals := set_out (out s ++ [d]) s.

(** [diff++]. *)
Definition incr_diff (s : locals) : locals := set_diff (S (diff s)) s.

(** What one pass through the body of the token loop leads to. *)
Inductive iter : Type :=
  | Break (s : locals)
  | Continue (s : locals)
  | Undefined.

(* ------------------------------------------------------------------ *)
(** * The comparison loops of [main] *)

Section Compare.

Variable E : Env.

(** White space in front of a conversion's subject. *)
Fixpoint drop_spaces (s : list ascii) : list ascii :=
  match s with
  | c :: rest => if isspace c then drop_spaces rest else s
  | [] => []
  end.

(** [sscanf(str,"%Lf",&f)] on the contents of a C string. *)
Definition sscanf_Lf (str : list ascii) : conv :=
  match drop_spaces str with
  | [] => InputEnd
  | subject =>
      match scan_flt E subject with
      | Some v => Converted v
      | None => NoMatch
      end
  end.

(** Lines 289-304: the white space after a token and the exit test. *)
Definition tokendone (s : locals) : iter :=
  match scanspace (skipn (pos1 s) (line1 s)) with
  | None => Undefined
  | Some (k1, w1) =>
      match scanspace (skipn (pos2 s) (line2 s)) with
      | None => Undefined
      | Some (k2, w2) =>
          let s := set_str1 w1 (set_n1 k1 s) in
          let s := set_str2 w2 (set_n2 k2 s) in
          let s :=
            if negb (streq (str1 s) (str2 s)) then
              let s := set_wsdiff (S (wsdiff s)) s in
              if negb (ignore_ws E)
              then print (WsMismatch (linenr s) (tokennr s)) s
              else s
            else s in
          let s := set_pos1 (pos1 s + n1 s) s in
          let s := set_pos2 (pos2 s + n2 s) s in
          match nth_error (line1 s) (pos1 s), nth_error (line2 s) (pos2 s) with
          | Some c1, Some c2 =>
              if is_nul c1 && is_nul c2 then Break s else Continue s
          | _, _ => Undefined
          end
      end
  end.

(** Lines 276-287: the report of two numbers that [equal] rejects. *)
Definition float_report (s : locals) : locals :=
  if negb (equal E (f1 s) (f2 s)) then
    let s := incr_diff s in
    let fin := isfinite (f1 s) && isfinite (f2 s) in
    let absdiff := fabsl (fsub (f1 s) (f2 s)) in
    let reldiff := fabsl (fdiv (fsub (f1 s) (f2 s)) (f2 s)) in
    print (FloatDiffers (linenr s) (tokennr s) (f1 s) (f2 s)
             (if fin && flt_gt absdiff (abs_prec E) then Some absdiff else None)
             (if fin && flt_gt reldiff (rel_prec E) then Some reldiff else None))
          s
  else s.

(** Lines 254-287, then the white space: two tokens that differ as
    strings are read as numbers. *)
Definition compare_numbers (s : locals) : iter :=
  let r1 := sscanf_Lf (str1 s) in
  let r2 := sscanf_Lf (str2 s) in
  let s := match r1 with Converted v => set_f1 v s | _ => s end in
  let s := match r2 with Converted v => set_f2 v s | _ => s end in
  if is_nomatch r1 then
    Break (incr_diff (print (CannotParse File1 (linenr s) (tokennr s)) s))
  else if is_nomatch r2 then
    Break (incr_diff (print (CannotParse File2 (linenr s) (tokennr s)) s))
  else
    let s :=
      if negb (is_converted r1 && is_converted r2) then
        incr_diff
          (print (NonFloatDiffer (linenr s) (tokennr s) (str1 s) (str2 s)) s)
      else s in
    tokendone (float_report s).

(** Lines 240-304: the checks on what the two [%s] conversions returned
    ([read1==1], [read2==1]) and stored. *)
Definition compare_tokens (read1 read2 : bool) (s : locals) : iter :=
  if negb read1 && read2 then
    Break (incr_diff (print (MissesToken (linenr s) (tokennr s)) s))
  else if read1 && negb read2 then
    Break (incr_diff (print (ExcessToken (linenr s) (tokennr s)) s))
  else if streq (str1 s) (str2 s) then tokendone s
  else compare_numbers s.

Definition converted (t : option (nat * list ascii)) : bool :=
  match t with Some _ => true | None => false end.

(** Lines 233-238: what the four [sscanf] calls store, and the cursors
    moved by [n1] and [n2].  On an input failure nothing is stored:
    [str1] and [n1] (or [str2] and [n2]) keep their values. *)
Definition advance (t1 t2 : option (nat * list ascii)) (s : locals)
  : locals :=
  let s := match t1 with
           | Some (n, w) => set_n1 n (set_str1 w s)
           | None => s
           end in
  let s := match t2 with
           | Some (n, w) => set_n2 n (set_str2 w s)
           | None => s
           end in
  let s := set_pos1 (pos1 s + n1 s) s in
  set_pos2 (pos2 s + n2 s) s.

(** Lines 231-304: one pass through the body of [while ( 1 )]. *)
Definition token_iter (s : locals) : iter :=
  let s := set_tokennr (S (tokennr s)) s in
  match scan_token (skipn (pos1 s) (line1 s)) with
  | None => Undefined
  | Some t1 =>
      match scan_token (skipn (pos2 s) (line2 s)) with
      | None => Undefined
      | Some t2 =>
          compare_tokens (converted t1) (converted t2) (advance t1 t2 s)
      end
  end.

(** Lines 230-305, on fuel. *)
Fixpoint token_loop (fuel : nat) (s : locals) : result locals :=
  match fuel with
  | 0 => OutOfFuel
  | S fuel' =>
      match token_iter s with
      | Undefined => Fault
      | Break s' => Done s'
      | Continue s' => token_loop fuel' s'
      end
  end.

(** Fuel that the token loop cannot use up on the current buffers. *)
Definition token_fuel (s : locals) : nat :=
  S (length (line1 s) + length (line2 s)).

(** Lines 223-305: what is done with a pair of lines just read. *)
Definition compare_line (s : locals) : result locals :=
  match scanspace (line1 s) with
  | None => Fault
  | Some (k1, w1) =>
      match scanspace (line2 s) with
      | None => Fault
      | Some (k2, w2) =>
          let s := set_str1 w1 (set_n1 k1 s) in
          let s := set_str2 w2 (set_n2 k2 s) in
          let s := set_tokennr 0 s in
          let s := set_pos1 (n1 s) s in
          let s := set_pos2 (n2 s) s in
          token_loop (token_fuel s) s
      end
  end.

(** Lines 205-306, on fuel. *)
Fixpoint line_loop (fuel : nat) (s : locals) : result locals :=
  match fuel with
  | 0 => OutOfFuel
  | S fuel' =>
      let s := set_linenr (S (linenr s)) s in
      let ptr1 := fgets (line1 s) (file1 s) in
      let s := match ptr1 with
               | Some (buf, rest) => set_file1 rest (set_line1 buf s)
               | None => s
               end in
      let ptr2 := fgets (line2 s) (file2 s) in
      let s := match ptr2 with
               | Some (buf, rest) => set_file2 rest (set_line2 buf s)
               | None => s
               end in
      match ptr1, ptr2 with
      | None, None => Done s
      | None, Some _ =>
          Done (incr_diff (print (FileEnded File1 (linenr s)) s))
      | Some _, None =>
          Done (incr_diff (print (FileEnded File2 (linenr s)) s))
      | Some _, Some _ =>
          match compare_line s with
          | Done s' => line_loop fuel' s'
          | Fault => Fault
          | OutOfFuel => OutOfFuel
          end
      end
  end.

(** Line 311. *)
Definition summary (s : locals) : locals :=
  if 0 <? diff s then print (Found (diff s) (linenr s - 1)) s else s.

(** Lines 201-311: from the opened streams to the last [printf].  The
    arguments after the streams are the contents that the uninitialised
    [line1], [line2], [f1] and [f2] happen to have. *)
Definition compare_streams (stream1 stream2 : list ascii)
                   (buf1 buf2 : list ascii) (x1 x2 : flt)
  : result locals :=
  let s := mkLocals stream1 stream2 0 0 0 0 buf1 buf2 0 0 0 0 [] [] x1 x2 [] in
  match line_loop (S (length stream1)) s with
  | Done s' => Done (summary s')
  | r => r
  end.

End Compare.

(* ------------------------------------------------------------------ *)
(** * Options and [main] *)

(** Lines 62-63. *)
Definition default_alpha : flt := Fin (5 # 100).
Definition default_probability : flt := Fin (95 # 100).

(** The global variables that the option loop sets. *)
Record globals : Type := mkGlobals {
  alpha : flt;
  probability : flt;
  show_help : bool;
  show_version : bool
}.

Inductive flag_var : Type := ShowHelp | ShowVersion.

(** One call of [getopt_long] that did not return -1: the value returned,
    [optarg] (null or a C string), [optopt], and the flag variable that the
    call has set to 1 when it matched a long-only option of [long_opts]. *)
Record getopt_call : Type := mkCall {
  opt : Z;
  optarg : option (list ascii);
  optopt : ascii;
  flag_set : option flag_var
}.

Definition char_code (c : ascii) : Z := Z.of_nat (nat_of_ascii c).

(** Lines 152-154: the globals at the start of the option loop. *)
Definition initial_globals : globals :=
  mkGlobals default_alpha default_probability false false.

(** How the program ends. *)
Inductive outcome : Type :=
  | Returned (status : Z) (g : globals) (s : locals)  (* return from main *)
  | Exited (status : Z) (g : globals)         (* a call of exit *)
  | Failed (e : error_msg) (g : globals)      (* a call of error() *)
  | Crashed                                   (* undefined behaviour *)
  | Stuck.                                    (* a loop ran out of fuel *)

(** Modelled from the spec: [error()] of lib.error, which the file includes
    but which is not part of it.  The message is reported and the program
    terminates at once, with the exit status [exit_failure] of the
    environment. *)
Definition error (e : error_msg) (g : globals) : outcome := Failed e g.

(** Modelled from the spec: [version()] of lib.misc, which the file
    includes but which is not part of it.  It prints the version and exits
    with status 0. *)
Definition version (g : globals) : outcome := Exited 0 g.

(** [usage()], lines 83-97: the help text, then [exit(0)]. *)
Definition usage (g : globals) : outcome := Exited 0 g.

Section Main.

Variable E : Env.

(** [strtold(nptr,&ptr)]: the value and the offset of [ptr] in [nptr].
    Without a subject of the expected form no conversion is performed:
    the value is zero and [ptr] is [nptr]. *)
Definition strtold (nptr : list ascii) : flt * nat :=
  let subject := drop_spaces nptr in
  match strtold_subject E subject with
  | Some (v, k) =>
      if (1 <=? k) && (k <=? length subject)
      then (v, length nptr - length subject + k)
      else (zero, 0)
  | None => (zero, 0)
  end.

(** The test of lines 162 and 167: [*ptr!=0], or [ptr] equal to
    [&optarg] cast to a character pointer.  [ptr] points
    into the string [optarg]; the second operand compares it with the
    address of the variable [optarg] itself, another object, and is
    false. *)
Definition rejects (arg : list ascii) (ptr : nat) : bool :=
  negb (is_nul (nth ptr (arg ++ [NUL]) NUL)) || false.

(** Lines 157-176: the [switch] on one value returned by
    [getopt_long]. *)
Definition option_case (c : getopt_call) (g : globals)
  : outcome + globals :=
  let g := match flag_set c with
           | Some ShowHelp =>
               mkGlobals (alpha g) (probability g) true (show_version g)
           | Some ShowVersion =>
               mkGlobals (alpha g) (probability g) (show_help g) true
           | None => g
           end in
  if (opt c =? 0)%Z then inr g
  else if (opt c =? char_code "a"%char)%Z then
    match optarg c with
    | None => inl Crashed
    | Some arg =>
        let '(v, ptr) := strtold arg in
        let g := mkGlobals v (probability g) (show_help g) (show_version g) in
        if rejects arg ptr then inl (error BadAlpha g) else inr g
    end
  else if (opt c =? char_code "p"%char)%Z then
    match optarg c with
    | None => inl Crashed
    | Some arg =>
        let '(v, ptr) := strtold arg in
        let g := mkGlobals (alpha g) v (show_help g) (show_version g) in
        if rejects arg ptr then inl (error BadProbability g) else inr g
    end
  else if (opt c =? char_code ":"%char)%Z || (opt c =? char_code "?"%char)%Z then
    inl (error (UnknownOption (optopt c)) g)
  else inl (error (GetoptCode (opt c)) g).

(** Lines 156-177: the loop over the calls of [getopt_long]. *)
Fixpoint option_loop (calls : list getopt_call) (g : globals)
  : outcome + globals :=
  match calls with
  | [] => inr g
  | c :: rest =>
      match option_case c g with
      | inl o => inl o
      | inr g' => option_loop rest g'
      end
  end.

Definition dash : list ascii := ["-"%char].

(** Lines 190-199: one stream. *)
Definition open (name : list ascii)
                (fs : list ascii -> option (list ascii))
                (stdin : list ascii) : option (list ascii) :=
  if streq name dash then Some stdin else fs name.

(** [main], lines 136-314.  [calls] and [optind] are what [getopt_long]
    answers for [argv]; [fs] maps the name of a readable file to its
    contents; the last four arguments are the initial contents of
    [line1], [line2], [f1] and [f2]. *)
Definition main (argv : list (list ascii))
                (calls : list getopt_call) (optind : nat)
                (fs : list ascii -> option (list ascii))
                (stdin : list ascii)
                (buf1 buf2 : list ascii) (x1 x2 : flt) : outcome :=
  match option_loop calls initial_globals with
  | inl o => o
  | inr g =>
      if show_help g then usage g
      else if show_version g then version g
      else if length argv <? optind + 3 then error NotEnoughArguments g
      else
        let file1name := nth (optind + 1) argv [] in
        let file2name := nth (optind + 2) argv [] in
        if streq file1name dash && streq file2name dash
        then error BothStdin g
        else
          match open file1name fs stdin with
          | None => error (CannotOpen file1name) g
          | Some stream1 =>
              match open file2name fs stdin with
              | None => error (CannotOpen file2name) g
              | Some stream2 =>
                  match compare_streams E stream1 stream2 buf1 buf2 x1 x2 with
                  | Done s => Returned 0 g s
                  | Fault => Crashed
                  | OutOfFuel => Stuck
                  end
              end
          end
  end.

(** The status that the parent process sees. *)
Definition exit_status (o : outcome) : option Z :=
  match o with
  | Returned status _ _ => Some status
  | Exited status _ => Some status
  | Failed _ _ => Some (exit_failure E)
  | Crashed => None
  | Stuck => None
  end.

End Main.

(* ------------------------------------------------------------------ *)
(** * The text of the reports *)

Section Text.

(** [printf] of a [long double] under a conversion specification. *)
Variable show_flt : string -> flt -> string.

(** [%d] of a counter. *)
Definition dec (n : nat) : string :=
  NilEmpty.string_of_uint (Nat.to_uint n).

Fixpoint spaces (k : nat) : string :=
  match k with
  | 0 => EmptyString
  | S k' => String " "%char (spaces k')
  end.

(** [%3d] of a counter: padded with spaces on the left to three places. *)
Definition dec3 (n : nat) : string :=
  (spaces (3 - String.length (dec n)) ++ dec n)%string.

Definition eol : string := String newline EmptyString.

Definition file_digit (f : file_id) : string :=
  match f with File1 => "1"%string | File2 => "2"%string end.

(** The format strings of lines 213, 218, 241, 246, 258, 264, 271,
    278-286, 296 and 311, filled in. *)
Definition text (d : diag) : string :=
  match d with
  | FileEnded File1 n =>
      "line " ++ dec3 n ++ ": file 1 ended before 2." ++ eol
  | FileEnded File2 n =>
      "line " ++ dec3 n ++ ": file 2 ended before 1." ++ eol
  | MissesToken n t =>
      "line " ++ dec3 n ++ ": file 1 misses " ++ dec t ++ "-th token." ++ eol
  | ExcessToken n t =>
      "line " ++ dec3 n ++ ": file 1 has excess " ++ dec t ++ "-th token."
      ++ eol
  | CannotParse f n t =>
      "line " ++ dec3 n ++ ": file " ++ file_digit f ++ ", " ++ dec t
      ++ "-th entry cannot be parsed as float." ++ eol
  | NonFloatDiffer n t a b =>
      "line " ++ dec3 n ++ ": " ++ dec t ++ "-th non-float tokens differ: '"
      ++ string_of_list_ascii a ++ "' != '" ++ string_of_list_ascii b ++ "'."
      ++ eol
  | FloatDiffers n t x y ad rd =>
      "line " ++ dec3 n ++ ": " ++ dec t ++ "-th float differs: "
      ++ show_flt "%8LG" x ++ " != " ++ show_flt "%-8LG" y
      ++ match ad with
         | Some v => "  absdiff = " ++ show_flt "%9.5LE" v
         | None => EmptyString
         end
      ++ match rd with
         | Some v => "  reldiff = " ++ show_flt "%9.5LE" v
         | None => EmptyString
         end
      ++ eol
  | WsMismatch n t =>
      "line " ++ dec3 n ++ ": whitespace mismatch after " ++ dec t
      ++ "-th token." ++ eol
  | Found n l =>
      "Found " ++ dec n ++ " differences in " ++ dec l ++ " lines" ++ eol
  end%string.

(** Standard output at the end of [main]. *)
Definition stdout (s : locals) : string :=
  fold_right String.append EmptyString (map text (out s)).

End Text.

(* ------------------------------------------------------------------ *)
(** * An instance of the environment *)

(** Decimal subjects ([-12.5e3]), [inf], [infinity] and [nan], as the C
    library converts them; hexadecimal subjects are left out of this
    instance.  [equal] is the comparison that the body of [should_accept]
    computes. *)
Module CLib.

Definition digit (c : ascii) : option Z :=
  let n := nat_of_ascii c in
  if (48 <=? n) && (n <=? 57) then Some (Z.of_nat (n - 48)) else None.

(** Leading digits of [s]: their value on top of [acc], how many there
    are, and what follows. *)
Fixpoint digits (s : list ascii) (acc : Z) : Z * nat * list ascii :=
  match s with
  | c :: rest =>
      match digit c with
      | Some d =>
          let '(v, k, r) := digits rest (acc * 10 + d)%Z in (v, S k, r)
      | None => (acc, 0, s)
      end
  | [] => (acc, 0, [])
  end.

Definition lower (c : ascii) : ascii :=
  let n := nat_of_ascii c in
  if (65 <=? n) && (n <=? 90) then ascii_of_nat (n + 32) else c.

(** [word] is a prefix of [s], letter case aside. *)
Fixpoint starts_with (word s : list ascii) : bool :=
  match word, s with
  | [] , _ => true
  | w :: word', c :: s' => Ascii.eqb w (lower c) && starts_with word' s'
  | _ :: _, [] => false
  end.

Definition chars (s : string) : list ascii := list_ascii_of_string s.

(** An exponent part at the head of [s]: its value and length. *)
Definition exponent (s : list ascii) : Z * nat :=
  match s with
  | e :: rest =>
      if Ascii.eqb (lower e) "e"%char then
        let '(neg, sl, rest') :=
          match rest with
          | "-"%char :: r => (true, 1, r)
          | "+"%char :: r => (false, 1, r)
          | _ => (false, 0, rest)
          end in
        let '(v, k, _) := digits rest' 0%Z in
        if k =? 0 then (0%Z, 0)
        else ((if neg then - v else v)%Z, 1 + sl + k)
      else (0%Z, 0)
  | [] => (0%Z, 0)
  end.

(** An unsigned subject. *)
Definition magnitude (s : list ascii) : option (flt * nat) :=
  if starts_with (chars "infinity") s then Some (PInf, 8)
  else if starts_with (chars "inf") s then Some (PInf, 3)
  else if starts_with (chars "nan") s then Some (NaN, 3)
  else
    let '(ip, k1, r1) := digits s 0%Z in
    let '(m, k2, r2, dot) :=
      match r1 with
      | "."%char :: r =>
          let '(m, k2, r2) := digits r ip in (m, k2, r2, 1)
      | _ => (ip, 0, r1, 0)
      end in
    if k1 + k2 =? 0 then None
    else
      let '(ex, kl) := exponent r2 in
      Some (Fin (Qmult (inject_Z m)
                   (Qpower (10 # 1) (ex - Z.of_nat k2))),
            k1 + dot + k2 + kl).

Definition fneg (x : flt) : flt :=
  match x with
  | Fin q => Fin (Qopp q)
  | PInf => NInf
  | NInf => PInf
  | NaN => NaN
  end.

Definition subject (s : list ascii) : option (flt * nat) :=
  match s with
  | "-"%char :: r =>
      match magnitude r with
      | Some (v, k) => Some (fneg v, S k)
      | None => None
      end
  | "+"%char :: r =>
      match magnitude r with
      | Some (v, k) => Some (v, S k)
      | None => None
      end
  | _ => magnitude s
  end.

(** Tolerances of one part in ten million, strict about white space. *)
Definition env : Env :=
  {| scan_flt := fun s => option_map fst (subject s);
     strtold_subject := subject;
     equal := fun x y =>
       should_accept x y (Fin (1 # 10000000)) (Fin (1 # 10000000))
                     zero zero;
     ignore_ws := false;
     abs_prec := Fin (1 # 10000000);
     rel_prec := Fin (1 # 10000000);
     exit_failure := (-1)%Z |}.

(** A buffer of [MAXLINELEN] null characters. *)
Definition blank : list ascii := repeat NUL MAXLINELEN.

End CLib.

(* ------------------------------------------------------------------ *)
(** * Vocabulary of the statements *)

(** ** The documented test *)

(** The acceptance rule as the specification words it, for comparison with
    [should_accept]: accept iff
    [(k/n - p0 + 1/(2n)) / sqrt(p0*(1-p0)/n) >= -z].  For [z >= 0] the
    square root is removed by squaring: the numerator is not negative, or
    its square is at most [z^2 * p0*(1-p0)/n]. *)
Definition spec_z_rule (z p0 k n : Q) : bool :=
  let num := (k / n - p0 + 1 / (2 * n))%Q in
  Qleb 0 num || Qleb (num * num) (z * z * (p0 * (1 - p0) / n))%Q.

(** The 95% quantile of the normal distribution, to three decimals. *)
Definition z95 : Q := 1645 # 1000.

(** Both arguments are infinities of one sign. *)
Definition same_infinity (x y : flt) : bool :=
  match x, y with
  | PInf, PInf | NInf, NInf => true
  | _, _ => false
  end.

(** ** Reports *)

(** The line that a report is about; the summary is about none. *)
Definition diag_line (d : diag) : option nat :=
  match d with
  | FileEnded _ n | MissesToken n _ | ExcessToken n _ | CannotParse _ n _
  | NonFloatDiffer n _ _ _ | FloatDiffers n _ _ _ _ _ | WsMismatch n _ =>
      Some n
  | Found _ _ => None
  end.

(** The reports that are printed next to a [diff++]. *)
Definition counts_as_diff (d : diag) : bool :=
  match d with
  | WsMismatch _ _ | Found _ _ => false
  | _ => true
  end.

Definition is_length_mismatch (d : diag) : bool :=
  match d with FileEnded _ _ => true | _ => false end.

(** A report of the token loop on line [n]. *)
Definition token_diag (n : nat) (d : diag) : Prop :=
  diag_line d = Some n /\ is_length_mismatch d = false.

(** A report other than a length mismatch, about a line before [n]. *)
Definition earlier_line (n : nat) (d : diag) : Prop :=
  is_length_mismatch d = false /\
  exists k, diag_line d = Some k /\ 0 < k < n.

(** Number of reports that count as a difference. *)
Definition differences (l : list diag) : nat :=
  length (filter counts_as_diff l).

(** The summary of line 311, printed when [diff > 0]. *)
Definition summary_line (s : locals) : list diag :=
  if 0 <? diff s then [Found (diff s) (linenr s - 1)] else [].

(** ** Results of the loops *)

(** [P] holds when the pass goes on to another one. *)
Definition continues (P : locals -> Prop) (r : iter) : Prop :=
  match r with
  | Continue s' => P s'
  | _ => True
  end.

(** [P] holds of the state that the pass ends in. *)
Definition after (P : locals -> Prop) (r : iter) : Prop :=
  match r with
  | Break s' | Continue s' => P s'
  | Undefined => True
  end.

(** The loop stops on the fuel it got, and [P] holds of its final state
    unless it ran into undefined behaviour. *)
Definition finishes (P : locals -> Prop) (r : result locals) : Prop :=
  match r with
  | Done s' => P s'
  | Fault => True
  | OutOfFuel => False
  end.

(** ** Cursors *)

(** The cursors of [s'] are those of [s] moved forward by [k1] and [k2],
    over the same buffers. *)
Record moved (s s' : locals) (k1 k2 : nat) : Prop := {
  moved_pos1 : pos1 s' = pos1 s + k1;
  moved_pos2 : pos2 s' = pos2 s + k2;
  moved_line1 : line1 s' = line1 s;
  moved_line2 : line2 s' = line2 s
}.

(** Where [tokendone] leaves the cursors when the loop goes on: on two
    characters of the buffers that are not both terminators, after the
    white space that [scanspace] finds. *)
Definition lands (s s' : locals) : Prop :=
  exists k1 w1 k2 w2 c1 c2,
    scanspace (skipn (pos1 s) (line1 s)) = Some (k1, w1) /\
    scanspace (skipn (pos2 s) (line2 s)) = Some (k2, w2) /\
    moved s s' k1 k2 /\
    nth_error (line1 s) (pos1 s + k1) = Some c1 /\
    nth_error (line2 s) (pos2 s + k2) = Some c2 /\
    is_nul c1 && is_nul c2 = false.

Definition same_cursor (s s' : locals) : Prop :=
  pos1 s' = pos1 s /\ pos2 s' = pos2 s /\
  line1 s' = line1 s /\ line2 s' = line2 s.

(** How far [advance] moves a cursor: by what the conversion consumed, or
    by the old value of [n1] (or [n2]). *)
Definition step_of (t : option (nat * list ascii)) (old : nat) : nat :=
  match t with Some (n, _) => n | None => old end.

(** A pass through the body of the token loop moves no cursor back, moves
    one of them forward, and leaves both inside their buffers. *)
Definition progress (s s' : locals) : Prop :=
  pos1 s <= pos1 s' /\ pos2 s <= pos2 s' /\
  (pos1 s < pos1 s' \/ pos2 s < pos2 s') /\
  pos1 s' < length (line1 s') /\ pos2 s' < length (line2 s') /\
  line1 s' = line1 s /\ line2 s' = line2 s.

(** Distance of the cursors from the ends of their buffers. *)
Definition room (s : locals) : nat :=
  (length (line1 s) - pos1 s) + (length (line2 s) - pos2 s).

(** ** Work on one line *)

(** [s'] comes from [s] by work on the current line: streams, buffers and
    line number are the same, reports about this line were added, and
    [diff] went up by the number of those that count. *)
Record extends (s s' : locals) : Prop := {
  ext_file1 : file1 s' = file1 s;
  ext_file2 : file2 s' = file2 s;
  ext_linenr : linenr s' = linenr s;
  ext_line1 : line1 s' = line1 s;
  ext_line2 : line2 s' = line2 s;
  ext_out : exists evs,
      out s' = out s ++ evs /\
      Forall (token_diag (linenr s)) evs /\
      diff s' = diff s + differences evs
}.

(** ** Streams *)

(** Number of lines that [fgets] delivers from a stream. *)
Fixpoint count_lines (fuel : nat) (stream : list ascii) : nat :=
  match fuel with
  | 0 => 0
  | S fuel' =>
      match fgets [] stream with
      | None => 0
      | Some (_, rest) => S (count_lines fuel' rest)
      end
  end.

Definition stream_lines (stream : list ascii) : nat :=
  count_lines (length stream) stream.

(** The report of the line loop on streams of [a] and [b] lines, made at
    line [n]: none when the streams end together. *)
Definition length_report (a b n : nat) : list diag :=
  if a =? b then []
  else [FileEnded (if a <? b then File1 else File2) n].

(** What the line loop has done when it stops, in terms of the state it
    started from. *)
Record line_loop_post (s s' : locals) : Prop := {
  post_linenr :
    linenr s' =
    linenr s + S (min (stream_lines (file1 s)) (stream_lines (file2 s)));
  post_out : exists evs,
    out s' = out s ++ evs ++
               length_report (stream_lines (file1 s))
                             (stream_lines (file2 s)) (linenr s') /\
    Forall (fun d => is_length_mismatch d = false /\
                     exists n, diag_line d = Some n /\
                               linenr s < n < linenr s') evs /\
    diff s' = diff s + differences evs +
              length (length_report (stream_lines (file1 s))
                                    (stream_lines (file2 s)) (linenr s'))
}.

(** ** Reads inside the buffers *)

(** The C string at the head of the buffer holds no token. *)
Definition blank_line (buf : list ascii) : Prop :=
  scan_token buf = Some None.

(** The cursors have a terminator in front of them, and a token starts at
    one of them at least. *)
Definition ready (s : locals) : Prop :=
  In NUL (skipn (pos1 s) (line1 s)) /\
  In NUL (skipn (pos2 s) (line2 s)) /\
  ~ (blank_line (skipn (pos1 s) (line1 s)) /\
     blank_line (skipn (pos2 s) (line2 s))).

(** No two lines that [fgets] delivers together are both blank. *)
Fixpoint no_blank_pair (fuel : nat) (stream1 stream2 : list ascii) : Prop :=
  match fuel with
  | 0 => True
  | S fuel' =>
      match fgets [] stream1, fgets [] stream2 with
      | Some (l1, rest1), Some (l2, rest2) =>
          ~ (blank_line l1 /\ blank_line l2) /\
          no_blank_pair fuel' rest1 rest2
      | _, _ => True
      end
  end.

(** The same of two whole streams, on the fuel of the line loop. *)
Definition no_blank_lines (stream1 stream2 : list ascii) : Prop :=
  no_blank_pair (S (length stream1)) stream1 stream2.

(** The run ends in a state. *)
Definition returns (r : result locals) : Prop := exists s, r = Done s.

(** ** Options *)

(** The globals that an outcome leaves behind. *)
Definition globals_of (o : outcome) : option globals :=
  match o with
  | Returned _ g _ | Exited _ g | Failed _ g => Some g
  | Crashed | Stuck => None
  end.

(** The call returned neither ['a'] nor ['p']. *)
Definition not_a_or_p (c : getopt_call) : Prop :=
  opt c <> char_code "a"%char /\ opt c <> char_code "p"%char.

(** The calls of [error()] that report a mistake in the command line. *)
Definition usage_error (e : error_msg) : bool :=
  match e with
  | CannotOpen _ => false
  | _ => true
  end.

(** ** A value inside its interval *)

(** The submission line [1.00] and the reference line [0.90 1.10]. *)
Definition one_value : list ascii := CLib.chars "1.00" ++ [newline].
Definition one_interval : list ascii := CLib.chars "0.90 1.10" ++ [newline].

(** The line was found to differ: [diff] went up, and among the new
    reports is a missing second token or a token that cannot be parsed. *)
Definition reported_on (s : locals) (r : result locals) : Prop :=
  match r with
  | Done s' =>
      diff s < diff s' /\
      exists evs,
        out s' = out s ++ evs /\
        (In (MissesToken (linenr s) 2) evs \/
         In (CannotParse File1 (linenr s) 1) evs \/
         In (CannotParse File2 (linenr s) 1) evs)
  | Fault | OutOfFuel => False
  end.

(** ** Two streams of different lengths *)

Definition one_line : list ascii := CLib.chars "1" ++ [newline].
Definition two_lines : list ascii :=
  CLib.chars "1" ++ [newline] ++ CLib.chars "2" ++ [newline].

(** ** Two command lines *)

(** [check_estimation x - -]: no option, [optind] is 1. *)
Definition argv_both_stdin : list (list ascii) :=
  [CLib.chars "check_estimation"; CLib.chars "x"; dash; dash].

(** [check_estimation x out ref] with two files of one line. *)
Definition argv_two_files : list (list ascii) :=
  [CLib.chars "check_estimation"; CLib.chars "x";
   CLib.chars "out"; CLib.chars "ref"].

Definition two_files (name : list ascii) : option (list ascii) :=
  if streq name (CLib.chars "out") then Some one_value
  else if streq name (CLib.chars "ref") then Some one_interval
  else None.

(** ** Flags, summaries and runs without a report *)

(** The call of [getopt_long] has set the flag variable [v]. *)
Definition sets_flag (v : flag_var) (c : getopt_call) : Prop :=
  flag_set c = Some v.

(** The summary of line 311. *)
Definition is_summary (d : diag) : bool :=
  match d with Found _ _ => true | _ => false end.

(** The two cursors have the same characters in front of them, up to a
    terminator. *)
Definition same_ahead (s : locals) : Prop :=
  exists rest t1 t2,
    skipn (pos1 s) (line1 s) = rest ++ NUL :: t1 /\
    skipn (pos2 s) (line2 s) = rest ++ NUL :: t2.

(** Nothing was printed or counted between [s] and [s']. *)
Definition quiet (s s' : locals) : Prop :=
  out s' = out s /\ diff s' = diff s /\ wsdiff s' = wsdiff s.

(** ** Tokens of a line *)

(** The tokens that successive [%s] conversions find in the C string at
    the head of a buffer. *)
Fixpoint words (fuel : nat) (s : list ascii) : list (list ascii) :=
  match fuel with
  | 0 => []
  | S fuel' =>
      match scan_token s with
      | Some (Some (n, w)) => w :: words fuel' (skipn n s)
      | _ => []
      end
  end.

(** The same on fuel that the buffer cannot use up. *)
Definition line_words (s : list ascii) : list (list ascii) :=
  words (length s) s.

(** Two tokens after which [diff] is what it was: they are equal as
    strings, or both are converted by [%Lf] to numbers that [equal]
    accepts. *)
Definition token_match (E : Env) (w1 w2 : list ascii) : bool :=
  streq w1 w2 ||
  match sscanf_Lf E w1, sscanf_Lf E w2 with
  | Converted v1, Converted v2 => equal E v1 v2
  | _, _ => false
  end.

(** Two lines with as many tokens, which match one by one. *)
Fixpoint all_match (E : Env) (a b : list (list ascii)) : bool :=
  match a, b with
  | [], [] => true
  | x :: a', y :: b' => token_match E x y && all_match E a' b'
  | _, _ => false
  end.

(** Two streams with as many lines, which match one by one. *)
Fixpoint streams_match (E : Env) (fuel : nat) (stream1 stream2 : list ascii)
  : bool :=
  match fuel with
  | 0 => true
  | S fuel' =>
      match fgets [] stream1, fgets [] stream2 with
      | None, None => true
      | Some (l1, rest1), Some (l2, rest2) =>
          all_match E (line_words l1) (line_words l2)
          && streams_match E fuel' rest1 rest2
      | _, _ => false
      end
  end.

(** The tokens in front of the cursors. *)
Definition words_ahead1 (s : locals) : list (list ascii) :=
  line_words (skipn (pos1 s) (line1 s)).
Definition words_ahead2 (s : locals) : list (list ascii) :=
  line_words (skipn (pos2 s) (line2 s)).

(** The same of two whole streams, on the fuel of the line loop. *)
Definition inputs_match (E : Env) (stream1 stream2 : list ascii) : bool :=
  streams_match E (S (length stream1)) stream1 stream2.

(** ** Order of the reports *)

(** The token that a report is about; a length mismatch and the summary
    are about none. *)
Definition diag_token (d : diag) : nat :=
  match d with
  | MissesToken _ k | ExcessToken _ k | CannotParse _ _ k
  | NonFloatDiffer _ k _ _ | FloatDiffers _ k _ _ _ _ | WsMismatch _ k => k
  | FileEnded _ _ | Found _ _ => 0
  end.

(** The place of a report's [printf] in the body of the token loop: the
    three reports after which the pass goes on, in the order of the code,
    then the reports that are followed by [break]. *)
Definition diag_rank (d : diag) : nat :=
  match d with
  | NonFloatDiffer _ _ _ _ => 0
  | FloatDiffers _ _ _ _ _ _ => 1
  | WsMismatch _ _ => 2
  | _ => 3
  end.

(** The reports of the token loop that are followed by [break]. *)
Definition stops_line (d : diag) : bool :=
  match d with
  | MissesToken _ _ | ExcessToken _ _ | CannotParse _ _ _ => true
  | _ => false
  end.

(** The report of line 295. *)
Definition is_ws_report (d : diag) : bool :=
  match d with WsMismatch _ _ => true | _ => false end.

(** The line of a report as a number, 0 for the summary. *)
Definition line_nr (d : diag) : nat :=
  match diag_line d with Some n => n | None => 0 end.

(** [d] comes before [d']: an earlier line, or the same line and an
    earlier token, or the same token and an earlier [printf]. *)
Definition before (d d' : diag) : Prop :=
  line_nr d < line_nr d' \/
  (line_nr d = line_nr d' /\
   (diag_token d < diag_token d' \/
    (diag_token d = diag_token d' /\ diag_rank d < diag_rank d'))).

(** [R] holds of every element and every later element of the list. *)
Fixpoint pairwise (R : diag -> diag -> Prop) (l : list diag) : Prop :=
  match l with
  | [] => True
  | d :: l' => Forall (R d) l' /\ pairwise R l'
  end.

(** No report comes after a report followed by [break] on the same
    line. *)
Definition closes_line (d d' : diag) : Prop :=
  stops_line d = true -> diag_line d' <> diag_line d.

(** A report of pass [k] on line [n] whose [printf] has a place from [lo]
    to [hi - 1]; with [ignore_ws] it is no white-space report. *)
Definition pass_diag (E : Env) (n k lo hi : nat) (d : diag) : Prop :=
  diag_line d = Some n /\ is_length_mismatch d = false /\
  diag_token d = k /\ lo <= diag_rank d < hi /\
  (ignore_ws E = true -> is_ws_report d = false).

Definition stage (E : Env) (n k lo hi : nat) (evs : list diag) : Prop :=
  Forall (pass_diag E n k lo hi) evs /\ pairwise before evs.

(** [s'] comes from [s] by printing [evs] within one pass. *)
Definition adds (s s' : locals) (evs : list diag) : Prop :=
  out s' = out s ++ evs /\
  linenr s' = linenr s /\ tokennr s' = tokennr s.

(** The reports of the passes after pass [k] on line [n]. *)
Definition line_reports (E : Env) (n k : nat) (evs : list diag) : Prop :=
  Forall (fun d => diag_line d = Some n /\ is_length_mismatch d = false /\
                   k < diag_token d /\
                   (ignore_ws E = true -> is_ws_report d = false)) evs /\
  pairwise before evs /\
  pairwise (fun d _ => stops_line d = false) evs.

(** The reports of the line loop after line [n]. *)
Definition run_reports (E : Env) (n : nat) (evs : list diag) : Prop :=
  Forall (fun d => n < line_nr d /\ is_summary d = false /\
                   (ignore_ws E = true -> is_ws_report d = false)) evs /\
  pairwise before evs /\
  pairwise closes_line evs.

(** ** Passes of the token loop *)

(** The result of a pass that printed and counted nothing; when the loop
    goes on, the cursors are again on the same text and a token starts
    there. *)
Definition quiet_pass (s : locals) (r : iter) : Prop :=
  match r with
  | Break s' => quiet s s'
  | Continue s' =>
      quiet s s' /\ same_ahead s' /\
      ~ blank_line (skipn (pos1 s') (line1 s'))
  | Undefined => False
  end.

(** What [tokendone] does to [diff] and to the tokens ahead. *)
Definition spaces_skipped (s : locals) (r : iter) : Prop :=
  match r with
  | Undefined => False
  | Break s' =>
      diff s' = diff s /\ words_ahead1 s = [] /\ words_ahead2 s = []
  | Continue s' =>
      diff s' = diff s /\
      words_ahead1 s' = words_ahead1 s /\ words_ahead2 s' = words_ahead2 s
  end.

(** What a pass that read two tokens [w1] and [w2] does to [diff] and to
    the tokens ahead. *)
Definition tokens_judged (E : Env) (w1 w2 : list ascii) (s : locals)
                         (r : iter) : Prop :=
  match r with
  | Undefined => False
  | Break s' =>
      diff s <= diff s' /\
      (diff s' = diff s <-> token_match E w1 w2 = true) /\
      (diff s' = diff s -> words_ahead1 s = [] /\ words_ahead2 s = [])
  | Continue s' =>
      diff s <= diff s' /\
      (diff s' = diff s <-> token_match E w1 w2 = true) /\
      words_ahead1 s' = words_ahead1 s /\ words_ahead2 s' = words_ahead2 s
  end.

(** What one pass does to [diff], in terms of the tokens ahead. *)
Definition pass_judged (E : Env) (s : locals) (r : iter) : Prop :=
  match r with
  | Undefined => False
  | Break s' =>
      diff s <= diff s' /\
      (diff s' = diff s <->
       all_match E (words_ahead1 s) (words_ahead2 s) = true)
  | Continue s' =>
      diff s <= diff s' /\
      exists w1 w2,
        words_ahead1 s = w1 :: words_ahead1 s' /\
        words_ahead2 s = w2 :: words_ahead2 s' /\
        (diff s' = diff s <-> token_match E w1 w2 = true)
  end.

(** The reports of a pass, from the [printf] at place [lo] on: when
    the loop goes on, none of them is one that is followed by [break]. *)
Definition pass_result (E : Env) (lo : nat) (s : locals) (r : iter)
  : Prop :=
  match r with
  | Break s' =>
      exists evs, adds s s' evs /\ stage E (linenr s) (tokennr s) lo 4 evs
  | Continue s' =>
      exists evs, adds s s' evs /\ stage E (linenr s) (tokennr s) lo 3 evs
  | Undefined => True
  end.

(** The reports of one pass, with its number. *)
Definition pass_reports (E : Env) (s : locals) (r : iter) : Prop :=
  match r with
  | Break s' =>
      exists evs, out s' = out s ++ evs /\ linenr s' = linenr s /\
                  tokennr s' = S (tokennr s) /\
                  stage E (linenr s) (S (tokennr s)) 0 4 evs
  | Continue s' =>
      exists evs, out s' = out s ++ evs /\ linenr s' = linenr s /\
                  tokennr s' = S (tokennr s) /\
                  stage E (linenr s) (S (tokennr s)) 0 3 evs
  | Undefined => True
  end.

(** ** Long blank lines *)

(** A white-space character other than the newline. *)
Definition space_not_newline (c : ascii) : Prop :=
  isspace c = true /\ c <> newline.

(** ** Two runs on the same streams *)

(** The two states differ at most in the line buffers and in [f1] and
    [f2]. *)
Record agree (s s' : locals) : Prop := {
  agree_file1 : file1 s' = file1 s;
  agree_file2 : file2 s' = file2 s;
  agree_linenr : linenr s' = linenr s;
  agree_tokennr : tokennr s' = tokennr s;
  agree_diff : diff s' = diff s;
  agree_wsdiff : wsdiff s' = wsdiff s;
  agree_pos1 : pos1 s' = pos1 s;
  agree_pos2 : pos2 s' = pos2 s;
  agree_n1 : n1 s' = n1 s;
  agree_n2 : n2 s' = n2 s;
  agree_str1 : str1 s' = str1 s;
  agree_str2 : str2 s' = str2 s;
  agree_out : out s' = out s
}.

(** In both states a cursor has the same characters in front of it, up to
    a terminator. *)
Definition same_text (l : list ascii) (p : nat) (l' : list ascii) (p' : nat)
  : Prop :=
  exists a t t', skipn p l = a ++ NUL :: t /\ skipn p' l' = a ++ NUL :: t'.

Definition agree_ahead (s s' : locals) : Prop :=
  agree s s' /\
  same_text (line1 s) (pos1 s) (line1 s') (pos1 s') /\
  same_text (line2 s) (pos2 s) (line2 s') (pos2 s').

(** Two passes that end the same way, in states that agree. *)
Definition iter_agree (r r' : iter) : Prop :=
  match r, r' with
  | Break a, Break b => agree a b
  | Continue a, Continue b => agree_ahead a b
  | _, _ => False
  end.

(** ** Inputs of the examples *)

(** The environment of [CLib.env] with [ignore_ws] set. *)
Definition env_ignore_ws : Env :=
  {| scan_flt := scan_flt CLib.env;
     strtold_subject := strtold_subject CLib.env;
     equal := equal CLib.env;
     ignore_ws := true;
     abs_prec := abs_prec CLib.env;
     rel_prec := rel_prec CLib.env;
     exit_failure := exit_failure CLib.env |}.

(** Two lines with the same numbers, written and spaced differently. *)
Definition spaced_out : list ascii := CLib.chars "1.0 2 x" ++ [newline].
Definition spaced_ref : list ascii := CLib.chars " 1.00   2 x" ++ [newline].

(** [--help], as [getopt_long] answers it. *)
Definition call_help : getopt_call :=
  mkCall 0 None NUL (Some ShowHelp).

(** [--probability=0.9], as [getopt_long] answers it. *)
Definition call_p : getopt_call :=
  mkCall (char_code "p") (Some (CLib.chars "0.9")) NUL None.

(** An empty line in buffer 1, a line with a token in buffer 2. *)
Definition empty_against_text : locals :=
  mkLocals [] [] 1 0 0 0 [newline; NUL] (CLib.chars "x" ++ [newline; NUL])
           0 0 0 0 [] [] NaN NaN [].

(** The line [1 2] after two spaces in buffer 1, after a tab in
    buffer 2. *)
Definition indented_lines : locals :=
  mkLocals [] [] 1 0 0 0
           (CLib.chars "  1 2" ++ [newline; NUL])
           ("009"%char :: CLib.chars "1 2" ++ [newline; NUL])
           0 0 0 0 [] [] NaN NaN [].

(** Two streams that start with a line of 511 spaces, before the line
    loop reads them into buffers of [MAXLINELEN] characters. *)
Definition long_blank : list ascii := repeat " "%char 511.
Definition before_long_blank : locals :=
  mkLocals (long_blank ++ newline :: CLib.chars "1")
           (long_blank ++ newline :: CLib.chars "1")
           0 0 0 0 CLib.blank CLib.blank 0 0 0 0 [] [] NaN NaN [].

(** ** Rounded differences *)

(** The tolerance that [(long double)1/7] gives. *)
Definition one_seventh : flt := Rounded.fdiv Rounded.x87 (Fin 1) (Fin 7).

(** The largest power of two of the x86 [long double]. *)
Definition two_to_16383 : Q := inject_Z (2 ^ 16383).

(** ** The short option [-p] *)

(** [-p], as [getopt_long] answers it under the option string ["a:p"],
    which gives [-p] no argument: ['p'] is returned and [optarg] is
    null. *)
Definition call_short_p : getopt_call :=
  mkCall (char_code "p") None NUL None.

(** [check_estimation -p 0.9 x out ref]. *)
Definition argv_short_p : list (list ascii) :=
  [CLib.chars "check_estimation"; CLib.chars "-p"; CLib.chars "0.9";
   CLib.chars "x"; CLib.chars "out"; CLib.chars "ref"].

(** ** Cursors past the terminators *)

(** The cursors of [s'] are not behind those of [s], over the same
    buffers. *)
Definition forward (s s' : locals) : Prop :=
  pos1 s <= pos1 s' /\ pos2 s <= pos2 s' /\
  line1 s' = line1 s /\ line2 s' = line2 s.

(** The cursors of [s'] are at [p1] and [p2] or beyond. *)
Definition reached (p1 p2 : nat) (s' : locals) : Prop :=
  p1 <= pos1 s' /\ p2 <= pos2 s'.

(** The buffers when the second lines of [abc\n\n] and [abd\n\n] have been
    read: an empty line each, and behind its terminator what is left of
    the first line. *)
Definition empty_after_abc : list ascii :=
  [newline; NUL] ++ CLib.chars "c" ++ [newline; NUL] ++ skipn 5 CLib.blank.
Definition empty_after_abd : list ascii :=
  [newline; NUL] ++ CLib.chars "d" ++ [newline; NUL] ++ skipn 5 CLib.blank.
Definition second_empty_lines : locals :=
  mkLocals [] [] 2 1 0 1 empty_after_abc empty_after_abd
           3 3 3 3 (CLib.chars "abc") (CLib.chars "abd") NaN NaN
           [CannotParse File1 1 1].

(** The same when lines 223-228 have skipped the white space: the token
    loop starts with both cursors on the terminators. *)
Definition at_the_terminators : locals :=
  set_pos2 1 (set_pos1 1 (set_tokennr 0
    (set_str2 [newline] (set_n2 1
      (set_str1 [newline] (set_n1 1 second_empty_lines)))))).

(** ** Reports on one line of text *)

(** The text holds no newline. *)
Definition no_newline (t : string) : Prop :=
  ~ In newline (list_ascii_of_string t).

(** The report of line 271, which prints [str1] and [str2]. *)
Definition prints_tokens (d : diag) : bool :=
  match d with NonFloatDiffer _ _ _ _ => true | _ => false end.

(** No report printed so far is that of line 271. *)
Definition plain_out (s : locals) : Prop :=
  Forall (fun d => prints_tokens d = false) (out s).

(** A stand-in for [printf] of a [long double]. *)
Definition show_placeholder (f : string) (x : flt) : string := "<flt>".

(** An empty line against a line of one space. *)
Definition empty_line : list ascii := [newline].
Definition space_line : list ascii := [" "%char; newline].

(* ------------------------------------------------------------------ *)
(** * Properties of [should_accept] *)

Lemma flt_gt_not_le (x y : flt) :
  isnan x = false -> isnan y = false -> flt_gt x y = negb (flt_le x y).
Proof.
  unfold flt_gt.
  destruct x as [a| | |], y as [b| | |]; simpl; try reflexivity;
    try discriminate.
  intros _ _. unfold Qltb, Qleb. apply Z.ltb_antisym.
Qed.

Lemma fabsl_not_nan (x : flt) : isnan x = false -> isnan (fabsl x) = false.
Proof. destruct x; simpl; auto. Qed.

(** The absolute difference of two finite values is a number. *)
Lemma absdiff_finite (a b : Q) :
  fabsl (fsub (Fin a) (Fin b)) = Fin (Qabs (a - b)).
Proof. reflexivity. Qed.

Lemma zero_within (d : Q) (tol : flt) :
  Qzero d = true -> flt_le zero tol = true -> flt_le (Fin (Qabs d)) tol = true.
Proof.
  unfold Qzero. intros Hd. destruct tol as [p| | |]; simpl; auto.
  unfold Qleb. destruct d as [n k]. cbn [Qnum Qden Qabs zero] in *.
  apply Z.eqb_eq in Hd. subst n. intros H.
  apply Z.leb_le in H. apply Z.leb_le.
  change (Z.abs 0) with 0%Z. change (Qnum 0) with 0%Z in H.
  change (QDen 0) with 1%Z in H. nia.
Qed.

Lemma flt_le_zero_number (tol : flt) :
  flt_le zero tol = true -> isnan tol = false.
Proof. destruct tol; simpl; auto. Qed.

(** C1. [should_accept] does not look at its arguments [successes] and
    [cases]: called with 0 successes out of 100 cases it answers what it
    answers for 100 successes out of 100, whereas the documented test
    (alpha 0.05, probability 0.95) rejects the first and accepts the
    second. *)
Theorem should_accept_ignores_counts (x y tol_abs tol_rel : flt) :
  spec_z_rule z95 (95 # 100) 0 (100 # 1) = false /\
  spec_z_rule z95 (95 # 100) (100 # 1) (100 # 1) = true /\
  should_accept x y tol_abs tol_rel (Fin 0%Q) (Fin (100 # 1)) =
  should_accept x y tol_abs tol_rel (Fin (100 # 1)) (Fin (100 # 1)).
Proof. repeat split. Qed.

(* ------------------------------------------------------------------ *)
(** * Scanning a buffer *)

Lemma skipn_head (A : Type) (l : list A) (p : nat) (c : A) (rest : list A) :
  skipn p l = c :: rest -> nth_error l p = Some c.
Proof.
  revert l. induction p as [|p IH]; intros [|a l]; simpl; try discriminate.
  - intros H. injection H as -> _. reflexivity.
  - apply IH.
Qed.

Lemma nth_error_skipn (A : Type) (l : list A) (p k : nat) :
  nth_error (skipn p l) k = nth_error l (p + k).
Proof.
  revert l. induction p as [|p IH]; intros [|a l]; simpl; auto.
  destruct k; reflexivity.
Qed.

(** [scanspace] stops on a character of the buffer that is not white
    space. *)
Lemma scanspace_stops (s : list ascii) (k : nat) (w : list ascii) :
  scanspace s = Some (k, w) ->
  exists c, nth_error s k = Some c /\ isspace c = false.
Proof.
  revert k w. induction s as [|c s IH]; simpl; intros k w; [discriminate|].
  destruct (isspace c) eqn:Hc.
  - destruct (scanspace s) as [[k' w']|] eqn:Hs; [|discriminate].
    intros H. injection H as <- <-. simpl. eapply IH. reflexivity.
  - intros H. injection H as <- <-. exists c. auto.
Qed.

Lemma scan_word_length (s : list ascii) (n : nat) (w : list ascii) :
  scan_word s = Some (n, w) -> n < length s.
Proof.
  revert n w. induction s as [|c s IH]; simpl; intros n w; [discriminate|].
  destruct (isspace c || is_nul c).
  - intros H. injection H as <- <-. lia.
  - destruct (scan_word s) as [[n' w']|] eqn:Hs; [|discriminate].
    intros H. injection H as <- <-. specialize (IH _ _ eq_refl). lia.
Qed.

(** A [%s] conversion that succeeds consumes at least one character and
    stays inside the buffer. *)
Lemma scan_token_consumes (s : list ascii) (n : nat) (w : list ascii) :
  scan_token s = Some (Some (n, w)) -> 1 <= n /\ n < length s.
Proof.
  revert n w. induction s as [|c s IH]; intros n w; [discriminate|].
  cbn [scan_token]. destruct (isspace c) eqn:Hc.
  - destruct (scan_token s) as [[[n' w']|]|] eqn:Hs; try discriminate.
    intros H. injection H as <- <-.
    destruct (IH _ _ eq_refl). simpl. lia.
  - destruct (is_nul c) eqn:Hn; [discriminate|].
    destruct (scan_word (c :: s)) as [[n' w']|] eqn:Hw; [|discriminate].
    intros H. injection H as <- <-. split.
    + simpl in Hw. rewrite Hc, Hn in Hw. simpl in Hw.
      destruct (scan_word s) as [[n'' w'']|]; [|discriminate].
      injection Hw as <- _. lia.
    + eapply scan_word_length. eassumption.
Qed.

(** On an input failure the white space, if any, is followed by the
    terminator. *)
Lemma scan_token_end (s : list ascii) (k : nat) (w : list ascii) :
  scan_token s = Some None -> scanspace s = Some (k, w) ->
  exists c, nth_error s k = Some c /\ is_nul c = true.
Proof.
  revert k w. induction s as [|c s IH]; intros k w; [discriminate|].
  cbn [scan_token scanspace]. destruct (isspace c) eqn:Hc.
  - destruct (scan_token s) as [[[n' w']|]|] eqn:Hs; try discriminate.
    intros _. destruct (scanspace s) as [[k' w'']|]; [|discriminate].
    intros H. injection H as <- <-. simpl. eapply IH; reflexivity.
  - destruct (is_nul c) eqn:Hn.
    + intros _ H. injection H as <- <-. exists c. auto.
    + destruct (scan_word (c :: s)) as [[n' w']|]; discriminate.
Qed.

(** ** With a terminator ahead *)

Lemma skipn_skipn (A : Type) (l : list A) (a b : nat) :
  skipn a (skipn b l) = skipn (b + a) l.
Proof.
  revert l. induction b as [|b IH]; intros l; simpl; [reflexivity|].
  destruct l; [destruct a; reflexivity | apply IH].
Qed.

Lemma scanspace_total (s : list ascii) :
  In NUL s ->
  exists k w, scanspace s = Some (k, w) /\ In NUL (skipn k s).
Proof.
  induction s as [|c s IH]; intros H; [destruct H|].
  simpl. destruct (isspace c) eqn:Hc.
  - destruct H as [-> | H]; [vm_compute in Hc; discriminate Hc|].
    destruct (IH H) as (k & w & -> & I). exists (S k), (c :: w). auto.
  - exists 0, []. auto.
Qed.

Lemma scan_word_total (s : list ascii) :
  In NUL s ->
  exists n w, scan_word s = Some (n, w) /\ In NUL (skipn n s).
Proof.
  induction s as [|c s IH]; intros H; [destruct H|].
  simpl. destruct (isspace c || is_nul c) eqn:Hc.
  - exists 0, []. auto.
  - destruct H as [-> | H]; [vm_compute in Hc; discriminate Hc|].
    destruct (IH H) as (n & w & -> & I). exists (S n), (c :: w). auto.
Qed.

Lemma scan_token_total (s : list ascii) :
  In NUL s ->
  exists t, scan_token s = Some t /\
            match t with
            | Some (n, _) => In NUL (skipn n s)
            | None => True
            end.
Proof.
  induction s as [|c s IH]; intros H; [destruct H|].
  cbn [scan_token]. destruct (isspace c) eqn:Hc.
  - destruct H as [-> | H]; [vm_compute in Hc; discriminate Hc|].
    destruct (IH H) as ([[n w]|] & -> & I); eexists; split; eauto.
  - destruct (is_nul c) eqn:Hn; [exists None; auto|].
    destruct (@scan_word_total _ H) as (n & w & -> & I).
    exists (Some (n, w)). auto.
Qed.

(** The white space in front of a line does not change whether it is
    blank. *)
Lemma blank_after_spaces (s : list ascii) (k : nat) (w : list ascii) :
  scanspace s = Some (k, w) ->
  blank_line (skipn k s) -> blank_line s.
Proof.
  unfold blank_line. revert k w.
  induction s as [|c s IH]; intros k w; [discriminate|].
  cbn [scanspace scan_token]. destruct (isspace c) eqn:Hc.
  - destruct (scanspace s) as [[k' w']|] eqn:Hs; [|discriminate].
    intros H. injection H as <- <-. simpl. intros B.
    rewrite (IH _ _ eq_refl B). reflexivity.
  - intros H. injection H as <- <-. simpl. rewrite Hc. auto.
Qed.

(** A cursor on a character that is neither white space nor the
    terminator has a token in front of it. *)
Lemma not_blank_at (l : list ascii) (p : nat) (c : ascii) :
  nth_error l p = Some c -> isspace c = false -> is_nul c = false ->
  ~ blank_line (skipn p l).
Proof.
  intros N Hs Hn. unfold blank_line.
  assert (S : exists rest, skipn p l = c :: rest).
  { revert l N. induction p as [|p IH]; intros [|a l] N; try discriminate.
    - injection N as ->. eexists; reflexivity.
    - simpl. apply IH. exact N. }
  destruct S as (rest & ->). cbn [scan_token]. rewrite Hs, Hn.
  destruct (scan_word (c :: rest)) as [[? ?]|]; discriminate.
Qed.

(* ------------------------------------------------------------------ *)
(** * Streams and [fgets] *)

Lemma take_line_length (room : nat) (c : ascii) (s : list ascii) :
  1 <= length (take_line (S room) (c :: s)) <= length (c :: s).
Proof.
  revert c s. induction room as [|room IH]; intros c s.
  - simpl. destruct (Ascii.eqb c newline) eqn:N; simpl; lia.
  - change (take_line (S (S room)) (c :: s))
      with (if Ascii.eqb c newline then [c] else c :: take_line (S room) s).
    destruct (Ascii.eqb c newline); [simpl; lia|].
    destruct s as [|d s]; [simpl; lia|].
    specialize (IH d s). cbn [length] in *. lia.
Qed.

Lemma fgets_rest (buf stream : list ascii) :
  match fgets buf stream with
  | None => stream = []
  | Some (_, rest) =>
      length rest < length stream /\
      exists b, fgets [] stream = Some (b, rest)
  end.
Proof.
  unfold fgets. destruct stream as [|c s]; [reflexivity|].
  split; [|eexists; reflexivity].
  change (MAXLINELEN - 1) with (S 1022).
  pose proof (take_line_length 1022 c s) as H.
  rewrite length_skipn. lia.
Qed.

Lemma count_lines_fuel (fuel : nat) (stream : list ascii) :
  length stream <= fuel -> count_lines fuel stream = stream_lines stream.
Proof.
  unfold stream_lines.
  revert stream. induction fuel as [fuel IH] using lt_wf_ind.
  intros stream Hl.
  destruct fuel as [|fuel].
  - destruct stream; [reflexivity | simpl in Hl; lia].
  - destruct stream as [|c s]; [reflexivity|].
    pose proof (fgets_rest [] (c :: s)) as H.
    cbn [length count_lines].
    destruct (fgets [] (c :: s)) as [[b rest]|]; [|reflexivity].
    destruct H as (Hr & _). cbn [length] in Hr, Hl.
    rewrite (IH fuel) by lia.
    rewrite (IH (length s)) by lia. reflexivity.
Qed.

Lemma stream_lines_nil : stream_lines [] = 0.
Proof. reflexivity. Qed.

Lemma stream_lines_fgets (buf stream b rest : list ascii) :
  fgets buf stream = Some (b, rest) ->
  stream_lines stream = S (stream_lines rest).
Proof.
  intros H. pose proof (fgets_rest buf stream) as R. rewrite H in R.
  destruct R as (Hl & b' & Hb).
  unfold stream_lines at 1.
  destruct stream as [|c s]; [discriminate|].
  cbn [length count_lines]. rewrite Hb.
  rewrite count_lines_fuel; [reflexivity | cbn [length] in Hl; lia].
Qed.

Lemma stream_lines_pos (buf stream b rest : list ascii) :
  fgets buf stream = Some (b, rest) -> 0 < stream_lines stream.
Proof. intros H. rewrite (stream_lines_fgets _ _ H). lia. Qed.

(* ------------------------------------------------------------------ *)
(** * The token loop and the line loop *)

Section Loops.

Variable E : Env.

(** ** Progress of the cursors *)

Lemma tokendone_lands (s : locals) : continues (lands s) (tokendone E s).
Proof.
  unfold tokendone.
  destruct (scanspace (skipn (pos1 s) (line1 s))) as [[k1 w1]|] eqn:S1;
    [|exact I].
  destruct (scanspace (skipn (pos2 s) (line2 s))) as [[k2 w2]|] eqn:S2;
    [|exact I].
  cbv zeta.
  match goal with |- context [if ?b then _ else ?x] =>
    set (s1 := if b then _ else x) end.
  assert (F : pos1 s1 = pos1 s /\ pos2 s1 = pos2 s /\
              line1 s1 = line1 s /\ line2 s1 = line2 s /\
              n1 s1 = k1 /\ n2 s1 = k2).
  { subst s1. destruct (negb _); [destruct (negb _)|]; simpl; auto 10. }
  destruct F as (F1 & F2 & F3 & F4 & F5 & F6).
  clearbody s1. simpl. rewrite F1, F2, F3, F4, F5, F6.
  destruct (nth_error (line1 s) (pos1 s + k1)) as [c1|] eqn:H1; [|exact I].
  destruct (nth_error (line2 s) (pos2 s + k2)) as [c2|] eqn:H2; [|exact I].
  destruct (is_nul c1 && is_nul c2) eqn:Hn; [exact I|].
  exists k1, w1, k2, w2, c1, c2. repeat split; simpl; auto; lia.
Qed.

Lemma lands_same_cursor (s t s' : locals) :
  same_cursor s t -> lands t s' -> lands s s'.
Proof.
  intros (Q1 & Q2 & Q3 & Q4) (k1 & w1 & k2 & w2 & c1 & c2 & H).
  rewrite Q1, Q2, Q3, Q4 in H.
  destruct H as (A & B & [M1 M2 M3 M4] & C).
  exists k1, w1, k2, w2, c1, c2.
  repeat split; try tauto; congruence.
Qed.

Lemma float_report_cursor (s : locals) : same_cursor s (float_report E s).
Proof. unfold float_report. destruct (negb _); repeat split. Qed.

Lemma compare_numbers_lands (s : locals) :
  continues (lands s) (compare_numbers E s).
Proof.
  unfold compare_numbers. cbv zeta.
  destruct (is_nomatch (sscanf_Lf E (str1 s))); [exact I|].
  destruct (is_nomatch (sscanf_Lf E (str2 s))); [exact I|].
  match goal with |- context [tokendone E (float_report E ?X)] =>
    pose proof (tokendone_lands (float_report E X)) as H;
    pose proof (float_report_cursor X) as Q;
    assert (Q' : same_cursor s X);
    [| destruct (tokendone E (float_report E X)); auto ]
  end.
  - destruct (negb _), (sscanf_Lf E (str1 s)), (sscanf_Lf E (str2 s));
      repeat split.
  - simpl. eapply lands_same_cursor; [|eassumption].
    destruct Q as (? & ? & ? & ?), Q' as (? & ? & ? & ?).
    repeat split; congruence.
Qed.

Lemma compare_tokens_lands (read1 read2 : bool) (s : locals) :
  continues (lands s) (compare_tokens E read1 read2 s).
Proof.
  unfold compare_tokens.
  destruct (negb read1 && read2); [exact I|].
  destruct (read1 && negb read2); [exact I|].
  destruct (streq (str1 s) (str2 s)).
  - apply tokendone_lands.
  - apply compare_numbers_lands.
Qed.

Lemma advance_moved (t1 t2 : option (nat * list ascii)) (s : locals) :
  moved s (advance t1 t2 s) (step_of t1 (n1 s)) (step_of t2 (n2 s)).
Proof. destruct t1 as [[? ?]|], t2 as [[? ?]|]; split; reflexivity. Qed.

Lemma nth_error_in_range (A : Type) (l : list A) (p : nat) (c : A) :
  nth_error l p = Some c -> p < length l.
Proof. intros H. apply nth_error_Some. congruence. Qed.

Lemma token_iter_progress (s : locals) :
  continues (progress s) (token_iter E s).
Proof.
  unfold token_iter. cbv zeta.
  set (s0 := set_tokennr (S (tokennr s)) s).
  change (pos1 s0) with (pos1 s). change (pos2 s0) with (pos2 s).
  change (line1 s0) with (line1 s). change (line2 s0) with (line2 s).
  destruct (scan_token (skipn (pos1 s) (line1 s))) as [t1|] eqn:T1;
    [|exact I].
  destruct (scan_token (skipn (pos2 s) (line2 s))) as [t2|] eqn:T2;
    [|exact I].
  pose proof (compare_tokens_lands (converted t1) (converted t2)
                (advance t1 t2 s0)) as H.
  pose proof (advance_moved t1 t2 s0) as [A1 A2 A3 A4].
  change (pos1 s0) with (pos1 s) in *. change (pos2 s0) with (pos2 s) in *.
  change (line1 s0) with (line1 s) in *. change (line2 s0) with (line2 s) in *.
  change (n1 s0) with (n1 s) in *. change (n2 s0) with (n2 s) in *.
  destruct (compare_tokens E (converted t1) (converted t2) (advance t1 t2 s0))
    as [|s'|] eqn:C; try exact I.
  destruct H as (k1 & w1 & k2 & w2 & c1 & c2 & S1 & S2 & [M1 M2 M3 M4] & N1 & N2 & NN).
  rewrite A1, A3 in S1, N1. rewrite A2, A4 in S2, N2.
  rewrite A1 in M1. rewrite A2 in M2. rewrite A3 in M3. rewrite A4 in M4.
  pose proof (nth_error_in_range _ _ N1) as R1.
  pose proof (nth_error_in_range _ _ N2) as R2.
  unfold continues, progress. rewrite M1, M2, M3, M4.
  assert (St : 0 < step_of t1 (n1 s) + k1 \/ 0 < step_of t2 (n2 s) + k2).
  { destruct t1 as [[m1 v1]|]; [apply scan_token_consumes in T1; simpl; lia|].
    destruct t2 as [[m2 v2]|]; [apply scan_token_consumes in T2; simpl; lia|].
    simpl in *.
    destruct (n1 s) as [|a] eqn:E1; [|lia].
    destruct (n2 s) as [|b] eqn:E2; [|lia].
    rewrite Nat.add_0_r in *.
    destruct (scan_token_end _ T1 S1) as (d1 & D1 & Z1).
    destruct (scan_token_end _ T2 S2) as (d2 & D2 & Z2).
    rewrite nth_error_skipn in D1, D2.
    rewrite D1 in N1. rewrite D2 in N2.
    injection N1 as <-. injection N2 as <-.
    rewrite Z1, Z2 in NN. discriminate. }
  repeat split; try reflexivity; lia.
Qed.

Lemma progress_room (s s' : locals) : progress s s' -> room s' < room s.
Proof.
  unfold progress, room. intros (A & B & C & D & F & G & H).
  rewrite G, H in *. lia.
Qed.

Lemma token_loop_fuel (fuel : nat) (s : locals) :
  room s < fuel -> token_loop E fuel s <> OutOfFuel.
Proof.
  revert s. induction fuel as [|fuel IH]; intros s Hr; [lia|].
  simpl. pose proof (token_iter_progress s) as P.
  destruct (token_iter E s) as [s'|s'|]; try discriminate.
  apply IH. apply progress_room in P. lia.
Qed.

(** ** Reports of one line *)

Lemma extends_refl (s : locals) : extends s s.
Proof.
  split; try reflexivity. exists []. rewrite app_nil_r.
  repeat split; auto.
Qed.

Lemma differences_app (a b : list diag) :
  differences (a ++ b) = differences a + differences b.
Proof. unfold differences. rewrite filter_app, length_app. reflexivity. Qed.

Lemma extends_trans (s t u : locals) : extends s t -> extends t u -> extends s u.
Proof.
  intros [A1 A2 A3 A4 A5 (e1 & O1 & F1 & D1)] [B1 B2 B3 B4 B5 (e2 & O2 & F2 & D2)].
  split; try congruence.
  exists (e1 ++ e2). rewrite O2, O1, app_assoc. split; [reflexivity|].
  split.
  - apply Forall_app. split; auto. rewrite <- A3. assumption.
  - rewrite differences_app. lia.
Qed.

(** Closes [extends s X] when [X] is [s] under setters and prints. *)
Ltac ext_leaf :=
  split; try reflexivity; simpl;
  first
    [ exists []; rewrite app_nil_r; repeat split; auto; unfold differences; simpl; lia
    | eexists; split;
      [ rewrite <- ?app_assoc; reflexivity
      | split; [ repeat constructor | unfold differences; simpl; lia ] ] ].

Lemma tokendone_extends (s : locals) : after (extends s) (tokendone E s).
Proof.
  unfold tokendone.
  destruct (scanspace (skipn (pos1 s) (line1 s))) as [[k1 w1]|]; [|exact I].
  destruct (scanspace (skipn (pos2 s) (line2 s))) as [[k2 w2]|]; [|exact I].
  cbv zeta.
  destruct (negb (streq _ _)); [destruct (negb (ignore_ws E))|];
    match goal with |- context [nth_error ?l ?p] => destruct (nth_error l p) end;
    try exact I;
    match goal with |- context [nth_error ?l ?p] => destruct (nth_error l p) end;
    try exact I;
    match goal with |- context [if ?b then _ else _] => destruct b end;
    simpl; ext_leaf.
Qed.

Lemma float_report_extends (s : locals) : extends s (float_report E s).
Proof.
  unfold float_report. destruct (negb _); [|apply extends_refl].
  ext_leaf.
Qed.

Lemma after_trans (s t : locals) (r : iter) :
  extends s t -> after (extends t) r -> after (extends s) r.
Proof. destruct r; simpl; eauto using extends_trans. Qed.

Lemma compare_numbers_extends (s : locals) :
  after (extends s) (compare_numbers E s).
Proof.
  unfold compare_numbers. cbv zeta.
  destruct (sscanf_Lf E (str1 s)), (sscanf_Lf E (str2 s)); simpl;
    try ext_leaf;
    (eapply after_trans; [| apply tokendone_extends]);
    (eapply extends_trans; [| apply float_report_extends]);
    ext_leaf.
Qed.

Lemma compare_tokens_extends (read1 read2 : bool) (s : locals) :
  after (extends s) (compare_tokens E read1 read2 s).
Proof.
  unfold compare_tokens.
  destruct (negb read1 && read2); [simpl; ext_leaf|].
  destruct (read1 && negb read2); [simpl; ext_leaf|].
  destruct (streq (str1 s) (str2 s)).
  - apply tokendone_extends.
  - apply compare_numbers_extends.
Qed.

Lemma token_iter_extends (s : locals) : after (extends s) (token_iter E s).
Proof.
  unfold token_iter. cbv zeta.
  destruct (scan_token _) as [t1|]; [|exact I].
  destruct (scan_token _) as [t2|]; [|exact I].
  eapply after_trans; [| apply compare_tokens_extends].
  destruct t1 as [[? ?]|], t2 as [[? ?]|]; ext_leaf.
Qed.

Lemma token_loop_extends (fuel : nat) (s : locals) :
  room s < fuel -> finishes (extends s) (token_loop E fuel s).
Proof.
  revert s. induction fuel as [|fuel IH]; intros s Hr; [lia|].
  simpl. pose proof (token_iter_progress s) as P.
  pose proof (token_iter_extends s) as X.
  destruct (token_iter E s) as [s'|s'|]; simpl in *; auto.
  apply progress_room in P.
  specialize (IH s' ltac:(lia)).
  destruct (token_loop E fuel s'); simpl in *; eauto using extends_trans.
Qed.

Lemma compare_line_extends (s : locals) :
  finishes (extends s) (compare_line E s).
Proof.
  unfold compare_line.
  destruct (scanspace (line1 s)) as [[k1 w1]|]; [|exact I].
  destruct (scanspace (line2 s)) as [[k2 w2]|]; [|exact I].
  cbv zeta.
  match goal with |- finishes _ (token_loop E (token_fuel ?X) ?X) =>
    pose proof (@token_loop_extends (token_fuel X) X) as H;
    assert (R : room X < token_fuel X) by (unfold room, token_fuel; lia);
    specialize (H R); assert (Q : extends s X) by ext_leaf;
    destruct (token_loop E (token_fuel X) X); simpl in *; eauto using extends_trans
  end.
Qed.

(** ** The line loop *)

Lemma line_loop_spec (fuel : nat) (s : locals) :
  length (file1 s) < fuel ->
  finishes (line_loop_post s) (line_loop E fuel s).
Proof.
  revert s. induction fuel as [|fuel IH]; intros s Hf; [lia|].
  cbn [line_loop]. cbv zeta.
  change (line1 (set_linenr (S (linenr s)) s)) with (line1 s).
  change (file1 (set_linenr (S (linenr s)) s)) with (file1 s).
  pose proof (fgets_rest (line1 s) (file1 s)) as R1.
  destruct (fgets (line1 s) (file1 s)) as [[b1 r1]|] eqn:G1.
  - cbn [line2 file2 set_file1 set_line1 set_linenr].
    pose proof (fgets_rest (line2 s) (file2 s)) as R2.
    destruct (fgets (line2 s) (file2 s)) as [[b2 r2]|] eqn:G2.
    + (* a line from each stream *)
      match goal with |- context [compare_line E ?X] =>
        pose proof (compare_line_extends X) as C;
        destruct (compare_line E X) as [s1| |]; simpl in C; try exact C; auto
      end.
      destruct C as [C1 C2 C3 C4 C5 (e1 & O1 & F1 & D1)]. simpl in *.
      specialize (IH s1 ltac:(rewrite C1; lia)).
      destruct (line_loop E fuel s1) as [s'| |]; simpl in *; auto.
      destruct IH as [L (e2 & O2 & F2 & D2)].
      rewrite C1, C2, C3 in *.
      pose proof (stream_lines_fgets _ _ G1) as SL1.
      pose proof (stream_lines_fgets _ _ G2) as SL2.
      split.
      * rewrite SL1, SL2, L. simpl. lia.
      * exists (e1 ++ e2). rewrite SL1, SL2, O2, O1.
        change (length_report (S (stream_lines r1)) (S (stream_lines r2)))
          with (length_report (stream_lines r1) (stream_lines r2)).
        rewrite <- !app_assoc. split; [reflexivity|]. split.
        -- apply Forall_app. split.
           ++ eapply Forall_impl; [|exact F1]. intros d [A B].
              split; auto. exists (S (linenr s)). split; auto. lia.
           ++ eapply Forall_impl; [|exact F2]. intros d (A & n & B & B').
              split; auto. exists n. split; auto. lia.
        -- rewrite differences_app. lia.
    + (* file 2 ended before 1 *)
      pose proof (stream_lines_fgets _ _ G1) as SL1.
      split; simpl; rewrite SL1, R2, stream_lines_nil; simpl.
      * lia.
      * exists []. simpl. repeat split; auto. unfold differences; simpl; lia.
  - cbn [line2 file2].
    change (line2 (set_linenr (S (linenr s)) s)) with (line2 s).
    change (file2 (set_linenr (S (linenr s)) s)) with (file2 s).
    pose proof (fgets_rest (line2 s) (file2 s)) as R2.
    destruct (fgets (line2 s) (file2 s)) as [[b2 r2]|] eqn:G2.
    + (* file 1 ended before 2 *)
      pose proof (stream_lines_fgets _ _ G2) as SL2.
      split; simpl; rewrite SL2, R1, stream_lines_nil; simpl.
      * lia.
      * exists []. simpl. repeat split; auto. unfold differences; simpl; lia.
    + (* both streams at their end *)
      split; simpl; rewrite R1, R2, stream_lines_nil; simpl.
      * lia.
      * exists []. simpl. rewrite app_nil_r. repeat split; auto.
        unfold differences; simpl; lia.
Qed.

End Loops.

(* ------------------------------------------------------------------ *)
(** * Runs without undefined behaviour *)

Section NoFault.

Variable E : Env.

Lemma in_skipn_nth (l : list ascii) (p : nat) :
  In NUL (skipn p l) -> exists c, nth_error l p = Some c.
Proof.
  intros H. destruct (nth_error l p) as [c|] eqn:N; [eauto|].
  apply nth_error_None in N. rewrite skipn_all2 in H by lia. destruct H.
Qed.

Lemma tokendone_defined (s : locals) :
  In NUL (skipn (pos1 s) (line1 s)) ->
  In NUL (skipn (pos2 s) (line2 s)) ->
  tokendone E s <> Undefined.
Proof.
  intros I1 I2. unfold tokendone.
  destruct (@scanspace_total _ I1) as (k1 & w1 & S1 & J1).
  destruct (@scanspace_total _ I2) as (k2 & w2 & S2 & J2).
  rewrite S1, S2. cbv zeta.
  match goal with |- context [if ?b then _ else ?x] =>
    set (s1 := if b then _ else x)
  end.
  assert (F : pos1 s1 = pos1 s /\ pos2 s1 = pos2 s /\
              line1 s1 = line1 s /\ line2 s1 = line2 s /\
              n1 s1 = k1 /\ n2 s1 = k2).
  { subst s1. destruct (negb _); [destruct (negb _)|]; simpl; auto 10. }
  destruct F as (F1 & F2 & F3 & F4 & F5 & F6).
  clearbody s1. simpl. rewrite F1, F2, F3, F4, F5, F6.
  rewrite skipn_skipn in J1, J2.
  destruct (in_skipn_nth _ _ J1) as (c1 & ->).
  destruct (in_skipn_nth _ _ J2) as (c2 & ->).
  destruct (is_nul c1 && is_nul c2); discriminate.
Qed.

Lemma lands_ready (s s' : locals) :
  In NUL (skipn (pos1 s) (line1 s)) ->
  In NUL (skipn (pos2 s) (line2 s)) ->
  lands s s' -> ready s'.
Proof.
  intros I1 I2 (k1 & w1 & k2 & w2 & c1 & c2 & S1 & S2 & [M1 M2 M3 M4] & N1 & N2 & Z).
  destruct (@scanspace_total _ I1) as (k1' & w1' & S1' & J1).
  destruct (@scanspace_total _ I2) as (k2' & w2' & S2' & J2).
  rewrite S1 in S1'. rewrite S2 in S2'.
  injection S1' as <- <-. injection S2' as <- <-.
  rewrite skipn_skipn in J1, J2.
  unfold ready. rewrite M1, M2, M3, M4.
  split; [exact J1|]. split; [exact J2|].
  destruct (@scanspace_stops _ _ _ S1) as (d1 & D1 & P1).
  destruct (@scanspace_stops _ _ _ S2) as (d2 & D2 & P2).
  rewrite nth_error_skipn in D1, D2.
  rewrite N1 in D1. rewrite N2 in D2. injection D1 as <-. injection D2 as <-.
  intros [B1 B2].
  destruct (is_nul c1) eqn:Z1.
  - destruct (is_nul c2) eqn:Z2; [discriminate|].
    exact (@not_blank_at _ _ _ N2 P2 Z2 B2).
  - exact (@not_blank_at _ _ _ N1 P1 Z1 B1).
Qed.


Lemma same_cursor_nul (s t : locals) :
  same_cursor s t ->
  In NUL (skipn (pos1 s) (line1 s)) /\ In NUL (skipn (pos2 s) (line2 s)) ->
  In NUL (skipn (pos1 t) (line1 t)) /\ In NUL (skipn (pos2 t) (line2 t)).
Proof. intros (-> & -> & -> & ->). auto. Qed.

Lemma compare_numbers_defined (s : locals) :
  In NUL (skipn (pos1 s) (line1 s)) ->
  In NUL (skipn (pos2 s) (line2 s)) ->
  compare_numbers E s <> Undefined.
Proof.
  intros I1 I2. unfold compare_numbers. cbv zeta.
  destruct (is_nomatch (sscanf_Lf E (str1 s))); [discriminate|].
  destruct (is_nomatch (sscanf_Lf E (str2 s))); [discriminate|].
  match goal with |- tokendone E (float_report E ?X) <> _ =>
    assert (Q : same_cursor s X)
      by (destruct (negb _), (sscanf_Lf E (str1 s)), (sscanf_Lf E (str2 s));
          repeat split);
    pose proof (float_report_cursor E X) as Q'
  end.
  destruct (same_cursor_nul Q (conj I1 I2)) as [A1 A2].
  destruct (same_cursor_nul Q' (conj A1 A2)) as [B1 B2].
  apply tokendone_defined; assumption.
Qed.

Lemma compare_tokens_defined (read1 read2 : bool) (s : locals) :
  In NUL (skipn (pos1 s) (line1 s)) ->
  In NUL (skipn (pos2 s) (line2 s)) ->
  compare_tokens E read1 read2 s <> Undefined.
Proof.
  intros I1 I2. unfold compare_tokens.
  destruct (negb read1 && read2); [discriminate|].
  destruct (read1 && negb read2); [discriminate|].
  destruct (streq (str1 s) (str2 s)).
  - apply tokendone_defined; assumption.
  - apply compare_numbers_defined; assumption.
Qed.

(** With a terminator in front of both cursors and a token at one of them,
    a pass through the loop body reads inside the buffers, and leaves the
    cursors in such a position again when the loop goes on. *)
Lemma token_iter_ready (s : locals) :
  ready s ->
  token_iter E s <> Undefined /\ continues ready (token_iter E s).
Proof.
  intros (I1 & I2 & NB). unfold token_iter. cbv zeta.
  set (s0 := set_tokennr (S (tokennr s)) s).
  change (pos1 s0) with (pos1 s). change (pos2 s0) with (pos2 s).
  change (line1 s0) with (line1 s). change (line2 s0) with (line2 s).
  destruct (@scan_token_total _ I1) as (t1 & T1 & J1).
  destruct (@scan_token_total _ I2) as (t2 & T2 & J2).
  rewrite T1, T2.
  pose proof (advance_moved t1 t2 s0) as [A1 A2 A3 A4].
  change (pos1 s0) with (pos1 s) in *. change (pos2 s0) with (pos2 s) in *.
  change (line1 s0) with (line1 s) in *. change (line2 s0) with (line2 s) in *.
  change (n1 s0) with (n1 s) in *. change (n2 s0) with (n2 s) in *.
  destruct t1 as [[m1 v1]|], t2 as [[m2 v2]|];
    try (split; [discriminate | exact I]).
  - rewrite skipn_skipn in J1, J2.
    assert (K1 : In NUL (skipn (pos1 (advance (Some (m1, v1)) (Some (m2, v2)) s0))
                           (line1 (advance (Some (m1, v1)) (Some (m2, v2)) s0))))
      by (rewrite A1, A3; exact J1).
    assert (K2 : In NUL (skipn (pos2 (advance (Some (m1, v1)) (Some (m2, v2)) s0))
                           (line2 (advance (Some (m1, v1)) (Some (m2, v2)) s0))))
      by (rewrite A2, A4; exact J2).
    split; [apply compare_tokens_defined; assumption|].
    pose proof (compare_tokens_lands E (converted (Some (m1, v1)))
                  (converted (Some (m2, v2)))
                  (advance (Some (m1, v1)) (Some (m2, v2)) s0)) as L.
    destruct (compare_tokens E _ _ _) as [|s'|]; try exact I.
    cbn [continues] in *. exact (lands_ready K1 K2 L).
  - exfalso. apply NB. split; assumption.
Qed.

Lemma token_loop_no_fault (fuel : nat) (s : locals) :
  ready s -> token_loop E fuel s <> Fault.
Proof.
  revert s. induction fuel as [|fuel IH]; intros s R; [discriminate|].
  simpl. destruct (token_iter_ready R) as [D C].
  destruct (token_iter E s) as [s'|s'|]; [discriminate | | contradiction].
  apply IH. exact C.
Qed.

(** A pair of lines with their terminators, not both blank, is compared
    without a read outside the buffers. *)
Lemma compare_line_no_fault (s : locals) :
  In NUL (line1 s) -> In NUL (line2 s) ->
  ~ (blank_line (line1 s) /\ blank_line (line2 s)) ->
  compare_line E s <> Fault.
Proof.
  intros I1 I2 NB. unfold compare_line.
  destruct (@scanspace_total _ I1) as (k1 & w1 & S1 & J1).
  destruct (@scanspace_total _ I2) as (k2 & w2 & S2 & J2).
  rewrite S1, S2. cbv zeta.
  apply token_loop_no_fault. unfold ready. simpl.
  split; [exact J1|]. split; [exact J2|].
  intros [B1 B2]. apply NB. split.
  - eapply blank_after_spaces; eassumption.
  - eapply blank_after_spaces; eassumption.
Qed.

End NoFault.

(** What [%s] finds does not depend on what follows the terminator. *)
Lemma scan_word_prefix (a t t' : list ascii) :
  scan_word (a ++ NUL :: t) = scan_word (a ++ NUL :: t').
Proof.
  induction a as [|c a IH]; simpl; [reflexivity|].
  destruct (isspace c || is_nul c); [reflexivity|]. rewrite IH. reflexivity.
Qed.

Lemma scan_token_prefix (a t t' : list ascii) :
  scan_token (a ++ NUL :: t) = scan_token (a ++ NUL :: t').
Proof.
  induction a as [|c a IH]; [reflexivity|].
  change ((c :: a) ++ NUL :: t) with (c :: (a ++ NUL :: t)).
  change ((c :: a) ++ NUL :: t') with (c :: (a ++ NUL :: t')).
  cbn [scan_token]. destruct (isspace c); [rewrite IH; reflexivity|].
  destruct (is_nul c); [reflexivity|].
  change (c :: (a ++ NUL :: t)) with ((c :: a) ++ NUL :: t).
  change (c :: (a ++ NUL :: t')) with ((c :: a) ++ NUL :: t').
  rewrite (scan_word_prefix (c :: a) t t'). reflexivity.
Qed.

(** What [fgets] leaves in a buffer, next to what it leaves in an empty
    one. *)
Lemma fgets_line (buf stream b rest : list ascii) :
  fgets buf stream = Some (b, rest) ->
  exists chunk,
    b = chunk ++ NUL :: skipn (S (length chunk)) buf /\
    fgets [] stream = Some (chunk ++ [NUL], rest).
Proof.
  unfold fgets. destruct stream as [|c s]; [discriminate|].
  cbv zeta. intros H. injection H as <- <-.
  eexists. split; reflexivity.
Qed.

Section NoFaultLines.

Variable E : Env.

Lemma line_loop_no_fault (fuel : nat) (s : locals) :
  no_blank_pair fuel (file1 s) (file2 s) -> line_loop E fuel s <> Fault.
Proof.
  revert s. induction fuel as [|fuel IH]; intros s NB; [discriminate|].
  cbn [line_loop no_blank_pair] in *. cbv zeta.
  change (line1 (set_linenr (S (linenr s)) s)) with (line1 s).
  change (file1 (set_linenr (S (linenr s)) s)) with (file1 s).
  destruct (fgets (line1 s) (file1 s)) as [[b1 r1]|] eqn:G1.
  - cbn [line2 file2 set_file1 set_line1 set_linenr].
    destruct (fgets (line2 s) (file2 s)) as [[b2 r2]|] eqn:G2;
      [|discriminate].
    destruct (fgets_line _ _ G1) as (c1 & -> & N1).
    destruct (fgets_line _ _ G2) as (c2 & -> & N2).
    rewrite N1, N2 in NB. destruct NB as [NB1 NB2].
    match goal with |- context [compare_line E ?X] =>
      pose proof (compare_line_extends E X) as C;
      pose proof (@compare_line_no_fault E X) as F;
      destruct (compare_line E X) as [s1| |]; try discriminate
    end.
    + destruct C as [C1 C2 _ _ _ _]. simpl in C1, C2.
      apply IH. rewrite C1, C2. exact NB2.
    + exfalso. apply F; simpl; auto.
      * apply in_or_app. right. left. reflexivity.
      * apply in_or_app. right. left. reflexivity.
      * unfold blank_line in *.
        rewrite (scan_token_prefix c1 _ []), (scan_token_prefix c2 _ []).
        exact NB1.
  - cbn [line2 file2].
    match goal with |- context [fgets ?a ?b] =>
      destruct (fgets a b) as [[? ?]|]
    end; discriminate.
Qed.

(** A comparison of streams in which no two lines read together are both
    blank runs into no undefined behaviour. *)
Lemma compare_streams_no_fault (s1 s2 b1 b2 : list ascii) (x1 x2 : flt) :
  no_blank_pair (S (length s1)) s1 s2 ->
  compare_streams E s1 s2 b1 b2 x1 x2 <> Fault.
Proof.
  intros NB. unfold compare_streams.
  match goal with |- context [line_loop E ?f ?s0] =>
    pose proof (@line_loop_no_fault f s0 NB) as H;
    destruct (line_loop E f s0)
  end; try discriminate. contradiction.
Qed.

End NoFaultLines.

(* ------------------------------------------------------------------ *)
(** * The comparison as a whole *)

Section Comparison.

Variable E : Env.

(** One pass through the body of the token loop either leaves the loop
    (by [break], or by undefined behaviour when a cursor has left its
    buffer), or moves a cursor forward and none back, with both cursors
    still inside their buffers; and the loop stops on the fuel
    [token_fuel], whatever the buffers and the variables hold.  Started
    with a terminator in front of both cursors and a token at one of them,
    it stops by [break]. *)
Lemma token_loop_stops (s : locals) :
  continues (progress s) (token_iter E s) /\
  finishes (fun _ => True) (token_loop E (token_fuel s) s) /\
  (ready s -> returns (token_loop E (token_fuel s) s)).
Proof.
  split; [apply token_iter_progress|].
  assert (R : room s < token_fuel s) by (unfold room, token_fuel; lia).
  pose proof (@token_loop_fuel E (token_fuel s) s R) as H.
  split.
  - destruct (token_loop E (token_fuel s) s); simpl; auto.
  - intros Rd. pose proof (@token_loop_no_fault E (token_fuel s) s Rd) as F.
    destruct (token_loop E (token_fuel s) s) as [s'| |];
      [exists s'; reflexivity | contradiction | contradiction].
Qed.

Lemma summary_fields (s : locals) :
  out (summary s) = out s ++ summary_line s /\
  diff (summary s) = diff s /\ linenr (summary s) = linenr s.
Proof.
  unfold summary, summary_line. destruct (0 <? diff s); simpl; auto.
  rewrite app_nil_r. auto.
Qed.

(** The whole comparison in terms of its streams. *)
Lemma compare_streams_post (s1 s2 b1 b2 : list ascii) (x1 x2 : flt) :
  finishes
    (fun s => exists evs,
       linenr s = S (min (stream_lines s1) (stream_lines s2)) /\
       out s = evs ++ length_report (stream_lines s1) (stream_lines s2)
                        (linenr s) ++ summary_line s /\
       Forall (earlier_line (linenr s)) evs /\
       diff s = differences evs +
                length (length_report (stream_lines s1) (stream_lines s2)
                          (linenr s)))
    (compare_streams E s1 s2 b1 b2 x1 x2).
Proof.
  unfold compare_streams.
  match goal with |- context [line_loop E ?f ?s0] =>
    set (init := s0);
    assert (H : finishes (line_loop_post init) (line_loop E f init))
      by (apply line_loop_spec; simpl; lia);
    destruct (line_loop E f init) as [s| |]; cbn [finishes] in *; auto
  end.
  destruct H as [L (evs & O & F & D)].
  subst init. cbn [linenr out diff file1 file2 app Nat.add] in *.
  destruct (summary_fields s) as (So & Sd & Sl).
  assert (SL : summary_line (summary s) = summary_line s)
    by (unfold summary_line; rewrite Sd, Sl; reflexivity).
  exists evs. rewrite SL, Sl, Sd, So, O.
  repeat split; auto.
  rewrite <- app_assoc. reflexivity.
Qed.

(** Without two blank lines read together, the comparison runs to its
    end. *)
Lemma compare_streams_returns (s1 s2 b1 b2 : list ascii) (x1 x2 : flt) :
  no_blank_lines s1 s2 -> returns (compare_streams E s1 s2 b1 b2 x1 x2).
Proof.
  intros NB.
  pose proof (@compare_streams_no_fault E s1 s2 b1 b2 x1 x2 NB) as F.
  pose proof (compare_streams_post s1 s2 b1 b2 x1 x2) as P.
  destruct (compare_streams E s1 s2 b1 b2 x1 x2) as [s| |];
    [exists s; reflexivity | contradiction | destruct P].
Qed.

(** C5. When the two streams do not have the same number of lines, the
    comparison stops at the line after the last one that both have: its
    last report in front of the summary is the length mismatch for that
    line, naming the shorter stream, and every report in front of it is of
    another kind and about an earlier line.  This is how the comparison
    ends unless a cursor has left its buffer, which does not happen when
    no two lines read together are both blank. *)
Theorem length_mismatch_stops (s1 s2 b1 b2 : list ascii) (x1 x2 : flt) :
  stream_lines s1 <> stream_lines s2 ->
  finishes
    (fun s =>
       let n := S (min (stream_lines s1) (stream_lines s2)) in
       let short :=
         if stream_lines s1 <? stream_lines s2 then File1 else File2 in
       linenr s = n /\
       exists evs,
         out s = evs ++ [FileEnded short n; Found (diff s) (n - 1)] /\
         Forall (earlier_line n) evs)
    (compare_streams E s1 s2 b1 b2 x1 x2) /\
  (no_blank_lines s1 s2 -> returns (compare_streams E s1 s2 b1 b2 x1 x2)).
Proof.
  intros Hne. split; [|apply compare_streams_returns].
  pose proof (compare_streams_post s1 s2 b1 b2 x1 x2) as H.
  destruct (compare_streams E s1 s2 b1 b2 x1 x2) as [s| |];
    cbn [finishes] in *; auto.
  destruct H as (evs & L & O & F & D).
  unfold length_report in *. apply Nat.eqb_neq in Hne. rewrite Hne in *.
  cbn [length] in D.
  assert (P : (0 <? diff s) = true) by (apply Nat.ltb_lt; lia).
  unfold summary_line in O. rewrite P in O. rewrite L in O, F.
  cbv zeta. split; [exact L|]. exists evs. split; [exact O | exact F].
Qed.

End Comparison.

(** The theorem on a submission that lacks the last line of the
    reference: the run ends, with the one report of line 2 and the
    summary. *)
Lemma length_mismatch_stops_witness :
  exists s,
    compare_streams CLib.env one_line two_lines
      CLib.blank CLib.blank NaN NaN = Done s /\
    linenr s = 2 /\
    exists evs,
      out s = evs ++ [FileEnded File1 2; Found (diff s) 1] /\
      Forall (earlier_line 2) evs.
Proof.
  assert (N : stream_lines one_line <> stream_lines two_lines)
    by (vm_compute; discriminate).
  assert (B : no_blank_lines one_line two_lines)
    by (vm_compute; repeat split; intros [A _]; discriminate A).
  destruct (@length_mismatch_stops CLib.env one_line two_lines
              CLib.blank CLib.blank NaN NaN N) as [H R].
  destruct (R B) as [s Hs]. rewrite Hs in H.
  exists s. split; [exact Hs | exact H].
Defined.

(* ------------------------------------------------------------------ *)
(** * The report *)

Section Report.

Variable E : Env.
Variable show_flt : string -> flt -> string.

(** Every report about a line is printed as [line <N>: <description>]. *)
Lemma text_of_line_report (d : diag) (n : nat) :
  diag_line d = Some n ->
  exists rest,
    text show_flt d = ("line " ++ dec3 n ++ ": " ++ rest)%string.
Proof.
  destruct d as [[|] k|k t|k t|[|] k t|k t a b|k t x y ad rd|k t|k t];
    simpl; intros H; try discriminate; injection H as ->;
    eexists; reflexivity.
Qed.

End Report.

(** C9, as stated, fails on two empty streams: the comparison ends without
    a difference and prints nothing, so no summary line with the count 0. *)
Lemma no_summary_without_difference :
  exists s,
    compare_streams CLib.env [] [] CLib.blank CLib.blank NaN NaN = Done s /\
    diff s = 0 /\
    out s = [] /\
    ~ (exists d l, In (Found d l) (out s)).
Proof.
  eexists. split; [vm_compute; reflexivity|]. cbn [diff out].
  repeat split. intros (d & l & []).
Qed.

(* ------------------------------------------------------------------ *)
(** * Options, files and the exit status *)

Section MainFacts.

Variable E : Env.

Lemma compare_streams_stops (s1 s2 b1 b2 : list ascii) (x1 x2 : flt) :
  compare_streams E s1 s2 b1 b2 x1 x2 <> OutOfFuel.
Proof.
  pose proof (compare_streams_post E s1 s2 b1 b2 x1 x2) as H.
  destruct (compare_streams E s1 s2 b1 b2 x1 x2); [discriminate ..|].
  destruct H.
Qed.

(** The outcomes that the option loop can end the program with. *)
Lemma option_loop_exit (calls : list getopt_call) (g : globals) (o : outcome) :
  option_loop E calls g = inl o ->
  o = Crashed \/ exists e g', o = Failed e g' /\ usage_error e = true.
Proof.
  revert g. induction calls as [|c calls IH]; intros g; simpl; [discriminate|].
  destruct (option_case E c g) as [o'|g'] eqn:C; [|apply IH].
  intros H. injection H as <-. revert C. unfold option_case, error.
  repeat match goal with
         | |- context [if ?b then _ else _] => destruct b
         | |- context [match optarg c with _ => _ end] => destruct (optarg c)
         | |- context [let '(_, _) := ?p in _] => destruct p
         end;
    intros H; try discriminate; injection H as <-; eauto.
Qed.

(** A run whose options are accepted, that is not asked for help or the
    version, has its three arguments, not both of them [-], and opens both
    streams, returns 0 from [main] with whatever the comparison found,
    unless it runs into undefined behaviour, which it does not when no two
    lines read together are both blank; and when [main] ends by [return],
    [exit] or [error()], a status other than 0 comes from [error()].  A
    run that ends in undefined behaviour has none of these ends. *)
Lemma status_of_return_and_exit
    (argv : list (list ascii)) (calls : list getopt_call) (optind : nat)
    (fs : list ascii -> option (list ascii)) (stdin b1 b2 : list ascii)
    (x1 x2 : flt) :
  let o := main E argv calls optind fs stdin b1 b2 x1 x2 in
  (forall g stream1 stream2,
     option_loop E calls initial_globals = inr g ->
     show_help g = false ->
     show_version g = false ->
     optind + 3 <= length argv ->
     streq (nth (optind + 1) argv []) dash
       && streq (nth (optind + 2) argv []) dash = false ->
     open (nth (optind + 1) argv []) fs stdin = Some stream1 ->
     open (nth (optind + 2) argv []) fs stdin = Some stream2 ->
     (o = Crashed \/
      exists s,
        compare_streams E stream1 stream2 b1 b2 x1 x2 = Done s /\
        o = Returned 0 g s /\ exit_status E o = Some 0%Z) /\
     (no_blank_lines stream1 stream2 -> o <> Crashed)) /\
  (forall status,
     exit_status E o = Some status -> status <> 0%Z ->
     exists e g, o = Failed e g /\ status = exit_failure E) /\
  o <> Stuck.
Proof.
  cbv zeta. unfold main, error, usage, version. split; [|split].
  - intros g stream1 stream2 HO Hh Hv Ha Hd O1 O2.
    rewrite HO, Hh, Hv, Hd, O1, O2.
    apply Nat.ltb_ge in Ha. rewrite Ha.
    pose proof (@compare_streams_stops stream1 stream2 b1 b2 x1 x2) as N.
    pose proof (@compare_streams_no_fault E stream1 stream2 b1 b2 x1 x2) as F.
    destruct (compare_streams E stream1 stream2 b1 b2 x1 x2) as [s| |].
    + split; [right; exists s; auto | discriminate].
    + split; [left; reflexivity | intros NB _; exact (F NB eq_refl)].
    + contradiction.
  - intros status.
    destruct (option_loop E calls initial_globals) as [o|g] eqn:HO.
    + destruct (option_loop_exit _ _ HO) as [-> | (e & g' & -> & U)];
        simpl; [discriminate|].
      intros H _. injection H as <-. exists e, g'. auto.
    + repeat match goal with
             | |- context [if ?b then _ else _] => destruct b
             | |- context [match open ?n fs stdin with _ => _ end] =>
                 destruct (open n fs stdin)
             | |- context [match compare_streams E ?a ?b ?c ?d ?e ?f with _ => _ end] =>
                 destruct (compare_streams E a b c d e f)
             end; simpl; intros H N; try discriminate;
        try (injection H as <-; contradiction);
        injection H as <-; eexists _, _; repeat split.
  - destruct (option_loop E calls initial_globals) as [o|g] eqn:HO.
    + destruct (option_loop_exit _ _ HO) as [-> | (e & g' & -> & U)];
        discriminate.
    + repeat match goal with
             | |- context [if ?b then _ else _] => destruct b
             | |- context [match open ?n fs stdin with _ => _ end] =>
                 destruct (open n fs stdin)
             end; try discriminate.
      match goal with |- context [compare_streams E ?a ?b ?c ?d ?e ?f] =>
        pose proof (@compare_streams_stops a b c d e f) as N;
        destruct (compare_streams E a b c d e f)
      end; try discriminate. contradiction.
Qed.

Lemma nth_dash_in_range (argv : list (list ascii)) (k : nat) :
  nth k argv [] = dash -> k < length argv.
Proof.
  intros H. destruct (Nat.lt_ge_cases k (length argv)) as [L|L]; [exact L|].
  rewrite nth_overflow in H by exact L. discriminate.
Qed.

(** C7. With [-] for both file arguments: once the options are accepted
    and neither help nor the version is asked for, [main] ends in the call
    [error(0,"both files specified as standard input")]; whatever the
    options, it does not reach the end of [main], and its outcome does not
    depend on the files, on standard input or on the contents of its
    buffers: nothing is read or compared. *)
Theorem both_files_stdin
    (argv : list (list ascii)) (calls : list getopt_call) (optind : nat)
    (fs : list ascii -> option (list ascii)) (stdin b1 b2 : list ascii)
    (x1 x2 : flt) :
  nth (optind + 1) argv [] = dash ->
  nth (optind + 2) argv [] = dash ->
  let o := main E argv calls optind fs stdin b1 b2 x1 x2 in
  (forall g,
     option_loop E calls initial_globals = inr g ->
     show_help g = false -> show_version g = false ->
     o = Failed BothStdin g) /\
  (forall status g s, o <> Returned status g s) /\
  (forall fs' stdin' b1' b2' x1' x2',
     main E argv calls optind fs' stdin' b1' b2' x1' x2' = o).
Proof.
  intros D1 D2. cbv zeta. unfold main, error, usage, version.
  rewrite D1, D2.
  pose proof (nth_dash_in_range _ _ D2) as R.
  assert (A : (length argv <? optind + 3) = false)
    by (apply Nat.ltb_ge; lia).
  rewrite A. change (streq dash dash && streq dash dash) with true.
  split; [|split].
  - intros g HO Hh Hv. rewrite HO, Hh, Hv. reflexivity.
  - intros status g s.
    destruct (option_loop E calls initial_globals) as [o|g'] eqn:HO.
    + destruct (option_loop_exit _ _ HO) as [-> | (e & g'' & -> & U)];
        discriminate.
    + destruct (show_help g'), (show_version g'); discriminate.
  - intros. reflexivity.
Qed.

(** The option loop leaves [alpha] and [probability] alone when no call
    returns ['a'] or ['p']. *)
Lemma option_case_keeps (c : getopt_call) (g : globals) :
  not_a_or_p c ->
  match option_case E c g with
  | inl o => exists g', globals_of o = Some g' /\
                        alpha g' = alpha g /\ probability g' = probability g
  | inr g' => alpha g' = alpha g /\ probability g' = probability g
  end.
Proof.
  intros [Na Np]. unfold option_case, error.
  apply Z.eqb_neq in Na, Np. rewrite Na, Np.
  destruct (flag_set c) as [[|]|], (opt c =? 0)%Z,
    ((opt c =? char_code ":") || (opt c =? char_code "?"))%Z;
    simpl; eauto.
Qed.

Lemma option_loop_keeps (calls : list getopt_call) (g : globals) :
  Forall not_a_or_p calls ->
  match option_loop E calls g with
  | inl o => exists g', globals_of o = Some g' /\
                        alpha g' = alpha g /\ probability g' = probability g
  | inr g' => alpha g' = alpha g /\ probability g' = probability g
  end.
Proof.
  intros F. revert g. induction F as [|c calls Hc F IH]; intros g; simpl; auto.
  pose proof (option_case_keeps g Hc) as K.
  destruct (option_case E c g) as [o|g']; [exact K|].
  destruct K as [Ka Kp]. specialize (IH g'). rewrite Ka, Kp in IH. exact IH.
Qed.

(** C8. When [getopt_long] returns neither ['a'] nor ['p'], the globals
    that the run ends with, however it ends, hold 0.05 in [alpha] and 0.95
    in [probability], the values they were given before the option loop. *)
Theorem default_parameters
    (argv : list (list ascii)) (calls : list getopt_call) (optind : nat)
    (fs : list ascii -> option (list ascii)) (stdin b1 b2 : list ascii)
    (x1 x2 : flt) :
  Forall not_a_or_p calls ->
  alpha initial_globals = Fin (5 # 100) /\
  probability initial_globals = Fin (95 # 100) /\
  match main E argv calls optind fs stdin b1 b2 x1 x2 with
  | Returned _ g _ | Exited _ g | Failed _ g =>
      alpha g = Fin (5 # 100) /\ probability g = Fin (95 # 100)
  | Crashed | Stuck => True
  end.
Proof.
  intros F. split; [reflexivity|]. split; [reflexivity|].
  unfold main, error, usage, version.
  pose proof (option_loop_keeps initial_globals F) as K.
  destruct (option_loop E calls initial_globals) as [o|g].
  - destruct K as (g' & G & Ka & Kp).
    destruct o; simpl in G; try discriminate; injection G as ->; auto.
  - destruct K as [Ka Kp].
    repeat match goal with
           | |- context [if ?b then _ else _] => destruct b
           | |- context [match open ?n fs stdin with _ => _ end] =>
               destruct (open n fs stdin)
           | |- context [match compare_streams E ?a ?b ?c ?d ?e ?f with _ => _ end] =>
               destruct (compare_streams E a b c d e f)
           end; auto.
Qed.

(** C6. An empty value for [-a] is accepted: [strtold] converts nothing,
    leaves [ptr] at the start of the value, where the terminator is, and
    the test of line 162 lets it pass with [alpha] set to zero. *)
Theorem empty_alpha_accepted (g : globals) (c : ascii) :
  strtold E [] = (zero, 0) /\
  rejects [] 0 = false /\
  option_case E (mkCall (char_code "a") (Some []) c None) g =
  inr (mkGlobals zero (probability g) (show_help g) (show_version g)).
Proof.
  assert (S : strtold E [] = (zero, 0)).
  { unfold strtold. simpl.
    destruct (strtold_subject E []) as [[v k]|]; [|reflexivity].
    destruct k; reflexivity. }
  split; [exact S|]. split; [reflexivity|].
  unfold option_case, error. simpl. rewrite S. reflexivity.
Qed.

End MainFacts.

(* ------------------------------------------------------------------ *)
(** * A value inside its interval *)

Lemma token_loop_unfold (E : Env) (fuel : nat) (s : locals) :
  token_loop E (S fuel) s =
  match token_iter E s with
  | Undefined => Fault
  | Break s' => Done s'
  | Continue s' => token_loop E fuel s'
  end.
Proof. reflexivity. Qed.

Ltac reported_done :=
  cbn; split; [lia |];
  eexists; split; [rewrite <- ?app_assoc; reflexivity | simpl; tauto].

(** One pass through the token loop, computed on a state whose buffers
    are known up to the characters that matter. *)
Ltac token_pass :=
  rewrite token_loop_unfold;
  match goal with |- context [token_iter ?E ?s] =>
    let t := eval lazy -[compare_numbers tokendone length app] in (token_iter E s) in
    change (token_iter E s) with t
  end.

Lemma compare_line_interval (E : Env) (s : locals) (t1 t2 : list ascii) :
  line1 s = one_value ++ NUL :: t1 ->
  line2 s = one_interval ++ NUL :: t2 ->
  reported_on s (compare_line E s).
Proof.
  destruct E as [sf st eq iw ap rp ef].
  destruct s as [fa fb ln tn d wd l1 l2 p1 p2 m1 m2 w1 w2 y1 y2 o].
  cbn [line1 line2]. intros -> ->.
  let l := eval cbv in (one_value ++ NUL :: t1) in
  change (one_value ++ NUL :: t1) with l.
  let l := eval cbv in (one_interval ++ NUL :: t2) in
  change (one_interval ++ NUL :: t2) with l.
  match goal with |- reported_on ?s0 (compare_line ?E ?s) =>
    let t := eval lazy -[token_loop length app] in (compare_line E s) in
    change (reported_on s0 t); set (start := s0)
  end.
  token_pass.
  (* the two tokens as numbers *)
  unfold compare_numbers.
  repeat match goal with |- context [sscanf_Lf ?E ?s] =>
    let t := eval lazy in (sscanf_Lf E s) in
    change (sscanf_Lf E s) with t
  end.
  destruct (sf _) as [v1|]; destruct (sf _) as [v2|];
    cbn [is_nomatch is_converted andb negb];
    try (subst start; reported_done).
  unfold float_report. cbn [f1 f2 set_f1 set_f2 equal].
  (* the white space after them, and the second pass *)
  destruct (eq v1 v2), iw; cbn [negb];
    match goal with |- context [tokendone ?E ?s] =>
      let t := eval lazy -[length app flt_gt fabsl fsub fdiv isfinite] in (tokendone E s) in
      change (tokendone E s) with t
    end;
    cbn [length Nat.add]; cbv iota;
    token_pass; subst start; reported_done.
Qed.

Lemma line_loop_eof (E : Env) (fuel : nat) (s : locals) :
  file1 s = [] -> file2 s = [] ->
  line_loop E (S fuel) s = Done (set_linenr (S (linenr s)) s).
Proof.
  intros A B. cbn [line_loop]. cbv zeta.
  change (file1 (set_linenr (S (linenr s)) s)) with (file1 s).
  rewrite A. cbn [fgets].
  change (file2 (set_linenr (S (linenr s)) s)) with (file2 s).
  rewrite B. reflexivity.
Qed.

(** C2. The loops read one token from each line at a time: on the
    submission [1.00] against the reference interval [0.90 1.10] the
    comparison pairs [1.00] with [0.90], never forms an interval, and ends
    with a positive [diff], having reported that file 1 misses its second
    token or that a token cannot be parsed. *)
Theorem interval_is_compared_token_by_token
    (E : Env) (b1 b2 : list ascii) (x1 x2 : flt) :
  match compare_streams E one_value one_interval b1 b2 x1 x2 with
  | Done s =>
      0 < diff s /\
      exists evs,
        out s = evs ++ [Found (diff s) 1] /\
        (In (MissesToken 1 2) evs \/
         In (CannotParse File1 1 1) evs \/
         In (CannotParse File2 1 1) evs)
  | Fault | OutOfFuel => False
  end.
Proof.
  unfold compare_streams.
  match goal with |- context [line_loop E _ ?s0] => set (start := s0) end.
  set (s1 := set_file2 []
               (set_line2 (one_interval ++ NUL :: skipn 11 b2)
                  (set_file1 []
                     (set_line1 (one_value ++ NUL :: skipn 6 b1)
                        (set_linenr 1 start))))).
  assert (H1 : line_loop E (S (length one_value)) start =
               match compare_line E s1 with
               | Done s' => line_loop E (length one_value) s'
               | Fault => Fault
               | OutOfFuel => OutOfFuel
               end) by reflexivity.
  rewrite H1. clear H1.
  pose proof (@compare_line_interval E s1 (skipn 6 b1) (skipn 11 b2)
                eq_refl eq_refl) as R.
  pose proof (compare_line_extends E s1) as X.
  destruct (compare_line E s1) as [s'| |]; cbn [reported_on finishes] in *;
    try contradiction.
  destruct R as (D & evs & O & I).
  destruct X as [F1 F2 L _ _ _].
  change (length one_value) with 5.
  rewrite line_loop_eof by assumption.
  unfold summary. cbn [diff set_linenr linenr out].
  replace (0 <? diff s') with true by (symmetry; apply Nat.ltb_lt; lia).
  cbn [diff out print set_out set_linenr linenr]. split; [lia|].
  exists evs. rewrite O, L. cbn [Nat.sub]. split; [reflexivity | exact I].
Qed.

(** With the conversions and the tolerances of [CLib.env]: the two
    numbers differ, the white space after them differs, and file 1 has no
    second token. *)
Example interval_reports :
  option_map out
    (match compare_streams CLib.env one_value one_interval
             CLib.blank CLib.blank NaN NaN with
     | Done s => Some s
     | _ => None
     end) =
  Some [FloatDiffers 1 1 (Fin (100 # 100)) (Fin (90 # 100))
          (Some (Fin (1000 # 10000))) (Some (Fin (100000 # 900000)));
        WsMismatch 1 1; MissesToken 1 2; Found 2 1].
Proof. vm_compute. reflexivity. Qed.

(* ------------------------------------------------------------------ *)
(** * The theorems on a command line *)

Lemma both_files_stdin_witness :
  main CLib.env argv_both_stdin [] 1 two_files [] CLib.blank CLib.blank NaN NaN
  = Failed BothStdin initial_globals.
Proof.
  destruct (@both_files_stdin CLib.env argv_both_stdin [] 1 two_files []
              CLib.blank CLib.blank NaN NaN eq_refl eq_refl) as [H _].
  apply H; reflexivity.
Defined.

Lemma default_parameters_witness :
  match main CLib.env argv_two_files [] 1 two_files []
          CLib.blank CLib.blank NaN NaN with
  | Returned _ g _ | Exited _ g | Failed _ g =>
      alpha g = Fin (5 # 100) /\ probability g = Fin (95 # 100)
  | Crashed | Stuck => True
  end.
Proof.
  apply (@default_parameters CLib.env argv_two_files [] 1 two_files []
           CLib.blank CLib.blank NaN NaN).
  constructor.
Defined.

(** [check_estimation x out ref] on the files [1.00] and [0.90 1.10]: two
    differences are found and reported, and [main] returns 0. *)
Example exit_zero_with_differences :
  match main CLib.env argv_two_files [] 1 two_files []
          CLib.blank CLib.blank NaN NaN with
  | Returned status _ s => status = 0%Z /\ diff s = 2
  | _ => False
  end.
Proof. vm_compute. split; reflexivity. Qed.

(** The text that this run prints, with a stand-in for the conversions of
    [long double]. *)
Example text_of_run :
  match main CLib.env argv_two_files [] 1 two_files []
          CLib.blank CLib.blank NaN NaN with
  | Returned _ _ s =>
      map (text (fun _ _ => "<flt>"%string)) (skipn 1 (out s)) =
      [("line   1: whitespace mismatch after 1-th token." ++ eol)%string;
       ("line   1: file 1 misses 2-th token." ++ eol)%string;
       ("Found 2 differences in 1 lines" ++ eol)%string]
  | _ => False
  end.
Proof. vm_compute. reflexivity. Qed.

(* ------------------------------------------------------------------ *)
(** * Further properties *)

(** The lemmas below name all their arguments. *)
Unset Implicit Arguments.

(* ------------------------------------------------------------------ *)
(** * More on [should_accept] *)

Lemma Qleb_le (a b : Q) : Qleb a b = true <-> (a <= b)%Q.
Proof. unfold Qleb, Qle. apply Z.leb_le. Qed.

Lemma Qltb_lt (a b : Q) : Qltb a b = true <-> (a < b)%Q.
Proof. unfold Qltb, Qlt. apply Z.ltb_lt. Qed.

(** [<=] and [<] chain, also with infinities; a NaN makes a premise
    false. *)
Lemma flt_le_lt_trans (x y z : flt) :
  flt_le x y = true -> flt_lt y z = true -> flt_lt x z = true.
Proof.
  destruct x as [a| | |], y as [b| | |], z as [c| | |]; simpl;
    try discriminate; try reflexivity.
  rewrite Qleb_le, !Qltb_lt. apply Qle_lt_trans.
Qed.

(** X1. The comparison in the body of [should_accept] accepts a value
    against itself (a number, an infinity or NaN), whatever the
    relative tolerance is, unless the absolute tolerance is negative. *)
Theorem should_accept_same (x tol_abs tol_rel successes cases : flt) :
  flt_lt tol_abs zero = false ->
  should_accept x x tol_abs tol_rel successes cases = true.
Proof.
  intros H. destruct x as [q| | |]; try reflexivity.
  unfold should_accept. cbn [isfinite andb]. cbv zeta.
  rewrite absdiff_finite.
  replace (flt_gt (Fin (Qabs (q - q))) tol_abs) with false; [reflexivity|].
  symmetry. unfold flt_gt. destruct tol_abs as [p| | |]; try reflexivity;
    try discriminate.
  simpl in *. unfold Qltb in *. apply Z.ltb_ge. apply Z.ltb_ge in H.
  destruct q as [n d]. cbn in *. nia.
Qed.

(** Three halves against itself, with a relative tolerance of minus
    infinity. *)
Lemma should_accept_same_witness :
  should_accept (Fin (3 # 2)) (Fin (3 # 2)) zero NInf zero zero = true.
Proof. apply (@should_accept_same (Fin (3 # 2)) zero NInf zero zero). reflexivity. Defined.

(** X2. Raising the tolerances never turns a pair that is accepted into
    one that is rejected. *)
Theorem should_accept_monotone
    (x y tol_abs tol_rel tol_abs' tol_rel' successes cases : flt) :
  flt_le tol_abs tol_abs' = true ->
  flt_le tol_rel tol_rel' = true ->
  should_accept x y tol_abs tol_rel successes cases = true ->
  should_accept x y tol_abs' tol_rel' successes cases = true.
Proof.
  intros Ha Hr. unfold should_accept.
  destruct (isfinite x && isfinite y); [|auto].
  cbv zeta. rewrite !negb_true_iff, !andb_false_iff.
  intros [H|H]; [left|right].
  - destruct (flt_gt _ tol_abs') eqn:G; [|reflexivity].
    unfold flt_gt in *. rewrite (flt_le_lt_trans _ _ _ Ha G) in H. discriminate.
  - destruct (flt_gt _ tol_rel') eqn:G; [|reflexivity].
    unfold flt_gt in *. rewrite (flt_le_lt_trans _ _ _ Hr G) in H. discriminate.
Qed.


(* ---------- scanspace ---------- *)

(* ------------------------------------------------------------------ *)
(** * [should_accept] in rounded arithmetic *)

(** Rounding gives a number or an infinity. *)
Lemma round_not_nan (fmt : Rounded.format) (q : Q) :
  isnan (Rounded.round fmt q) = false.
Proof.
  unfold Rounded.round.
  destruct (Qnum q); [reflexivity| |];
    destruct (Rounded.round_pos fmt _ _); reflexivity.
Qed.

(** The difference of two finite values is a number or an infinity. *)
Lemma rounded_absdiff_not_nan (fmt : Rounded.format) (a b : Q) :
  isnan (fabsl (Rounded.fsub fmt (Fin a) (Fin b))) = false.
Proof. apply fabsl_not_nan. apply round_not_nan. Qed.

(** The relative difference of two finite values is NaN only for 0/0:
    then the absolute difference is zero. *)
Lemma rounded_reldiff_nan (fmt : Rounded.format) (a b : Q) (tol : flt) :
  isnan (fabsl (Rounded.fdiv fmt (Rounded.fsub fmt (Fin a) (Fin b)) (Fin b)))
    = true ->
  flt_le zero tol = true ->
  flt_le (fabsl (Rounded.fsub fmt (Fin a) (Fin b))) tol = true.
Proof.
  cbn [Rounded.fsub].
  pose proof (round_not_nan fmt (a - b)) as N.
  destruct (Rounded.round fmt (a - b)) as [d| | |]; try discriminate.
  - cbn [Rounded.fdiv]. destruct (Qzero b).
    + destruct (Qzero d) eqn:Z.
      * intros _ H. cbn [fabsl]. apply zero_within; assumption.
      * destruct (Qltb d 0); discriminate.
    + intros H. rewrite fabsl_not_nan in H by apply round_not_nan.
      discriminate.
  - cbn [Rounded.fdiv]. destruct (Qltb b 0); discriminate.
  - cbn [Rounded.fdiv]. destruct (Qltb b 0); discriminate.
Qed.

(** C3, amended. With an absolute tolerance that is a number not below
    zero and a relative tolerance that is not NaN, the comparison in the
    body of [should_accept] answers: for two finite values, whether the
    absolute difference, as the machine computes it, is at most the
    absolute tolerance or the relative difference, as the machine computes
    it, is at most the relative tolerance; for two NaNs, yes; for two
    infinities, whether their signs agree; for values of different classes,
    no.  This holds in every binary format. *)
Theorem should_accept_by_class
    (fmt : Rounded.format) (x y tol_abs tol_rel successes cases : flt) :
  flt_le zero tol_abs = true ->
  isnan tol_rel = false ->
  let r := Rounded.should_accept fmt x y tol_abs tol_rel successes cases in
  let absdiff := fabsl (Rounded.fsub fmt x y) in
  let reldiff := fabsl (Rounded.fdiv fmt (Rounded.fsub fmt x y) y) in
  (isfinite x = true -> isfinite y = true ->
     r = flt_le absdiff tol_abs || flt_le reldiff tol_rel) /\
  (isnan x = true -> isnan y = true -> r = true) /\
  (isinf x = true -> isinf y = true -> r = same_infinity x y) /\
  (isfinite x && isfinite y = false ->
   isnan x && isnan y = false ->
   isinf x && isinf y = false -> r = false).
Proof.
  intros H0 Hr r absdiff reldiff. subst r absdiff reldiff.
  unfold Rounded.should_accept.
  pose proof (flt_le_zero_number _ H0) as Ha.
  repeat split.
  - intros Hx Hy. rewrite Hx, Hy. cbn [andb].
    destruct x as [a| | |]; try discriminate.
    destruct y as [b| | |]; try discriminate.
    rewrite (flt_gt_not_le _ tol_abs (rounded_absdiff_not_nan fmt a b) Ha).
    destruct (isnan (fabsl (Rounded.fdiv fmt
                (Rounded.fsub fmt (Fin a) (Fin b)) (Fin b)))) eqn:Hn.
    + rewrite (rounded_reldiff_nan fmt a b tol_abs Hn H0).
      reflexivity.
    + rewrite (flt_gt_not_le _ tol_rel Hn Hr).
      rewrite negb_andb, !negb_involutive. reflexivity.
  - intros Hx Hy. destruct x; try discriminate. destruct y; try discriminate.
    reflexivity.
  - intros Hx Hy. destruct x; try discriminate; destruct y; try discriminate;
      reflexivity.
  - intros H2 H3 H4. rewrite H2, H3, H4. reflexivity.
Qed.

(** The theorem on the x86, at 8 against 7 with the relative tolerance
    [(long double)1/7]: the relative difference, rounded, is that
    tolerance, and the values are equal. *)
Lemma should_accept_by_class_witness :
  Rounded.should_accept Rounded.x87 (Fin 8) (Fin 7) zero one_seventh
                        zero zero = true.
Proof.
  destruct (should_accept_by_class Rounded.x87 (Fin 8) (Fin 7)
              zero one_seventh zero zero eq_refl eq_refl) as [H _].
  rewrite (H eq_refl eq_refl). vm_compute. reflexivity.
Defined.

(** C3, as stated, fails for a tolerance that is NaN: 1 and 2 are found
    equal although neither difference is within its tolerance.  It fails
    also when the differences are taken exactly: 8 and 7 are found equal
    under the relative tolerance [(long double)1/7], which is below 1/7,
    and the largest power of two and its negative are found unequal under
    the relative tolerance 3, their difference being an infinity for the
    machine. *)
Lemma tolerance_nan_and_rounding :
  (Rounded.should_accept Rounded.x87 (Fin 1) (Fin 2) NaN zero zero zero
     = true /\
   flt_le (fabsl (Rounded.fsub Rounded.x87 (Fin 1) (Fin 2))) NaN
   || flt_le (fabsl (Rounded.fdiv Rounded.x87
                       (Rounded.fsub Rounded.x87 (Fin 1) (Fin 2)) (Fin 2)))
             zero = false) /\
  (Rounded.should_accept Rounded.x87 (Fin 8) (Fin 7) zero one_seventh
                         zero zero = true /\
   flt_le (fabsl (fsub (Fin 8) (Fin 7))) zero
   || flt_le (fabsl (fdiv (fsub (Fin 8) (Fin 7)) (Fin 7))) one_seventh
     = false) /\
  (Rounded.should_accept Rounded.x87 (Fin two_to_16383)
                         (Fin (- two_to_16383)) zero (Fin 3) zero zero
     = false /\
   flt_le (fabsl (fsub (Fin two_to_16383) (Fin (- two_to_16383)))) zero
   || flt_le (fabsl (fdiv (fsub (Fin two_to_16383) (Fin (- two_to_16383)))
                          (Fin (- two_to_16383)))) (Fin 3)
     = true).
Proof. vm_compute. repeat split. Qed.

(* ------------------------------------------------------------------ *)
(** * [scanspace] *)

(** X4. On a buffer that holds a character that is no white space,
    [scanspace] returns the number of white-space characters at the head of
    the buffer and stores exactly those characters: the scan stops on the
    first character that is no white space, in particular at the
    terminator. *)
Theorem scanspace_leading_space (str : list ascii) (c0 : ascii) :
  In c0 str -> isspace c0 = false ->
  exists pos res c,
    scanspace str = Some (pos, res) /\
    res = firstn pos str /\
    length res = pos /\
    Forall (fun x => isspace x = true) res /\
    nth_error str pos = Some c /\ isspace c = false.
Proof.
  induction str as [|x str IH]; intros Hin Hc; [destruct Hin|].
  simpl. destruct (isspace x) eqn:Hx.
  - destruct Hin as [->|Hin]; [congruence|].
    destruct (IH Hin Hc) as (pos & res & c & Sc & F & L & A & N & C).
    rewrite Sc. exists (S pos), (x :: res), c. simpl.
    repeat split; auto. congruence.
  - exists 0, [], x. simpl. repeat split; auto.
Qed.

(** A space and a tab in front of [a]. *)
Lemma scanspace_leading_space_witness :
  exists pos res c,
    scanspace [" "; "009"; "a"; " "; NUL]%char = Some (pos, res) /\
    res = firstn pos [" "; "009"; "a"; " "; NUL]%char /\
    length res = pos /\
    Forall (fun x => isspace x = true) res /\
    nth_error [" "; "009"; "a"; " "; NUL]%char pos = Some c /\
    isspace c = false.
Proof.
  apply (@scanspace_leading_space [" "; "009"; "a"; " "; NUL]%char "a"%char).
  - simpl. auto.
  - reflexivity.
Defined.

(* ---------- options ---------- *)

(* ------------------------------------------------------------------ *)
(** * More on the options *)

Section OptionValues.
Variable E : Env.

Lemma drop_spaces_length (s : list ascii) : length (drop_spaces s) <= length s.
Proof.
  induction s as [|c s IH]; simpl; [lia|].
  destruct (isspace c); simpl; lia.
Qed.

(** [strtold] leaves [ptr] inside the string or on its terminator. *)
Lemma strtold_offset (arg : list ascii) : snd (strtold E arg) <= length arg.
Proof.
  unfold strtold. pose proof (drop_spaces_length arg) as L.
  destruct (strtold_subject E (drop_spaces arg)) as [[v k]|]; [|simpl; lia].
  destruct ((1 <=? k) && (k <=? length (drop_spaces arg))) eqn:B; simpl; [|lia].
  apply andb_true_iff in B. destruct B as [_ B]. apply Nat.leb_le in B. lia.
Qed.

(** The character under [ptr] is the terminator only at the end of the
    string. *)
Lemma rejects_short (arg : list ascii) (ptr : nat) :
  ~ In NUL arg -> ptr <= length arg ->
  rejects arg ptr = negb (ptr =? length arg).
Proof.
  intros Hn Hp. unfold rejects. rewrite orb_false_r. f_equal.
  destruct (Nat.eqb_spec ptr (length arg)) as [->|Hne].
  - rewrite app_nth2, Nat.sub_diag by lia. reflexivity.
  - rewrite app_nth1 by lia. unfold is_nul.
    apply Ascii.eqb_neq. intros H. apply Hn. rewrite <- H.
    apply nth_In. lia.
Qed.

(** X5. The argument of [-a] or [-p], a string [arg], is accepted exactly
    when [strtold] has consumed all of it.  The value is then stored in
    [alpha] (for [-a]) or [probability] (for [-p]) and the other variable
    keeps its value; no range is checked.  Otherwise [error()] is called
    with the message of that option. *)
Theorem option_value_whole (c : getopt_call) (g : globals) (arg : list ascii) :
  opt c = char_code "a"%char \/ opt c = char_code "p"%char ->
  optarg c = Some arg ->
  ~ In NUL arg ->
  ((exists g', option_case E c g = inr g') <->
   snd (strtold E arg) = length arg) /\
  (forall g', option_case E c g = inr g' ->
     (opt c = char_code "a"%char ->
        alpha g' = fst (strtold E arg) /\ probability g' = probability g) /\
     (opt c = char_code "p"%char ->
        probability g' = fst (strtold E arg) /\ alpha g' = alpha g)) /\
  (forall o, option_case E c g = inl o ->
     exists g',
       o = Failed (if (opt c =? char_code "a"%char)%Z
                   then BadAlpha else BadProbability) g').
Proof.
  intros Hc Ha Hn. unfold option_case, error. rewrite Ha.
  pose proof (strtold_offset arg) as Hp.
  destruct (strtold E arg) as [v ptr] eqn:S. simpl in Hp. cbn [fst snd].
  rewrite (@rejects_short arg ptr Hn Hp).
  match goal with |- context [inr ?x] => is_var g; set (g0 := x) end.
  assert (G : alpha g0 = alpha g /\ probability g0 = probability g)
    by (subst g0; destruct (flag_set c) as [[|]|]; auto).
  destruct G as [G1 G2]. clearbody g0.
  destruct Hc as [Hc|Hc]; rewrite Hc;
    change (char_code "a" =? 0)%Z with false;
    change (char_code "p" =? 0)%Z with false;
    change (char_code "p" =? char_code "a")%Z with false;
    change (char_code "a" =? char_code "a")%Z with true;
    change (char_code "p" =? char_code "p")%Z with true;
    cbv iota;
    destruct (Nat.eqb_spec ptr (length arg)) as [P|P]; cbn [negb];
    repeat split; try (intros [g' H]; discriminate H); eauto;
    try (intros g' H; injection H as <-; cbn; auto);
    try (intros o H; injection H as <-; eauto);
    try discriminate; try congruence;
    try (injection H as <-; cbn; auto); eauto.
Qed.

End OptionValues.

Section OptionFlags.
Variable E : Env.

(** A flag that is set stays set. *)
Lemma option_case_flags (c : getopt_call) (g g' : globals) :
  option_case E c g = inr g' ->
  (show_help g = true \/ flag_set c = Some ShowHelp -> show_help g' = true) /\
  (show_version g = true \/ flag_set c = Some ShowVersion ->
   show_version g' = true).
Proof.
  unfold option_case, error.
  match goal with |- context [inr ?x] => is_var g; set (g0 := x) end.
  assert (G : (show_help g = true \/ flag_set c = Some ShowHelp ->
               show_help g0 = true) /\
              (show_version g = true \/ flag_set c = Some ShowVersion ->
               show_version g0 = true)).
  { subst g0. destruct (flag_set c) as [[|]|]; simpl;
      split; intros [H|H]; auto; discriminate. }
  clearbody g0.
  destruct (opt c =? 0)%Z; [intros H; injection H as <-; exact G|].
  destruct (opt c =? char_code "a")%Z.
  { destruct (optarg c) as [arg|]; [|discriminate].
    destruct (strtold E arg) as [v ptr]. destruct (rejects arg ptr);
      [discriminate|]. intros H; injection H as <-. exact G. }
  destruct (opt c =? char_code "p")%Z.
  { destruct (optarg c) as [arg|]; [|discriminate].
    destruct (strtold E arg) as [v ptr]. destruct (rejects arg ptr);
      [discriminate|]. intros H; injection H as <-. exact G. }
  destruct (_ || _); discriminate.
Qed.

Lemma option_loop_flags (calls : list getopt_call) (g g' : globals) :
  option_loop E calls g = inr g' ->
  (show_help g = true \/ Exists (sets_flag ShowHelp) calls ->
   show_help g' = true) /\
  (show_version g = true \/ Exists (sets_flag ShowVersion) calls ->
   show_version g' = true).
Proof.
  revert g. induction calls as [|c calls IH]; intros g; simpl.
  - intros H; injection H as <-.
    split; intros [H|H]; auto; inversion H.
  - destruct (option_case E c g) as [o|g1] eqn:C; [discriminate|].
    intros L. apply option_case_flags in C as [F1 F2].
    apply IH in L as [I1 I2].
    split; intros [H|H].
    + apply I1. left. apply F1. auto.
    + inversion H; subst.
      * apply I1. left. apply F1. auto.
      * apply I1. auto.
    + apply I2. left. apply F2. auto.
    + inversion H; subst.
      * apply I2. left. apply F2. auto.
      * apply I2. auto.
Qed.

(** X6. When the option loop ends without an error and [--help] or
    [--version] was among the options, [main] exits with status 0:
    neither the number of arguments nor the files matter, and nothing is
    compared. *)
Theorem help_or_version_exits
    (argv : list (list ascii)) (calls : list getopt_call) (optind : nat)
    (fs : list ascii -> option (list ascii)) (stdin b1 b2 : list ascii)
    (x1 x2 : flt) (g : globals) :
  option_loop E calls initial_globals = inr g ->
  Exists (sets_flag ShowHelp) calls \/ Exists (sets_flag ShowVersion) calls ->
  main E argv calls optind fs stdin b1 b2 x1 x2 = Exited 0 g.
Proof.
  intros L H. unfold main. rewrite L.
  apply option_loop_flags in L as [F1 F2].
  unfold usage, version.
  destruct H as [H|H].
  - rewrite F1 by auto. reflexivity.
  - rewrite F2 by auto. destruct (show_help g); reflexivity.
Qed.

End OptionFlags.

Section Arguments.
Variable E : Env.

(** X18. After an option loop without an error, and without [--help] and
    [--version]: [error()] is called for too few arguments exactly when
    [argc < optind + 3]; for standard input given twice exactly when there
    are enough arguments and both names are [-]; and for a file that
    cannot be opened exactly when there are enough arguments and the name
    is that of file 1, which is not [-] and cannot be opened, or that of
    file 2, which is not [-] and cannot be opened while file 1 can. *)
Theorem argument_errors
    (argv : list (list ascii)) (calls : list getopt_call) (optind : nat)
    (fs : list ascii -> option (list ascii)) (stdin b1 b2 : list ascii)
    (x1 x2 : flt) (g : globals) :
  option_loop E calls initial_globals = inr g ->
  show_help g = false -> show_version g = false ->
  let o := main E argv calls optind fs stdin b1 b2 x1 x2 in
  let name1 := nth (optind + 1) argv [] in
  let name2 := nth (optind + 2) argv [] in
  (o = Failed NotEnoughArguments g <-> length argv < optind + 3) /\
  (o = Failed BothStdin g <->
   optind + 3 <= length argv /\
   streq name1 dash = true /\ streq name2 dash = true) /\
  (forall name,
     o = Failed (CannotOpen name) g <->
     optind + 3 <= length argv /\
     ((name = name1 /\ streq name1 dash = false /\ fs name1 = None) \/
      (name = name2 /\ streq name2 dash = false /\ fs name2 = None /\
       open name1 fs stdin <> None))).
Proof.
  intros L H V o name1 name2. subst o. unfold main, error.
  rewrite L, H, V. fold name1 name2. unfold open.
  destruct (Nat.ltb_spec (length argv) (optind + 3)) as [A|A];
    [|destruct (streq name1 dash) eqn:D1, (streq name2 dash) eqn:D2;
      cbn [andb];
      try (destruct (fs name1) as [st1|] eqn:F1);
      try (destruct (fs name2) as [st2|] eqn:F2);
      try match goal with |- context [compare_streams E ?a ?b ?c ?d ?e ?f] =>
        destruct (compare_streams E a b c d e f)
      end];
    repeat match goal with
    | |- _ /\ _ => split
    | |- _ <-> _ => split
    | |- forall _, _ => intro
    | B : _ /\ _ |- _ => destruct B
    | B : _ \/ _ |- _ => destruct B
    end;
    try discriminate; try lia; try congruence; auto;
    try (left; repeat split; auto; congruence);
    try (right; repeat split; auto; congruence).
Qed.

End Arguments.

(** ** The short option [-p] *)

Section ShortOption.
Variable E : Env.

(** C4. The short option [-p]: the option string ["a:p"] gives it no
    argument, so [getopt_long] returns ['p'] with a null [optarg], which
    line 166 passes to [strtold].  Whatever the other answers of
    [getopt_long], the command line and the files, the run ends there in
    undefined behaviour: by no [return], [exit] or [error()], and so with
    no exit status that the program sets. *)
Theorem short_probability_option_crashes
    (argv : list (list ascii)) (c : ascii) (flag : option flag_var)
    (calls : list getopt_call) (optind : nat)
    (fs : list ascii -> option (list ascii)) (stdin b1 b2 : list ascii)
    (x1 x2 : flt) :
  let o := main E argv (mkCall (char_code "p") None c flag :: calls)
                optind fs stdin b1 b2 x1 x2 in
  option_case E (mkCall (char_code "p") None c flag) initial_globals
    = inl Crashed /\
  o = Crashed /\
  exit_status E o = None /\
  (forall e g, o <> Failed e g).
Proof.
  cbv zeta.
  assert (C : option_case E (mkCall (char_code "p") None c flag)
                initial_globals = inl Crashed)
    by (destruct flag as [[|]|]; reflexivity).
  assert (M : main E argv (mkCall (char_code "p") None c flag :: calls)
                optind fs stdin b1 b2 x1 x2 = Crashed)
    by (unfold main; cbn [option_loop]; rewrite C; reflexivity).
  rewrite M. repeat split; auto. intros e g. discriminate.
Qed.

End ShortOption.

(** [check_estimation -p 0.9 x out ref] on two files that are equal. *)
Example short_p_on_equal_files :
  main CLib.env argv_short_p [call_short_p] 2
       (fun _ => Some one_value) [] CLib.blank CLib.blank NaN NaN = Crashed.
Proof. reflexivity. Qed.

(* ------------------------------------------------------------------ *)
(** * Streams of equal and of different lengths *)

Section Lengths.
Variable E : Env.

Lemma earlier_line_kind (n : nat) (d : diag) :
  earlier_line n d -> is_length_mismatch d = false /\ is_summary d = false.
Proof.
  intros [A (k & B & _)]. split; auto. destruct d; try reflexivity.
  discriminate.
Qed.

(** X7. Streams of as many lines: the line loop stops after the last
    pair of lines, and no report says that a file ended before the
    other. *)
Theorem equal_lengths_no_mismatch (s1 s2 b1 b2 : list ascii) (x1 x2 : flt) :
  stream_lines s1 = stream_lines s2 ->
  finishes
    (fun s => linenr s = S (stream_lines s1) /\
              Forall (fun d => is_length_mismatch d = false) (out s))
    (compare_streams E s1 s2 b1 b2 x1 x2) /\
  (no_blank_lines s1 s2 -> returns (compare_streams E s1 s2 b1 b2 x1 x2)).
Proof.
  intros H. split; [|apply compare_streams_returns].
  pose proof (compare_streams_post E s1 s2 b1 b2 x1 x2) as P.
  destruct (compare_streams E s1 s2 b1 b2 x1 x2) as [s| |]; simpl in *; auto.
  destruct P as (evs & L & O & F & D).
  rewrite <- H, Nat.min_id in L. split; [exact L|].
  rewrite O. unfold length_report. rewrite <- H, Nat.eqb_refl. simpl.
  apply Forall_app. split.
  - eapply Forall_impl; [|exact F]. intros d Hd.
    apply earlier_line_kind in Hd. tauto.
  - unfold summary_line. destruct (0 <? diff s); repeat constructor.
Qed.

(** X8. A summary line, when there is one, gives the final value of
    [diff], which is positive, and as the number of lines that of the
    shorter stream: the line at which a stream was found to have ended is
    not counted. *)
Theorem summary_counts_short_file (s1 s2 b1 b2 : list ascii) (x1 x2 : flt) :
  finishes
    (fun s => forall d l,
       In (Found d l) (out s) ->
       d = diff s /\ 0 < d /\
       l = min (stream_lines s1) (stream_lines s2))
    (compare_streams E s1 s2 b1 b2 x1 x2) /\
  (no_blank_lines s1 s2 -> returns (compare_streams E s1 s2 b1 b2 x1 x2)).
Proof.
  split; [|apply compare_streams_returns].
  pose proof (compare_streams_post E s1 s2 b1 b2 x1 x2) as P.
  destruct (compare_streams E s1 s2 b1 b2 x1 x2) as [s| |]; simpl in *; auto.
  destruct P as (evs & L & O & F & D).
  intros d l Hin. rewrite O in Hin.
  apply in_app_or in Hin. destruct Hin as [Hin|Hin].
  { rewrite Forall_forall in F. apply F in Hin.
    apply earlier_line_kind in Hin. destruct Hin; discriminate. }
  apply in_app_or in Hin. destruct Hin as [Hin|Hin].
  { unfold length_report in Hin.
    destruct (_ =? _); simpl in Hin; [tauto|].
    destruct Hin as [Hin|[]]; discriminate. }
  unfold summary_line in Hin. destruct (0 <? diff s) eqn:Z; [|destruct Hin].
  destruct Hin as [Hin|[]]. injection Hin as <- <-.
  apply Nat.ltb_lt in Z. rewrite L. simpl. repeat split; auto. lia.
Qed.

End Lengths.

(* ------------------------------------------------------------------ *)
(** * Blank lines *)

(** After the white space of a blank line comes its terminator. *)
Lemma blank_skip_spaces (s : list ascii) (k : nat) (w : list ascii) :
  scanspace s = Some (k, w) -> blank_line s -> blank_line (skipn k s).
Proof.
  unfold blank_line. revert k w.
  induction s as [|c s IH]; intros k w; simpl; [discriminate|].
  destruct (isspace c) eqn:Hc.
  - destruct (scanspace s) as [[k' w']|]; [|discriminate].
    intros H; injection H as <- <-. simpl.
    destruct (scan_token s) as [[[n t]|]|]; try discriminate.
    intros _. eapply IH; eauto.
  - intros H; injection H as <- <-. simpl. rewrite Hc. auto.
Qed.

(** What [scanspace] stores is white space: [%Lf] finds the end of the
    input in it. *)
Lemma scanspace_spaces (s : list ascii) (k : nat) (w : list ascii) :
  scanspace s = Some (k, w) -> drop_spaces w = [].
Proof.
  revert k w. induction s as [|c s IH]; intros k w; simpl; [discriminate|].
  destruct (isspace c) eqn:Hc.
  - destruct (scanspace s) as [[k' w']|]; [|discriminate].
    intros H; injection H as <- <-. simpl. rewrite Hc. eauto.
  - intros H; injection H as <- <-. reflexivity.
Qed.

Section BlankLines.
Variable E : Env.

(** With a cursor outside its buffer, [tokendone] reads outside it. *)
Lemma tokendone_off_buffer (s : locals) :
  length (line1 s) <= pos1 s \/ length (line2 s) <= pos2 s ->
  tokendone E s = Undefined.
Proof.
  intros H. unfold tokendone.
  destruct H as [H|H].
  - rewrite (skipn_all2 (line1 s) H). reflexivity.
  - rewrite (skipn_all2 (line2 s) H).
    destruct (scanspace (skipn (pos1 s) (line1 s))) as [[k1 w1]|]; reflexivity.
Qed.

(** Two blank lines: [%s] stores nothing, so the cursors move by the
    counts that the leading [scanspace] calls left in [n1] and [n2], to
    twice the length of the white space.  When that is outside a buffer,
    [tokendone] reads outside it. *)
Lemma compare_line_overrun (s : locals) (k1 k2 : nat) (w1 w2 : list ascii) :
  scanspace (line1 s) = Some (k1, w1) ->
  scanspace (line2 s) = Some (k2, w2) ->
  blank_line (line1 s) -> blank_line (line2 s) ->
  length (line1 s) <= 2 * k1 \/ length (line2 s) <= 2 * k2 ->
  compare_line E s = Fault.
Proof.
  destruct s as [fi1 fi2 ln tn df wd l1 l2 p1 p2 m1 m2 st1 st2 v1 v2 o].
  cbn [line1 line2]. intros S1 S2 B1 B2 H.
  pose proof (blank_skip_spaces _ _ _ S1 B1) as T1.
  pose proof (blank_skip_spaces _ _ _ S2 B2) as T2.
  unfold blank_line in T1, T2.
  unfold compare_line. cbn [line1 line2]. rewrite S1, S2.
  cbn -[token_loop token_fuel].
  unfold token_fuel. rewrite token_loop_unfold.
  unfold token_iter. cbn -[scan_token skipn compare_tokens advance].
  rewrite T1, T2. cbn [converted].
  unfold compare_tokens, advance.
  cbn -[streq tokendone compare_numbers Nat.add].
  destruct (streq w1 w2).
  - rewrite tokendone_off_buffer; [reflexivity|]. simpl. lia.
  - unfold compare_numbers.
    cbn -[tokendone float_report sscanf_Lf Nat.add].
    unfold sscanf_Lf.
    rewrite (scanspace_spaces _ _ _ S1), (scanspace_spaces _ _ _ S2).
    cbn -[tokendone float_report Nat.add].
    rewrite tokendone_off_buffer; [reflexivity|].
    match goal with |- context [float_report E ?X] =>
      destruct (float_report_cursor E X) as (P1 & P2 & L1 & L2)
    end.
    rewrite P1, P2, L1, L2. simpl. lia.
Qed.

(** X9. A blank line against a line with a token: the first pass
    reports that file 1 misses its first token (or, the other way round,
    has an excess first token), counts one difference, and ends the work on
    the line. *)
Theorem blank_line_against_text (s : locals) :
  In NUL (line1 s) -> In NUL (line2 s) ->
  (blank_line (line1 s) -> ~ blank_line (line2 s) ->
   exists s', compare_line E s = Done s' /\
              out s' = out s ++ [MissesToken (linenr s) 1] /\
              diff s' = S (diff s)) /\
  (~ blank_line (line1 s) -> blank_line (line2 s) ->
   exists s', compare_line E s = Done s' /\
              out s' = out s ++ [ExcessToken (linenr s) 1] /\
              diff s' = S (diff s)).
Proof.
  destruct s as [fi1 fi2 ln tn df wd l1 l2 p1 p2 m1 m2 st1 st2 v1 v2 o].
  cbn [line1 line2 out diff linenr]. intros N1 N2.
  destruct (@scanspace_total _ N1) as (k1 & w1 & S1 & M1).
  destruct (@scanspace_total _ N2) as (k2 & w2 & S2 & M2).
  destruct (@scan_token_total _ M1) as (t1 & T1 & _).
  destruct (@scan_token_total _ M2) as (t2 & T2 & _).
  unfold compare_line. cbn [line1 line2]. rewrite S1, S2.
  cbn -[token_loop token_fuel].
  unfold token_fuel. rewrite token_loop_unfold.
  unfold token_iter. cbn -[scan_token skipn compare_tokens advance].
  rewrite T1, T2.
  split; intros B1 B2.
  - pose proof (blank_skip_spaces _ _ _ S1 B1) as U1. unfold blank_line in U1.
    rewrite T1 in U1. injection U1 as ->.
    destruct t2 as [[n2 u2]|];
      [|exfalso; apply B2; eapply blank_after_spaces; eauto].
    eexists. split; [reflexivity|]. split; reflexivity.
  - pose proof (blank_skip_spaces _ _ _ S2 B2) as U2. unfold blank_line in U2.
    rewrite T2 in U2. injection U2 as ->.
    destruct t1 as [[n1 u1]|];
      [|exfalso; apply B1; eapply blank_after_spaces; eauto].
    eexists. split; [reflexivity|]. split; reflexivity.
Qed.

End BlankLines.

(* ------------------------------------------------------------------ *)
(** * A stream against itself *)

Lemma streq_refl (a : list ascii) : streq a a = true.
Proof.
  induction a as [|c a IH]; simpl; [reflexivity|].
  rewrite Ascii.eqb_refl. exact IH.
Qed.

Lemma scanspace_prefix (a t t' : list ascii) :
  scanspace (a ++ NUL :: t) = scanspace (a ++ NUL :: t').
Proof.
  induction a as [|c a IH]; simpl; [reflexivity|].
  destruct (isspace c); [|reflexivity]. rewrite IH. reflexivity.
Qed.

(** [scanspace] and [%s] stop at the terminator at the latest. *)
Lemma scanspace_before_nul (a t : list ascii) :
  exists k w, scanspace (a ++ NUL :: t) = Some (k, w) /\ k <= length a.
Proof.
  induction a as [|c a IH]; simpl.
  - exists 0, []. split; [reflexivity|lia].
  - destruct (isspace c).
    + destruct IH as (k & w & -> & L). exists (S k), (c :: w).
      split; [reflexivity|lia].
    + exists 0, []. split; [reflexivity|lia].
Qed.

Lemma scan_word_before_nul (a t : list ascii) (n : nat) (w : list ascii) :
  scan_word (a ++ NUL :: t) = Some (n, w) -> n <= length a.
Proof.
  revert n w. induction a as [|c a IH]; intros n w; simpl.
  - intros H; injection H as <- <-. lia.
  - destruct (isspace c || is_nul c).
    + intros H; injection H as <- <-. lia.
    + destruct (scan_word (a ++ NUL :: t)) as [[n' w']|]; [|discriminate].
      intros H; injection H as <- <-. specialize (IH _ _ eq_refl). lia.
Qed.

Lemma scan_token_before_nul (a t : list ascii) (n : nat) (w : list ascii) :
  scan_token (a ++ NUL :: t) = Some (Some (n, w)) -> n <= length a.
Proof.
  revert n w. induction a as [|c a IH]; intros n w.
  - simpl. discriminate.
  - change ((c :: a) ++ NUL :: t) with (c :: (a ++ NUL :: t)).
    cbn [scan_token]. destruct (isspace c).
    + destruct (scan_token (a ++ NUL :: t)) as [[[n' w']|]|];
        try discriminate.
      intros H; injection H as <- <-. specialize (IH _ _ eq_refl). simpl. lia.
    + destruct (is_nul c); [discriminate|].
      change (c :: (a ++ NUL :: t)) with ((c :: a) ++ NUL :: t).
      destruct (scan_word ((c :: a) ++ NUL :: t)) as [[n' w']|] eqn:W;
        [|discriminate].
      intros H; injection H as <- <-.
      apply scan_word_before_nul in W. exact W.
Qed.

Lemma skipn_app_le (A : Type) (n : nat) (a b : list A) :
  n <= length a -> skipn n (a ++ b) = skipn n a ++ b.
Proof.
  intros H. rewrite skipn_app.
  replace (n - length a) with 0 by lia. reflexivity.
Qed.

Section Same.
Variable E : Env.

Lemma tokendone_same (s : locals) :
  same_ahead s -> quiet_pass s (tokendone E s).
Proof.
  intros (rest & t1 & t2 & A1 & A2).
  unfold tokendone. rewrite A1, A2.
  destruct (scanspace_before_nul rest t1) as (k & w & S1 & L).
  rewrite (scanspace_prefix rest t2 t1), S1. cbv zeta.
  set (X := set_str2 w (set_n2 k (set_str1 w (set_n1 k s)))).
  change (str1 X) with w. change (str2 X) with w.
  rewrite streq_refl. cbn [negb].
  assert (F : pos1 X = pos1 s /\ pos2 X = pos2 s /\
              line1 X = line1 s /\ line2 X = line2 s /\
              n1 X = k /\ n2 X = k /\
              out X = out s /\ diff X = diff s /\ wsdiff X = wsdiff s)
    by (subst X; simpl; auto 12).
  destruct F as (F1 & F2 & F3 & F4 & F5 & F6 & F7 & F8 & F9).
  clearbody X. simpl. rewrite F1, F2, F3, F4, F5, F6.
  assert (N : forall (l : list ascii) p t,
             skipn p l = rest ++ NUL :: t ->
             nth_error l (p + k) = nth_error (skipn k rest ++ NUL :: t) 0).
  { intros l p t A. rewrite <- nth_error_skipn, A.
    rewrite <- (skipn_app_le _ k rest (NUL :: t) L).
    rewrite nth_error_skipn, Nat.add_0_r. reflexivity. }
  rewrite (N _ _ _ A1), (N _ _ _ A2).
  assert (K : forall (l : list ascii) p t,
             skipn p l = rest ++ NUL :: t ->
             skipn (p + k) l = skipn k rest ++ NUL :: t).
  { intros l p t A. rewrite <- skipn_skipn, A. apply skipn_app_le. exact L. }
  destruct (skipn k rest) as [|c rest'] eqn:R; simpl.
  - unfold quiet. simpl. auto.
  - destruct (is_nul c) eqn:Hc; simpl; [unfold quiet; simpl; auto|].
    split; [unfold quiet; simpl; auto|]. split.
    + exists (c :: rest'), t1, t2. simpl.
      rewrite ?F1, ?F2, ?F3, ?F4, ?F5, ?F6.
      rewrite (K _ _ _ A1), (K _ _ _ A2). auto.
    + simpl. rewrite ?F1, ?F3, ?F5.
      apply (@not_blank_at (line1 s) (pos1 s + k) c); auto.
      * rewrite (N _ _ _ A1). reflexivity.
      * destruct (@scanspace_stops _ _ _ S1) as (c' & Hc' & Sp).
        rewrite <- (Nat.add_0_r k), <- nth_error_skipn in Hc'.
        rewrite (skipn_app_le _ k rest (NUL :: t1) L), R in Hc'.
        simpl in Hc'. congruence.
Qed.

Lemma token_iter_same (s : locals) :
  same_ahead s -> ~ blank_line (skipn (pos1 s) (line1 s)) ->
  quiet_pass s (token_iter E s).
Proof.
  destruct s as [fi1 fi2 ln tn df wd l1 l2 p1 p2 m1 m2 st1 st2 v1 v2 o].
  unfold same_ahead. cbn [pos1 pos2 line1 line2].
  intros (rest & t1 & t2 & A1 & A2) NB.
  unfold token_iter. cbn -[scan_token skipn compare_tokens advance].
  unfold blank_line in NB. rewrite A1 in NB. rewrite A1, A2.
  rewrite (scan_token_prefix rest t2 t1).
  assert (T : In NUL (rest ++ NUL :: t1))
    by (apply in_or_app; right; left; reflexivity).
  destruct (@scan_token_total _ T) as (t & St & _). rewrite St.
  destruct t as [[n w]|]; [|congruence].
  pose proof (scan_token_before_nul _ _ _ _ St) as L.
  unfold compare_tokens, advance.
  cbn -[streq tokendone compare_numbers Nat.add].
  rewrite streq_refl.
  match goal with |- quiet_pass _ (tokendone E ?X) =>
    pose proof (tokendone_same X) as D
  end.
  match type of D with ?P -> _ => assert (H : P) end.
  { exists (skipn n rest), t1, t2. cbn -[skipn Nat.add].
    rewrite <- !skipn_skipn, A1, A2.
    rewrite !skipn_app_le by exact L. auto. }
  specialize (D H).
  destruct (tokendone E _) as [s'|s'|]; simpl in *; auto.
Qed.

Lemma token_loop_same (fuel : nat) (s : locals) :
  room s < fuel ->
  same_ahead s -> ~ blank_line (skipn (pos1 s) (line1 s)) ->
  exists s', token_loop E fuel s = Done s' /\ quiet s s' /\
             file1 s' = file1 s /\ file2 s' = file2 s /\
             linenr s' = linenr s.
Proof.
  revert s. induction fuel as [|fuel IH]; intros s Hr SA NB; [lia|].
  rewrite token_loop_unfold.
  pose proof (token_iter_same s SA NB) as Q.
  pose proof (token_iter_progress E s) as P.
  pose proof (token_iter_extends E s) as X.
  destruct (token_iter E s) as [s'|s'|]; simpl in Q, P, X; [| |contradiction].
  - exists s'. destruct X as [X1 X2 X3 _ _ _]. auto.
  - destruct Q as (Q & SA' & NB').
    apply progress_room in P.
    destruct (IH s' ltac:(lia) SA' NB') as (s2 & L & Q2 & F1 & F2 & F3).
    exists s2. destruct X as [X1 X2 X3 _ _ _].
    unfold quiet in *. intuition congruence.
Qed.

Lemma compare_line_same (s : locals) (chunk t1 t2 : list ascii) :
  line1 s = chunk ++ NUL :: t1 ->
  line2 s = chunk ++ NUL :: t2 ->
  ~ blank_line (chunk ++ [NUL]) ->
  exists s', compare_line E s = Done s' /\ quiet s s' /\
             file1 s' = file1 s /\ file2 s' = file2 s /\
             linenr s' = linenr s.
Proof.
  destruct s as [fi1 fi2 ln tn df wd l1 l2 p1 p2 m1 m2 st1 st2 v1 v2 o].
  cbn [line1 line2 file1 file2 linenr]. intros -> -> NB.
  unfold compare_line. cbn [line1 line2].
  destruct (scanspace_before_nul chunk t1) as (k & w & S1 & L).
  rewrite (scanspace_prefix chunk t2 t1), S1.
  cbn -[token_loop token_fuel].
  match goal with |- context [token_loop E (token_fuel ?X) ?X] =>
    destruct (token_loop_same (token_fuel X) X) as (s' & R & Q & F)
  end.
  - unfold room, token_fuel. lia.
  - exists (skipn k chunk), t1, t2. cbn -[skipn Nat.add].
    rewrite !skipn_app_le by exact L. auto.
  - cbn -[skipn Nat.add]. intros B. apply NB.
    unfold blank_line. rewrite (scan_token_prefix chunk [] t1).
    eapply blank_after_spaces; eauto.
  - exists s'. split; [exact R|]. split; [|exact F]. exact Q.
Qed.

Lemma line_loop_same (fuel : nat) (s : locals) :
  length (file1 s) < fuel ->
  file2 s = file1 s ->
  no_blank_pair fuel (file1 s) (file1 s) ->
  exists s', line_loop E fuel s = Done s' /\ quiet s s'.
Proof.
  revert s. induction fuel as [|fuel IH]; intros s Hf Eq NB; [lia|].
  cbn [line_loop no_blank_pair] in *. cbv zeta.
  change (line1 (set_linenr (S (linenr s)) s)) with (line1 s).
  change (file1 (set_linenr (S (linenr s)) s)) with (file1 s).
  pose proof (fgets_rest (line1 s) (file1 s)) as R1.
  destruct (fgets (line1 s) (file1 s)) as [[b1 r1]|] eqn:G1.
  - cbn [line2 file2 set_file1 set_line1 set_linenr]. rewrite Eq.
    destruct (fgets (line2 s) (file1 s)) as [[b2 r2]|] eqn:G2.
    + destruct (@fgets_line _ _ _ _ G1) as (c1 & -> & N1).
      destruct (@fgets_line _ _ _ _ G2) as (c2 & -> & N2).
      rewrite N1 in N2. injection N2 as N2 <-.
      apply app_inv_tail in N2. subst c2.
      rewrite N1 in NB. destruct NB as [NB1 NB2].
      match goal with |- context [compare_line E ?X] =>
        destruct (compare_line_same X c1 _ _ eq_refl eq_refl)
          as (s1 & C & Q & F1 & F2 & F3)
      end.
      { tauto. }
      rewrite C. simpl in F1, F2.
      destruct (IH s1) as (s' & L & Q').
      * rewrite F1. destruct R1 as [R1 _]. lia.
      * congruence.
      * rewrite F1. exact NB2.
      * exists s'. split; [exact L|]. unfold quiet in *. simpl in Q.
        intuition congruence.
    + exfalso. unfold fgets in G1, G2.
      destruct (file1 s); discriminate.
  - cbn [line2 file2].
    change (line2 (set_linenr (S (linenr s)) s)) with (line2 s).
    change (file2 (set_linenr (S (linenr s)) s)) with (file2 s).
    rewrite Eq.
    assert (G2 : fgets (line2 s) (file1 s) = None)
      by (unfold fgets in *; destruct (file1 s); [reflexivity|discriminate]).
    rewrite G2. eexists. split; [reflexivity|]. repeat split.
Qed.

(** X10. A stream compared with itself, no line of which is blank: the
    run ends, nothing is printed, and [diff] and [wsdiff] are zero,
    whatever the buffers held before. *)
Theorem same_input_no_report (stream b1 b2 : list ascii) (x1 x2 : flt) :
  no_blank_lines stream stream ->
  exists s, compare_streams E stream stream b1 b2 x1 x2 = Done s /\
            out s = [] /\ diff s = 0 /\ wsdiff s = 0.
Proof.
  intros NB. unfold compare_streams.
  match goal with |- context [line_loop E ?f ?s0] =>
    destruct (line_loop_same f s0) as (s' & L & Q1 & Q2 & Q3)
  end.
  - simpl. lia.
  - reflexivity.
  - exact NB.
  - rewrite L. simpl in Q1, Q2, Q3. exists (summary s').
    split; [reflexivity|]. unfold summary. rewrite Q2. simpl. auto.
Qed.

End Same.

(** White space in front of a string is scanned first. *)
Lemma scanspace_app_spaces (lead r : list ascii) :
  Forall (fun c => isspace c = true) lead ->
  scanspace (lead ++ r) =
  match scanspace r with
  | Some (k, w) => Some (length lead + k, lead ++ w)
  | None => None
  end.
Proof.
  induction lead as [|c lead IH]; intros F; simpl.
  - destruct (scanspace r) as [[k w]|]; reflexivity.
  - inversion F as [|? ? Hc F']; subst. rewrite Hc, (IH F').
    destruct (scanspace r) as [[k w]|]; reflexivity.
Qed.

Lemma skipn_past (A : Type) (a b : list A) (k : nat) :
  skipn (length a + k) (a ++ b) = skipn k b.
Proof.
  induction a as [|x a IH]; simpl; [reflexivity|exact IH].
Qed.

Section Leading.
Variable E : Env.

(** X16. The white space in front of the first token is not compared:
    two lines that differ in nothing but their leading white space, and
    are not blank, are compared without a report, and [diff] and [wsdiff]
    stay as they are. *)
Theorem leading_space_not_compared
    (s : locals) (lead1 lead2 text t1 t2 : list ascii) :
  line1 s = lead1 ++ text ++ NUL :: t1 ->
  line2 s = lead2 ++ text ++ NUL :: t2 ->
  Forall (fun c => isspace c = true) lead1 ->
  Forall (fun c => isspace c = true) lead2 ->
  ~ blank_line (text ++ [NUL]) ->
  exists s', compare_line E s = Done s' /\
             out s' = out s /\ diff s' = diff s /\ wsdiff s' = wsdiff s.
Proof.
  intros L1 L2 F1 F2 NB. unfold compare_line. rewrite L1, L2.
  rewrite (scanspace_app_spaces lead1 _ F1), (scanspace_app_spaces lead2 _ F2).
  destruct (scanspace_before_nul text t1) as (k & w & S1 & L).
  rewrite (scanspace_prefix text t2 t1), S1. cbv zeta.
  match goal with |- context [token_loop E (token_fuel ?X) ?X] =>
    destruct (token_loop_same E (token_fuel X) X) as (s' & R & Q & _)
  end.
  - unfold room, token_fuel. lia.
  - exists (skipn k text), t1, t2. cbn -[skipn Nat.add]. rewrite L1, L2.
    rewrite !skipn_past, !skipn_app_le by exact L. auto.
  - cbn -[skipn Nat.add]. rewrite L1.
    rewrite skipn_past. intros B. apply NB. unfold blank_line.
    rewrite (scan_token_prefix text [] t1).
    eapply blank_after_spaces; eauto.
  - exists s'. split; [exact R|]. exact Q.
Qed.

End Leading.

(* ------------------------------------------------------------------ *)
(** * When no difference is found *)

(** The tokens of a C string depend neither on what follows the
    terminator nor on the fuel, if there is enough of it. *)
Lemma words_prefix (f f' : nat) (a t t' : list ascii) :
  length a < f -> length a < f' ->
  words f (a ++ NUL :: t) = words f' (a ++ NUL :: t').
Proof.
  revert f' a. induction f as [|f IH]; intros f' a H H'; [lia|].
  destruct f' as [|f']; [lia|]. cbn [words].
  rewrite (scan_token_prefix a t t').
  destruct (scan_token (a ++ NUL :: t')) as [[[n w]|]|] eqn:T; try reflexivity.
  pose proof (scan_token_before_nul _ _ _ _ T) as L.
  destruct (@scan_token_consumes _ _ _ T) as [P _].
  rewrite !skipn_app_le by exact L. f_equal.
  apply IH; rewrite length_skipn; lia.
Qed.

Lemma words_fuel (f : nat) (s : list ascii) :
  In NUL s -> length s <= f -> words f s = line_words s.
Proof.
  intros H L. apply in_split in H. destruct H as (a & t & ->).
  unfold line_words. rewrite length_app in *. simpl in *.
  apply words_prefix; lia.
Qed.

(** The tokens of a string whose first token is [w]. *)
Lemma words_token (s : list ascii) (n : nat) (w : list ascii) :
  In NUL s -> scan_token s = Some (Some (n, w)) ->
  line_words s = w :: line_words (skipn n s).
Proof.
  intros H T. apply in_split in H. destruct H as (a & t & ->).
  pose proof (scan_token_before_nul _ _ _ _ T) as L.
  destruct (@scan_token_consumes _ _ _ T) as [P _].
  unfold line_words at 1. rewrite length_app. simpl length.
  rewrite Nat.add_succ_r. cbn [words]. rewrite T. f_equal.
  rewrite skipn_app_le by exact L.
  unfold line_words. rewrite length_app. simpl length.
  apply words_prefix; rewrite length_skipn; lia.
Qed.

Lemma words_none (s : list ascii) :
  scan_token s = Some None -> line_words s = [].
Proof.
  intros T. unfold line_words. destruct s as [|c s]; [reflexivity|].
  simpl length. cbn [words]. rewrite T. reflexivity.
Qed.

Lemma scan_token_spaces (s : list ascii) (k : nat) (x : list ascii) :
  scanspace s = Some (k, x) ->
  scan_token s =
  match scan_token (skipn k s) with
  | Some (Some (n, w)) => Some (Some (k + n, w))
  | r => r
  end.
Proof.
  revert k x. induction s as [|c s IH]; intros k x; [discriminate|].
  cbn [scanspace]. destruct (isspace c) eqn:Hc.
  - destruct (scanspace s) as [[k' x']|] eqn:S; [|discriminate].
    intros H; injection H as <- <-. cbn [scan_token skipn]. rewrite Hc.
    rewrite (IH _ _ eq_refl).
    destruct (scan_token (skipn k' s)) as [[[n w]|]|]; reflexivity.
  - intros H; injection H as <- <-. cbn [skipn].
    destruct (scan_token (c :: s)) as [[[n w]|]|]; reflexivity.
Qed.

(** White space in front does not change the tokens. *)
Lemma words_spaces (s : list ascii) (k : nat) (x : list ascii) :
  In NUL s -> scanspace s = Some (k, x) ->
  line_words (skipn k s) = line_words s.
Proof.
  intros H S.
  destruct (@scanspace_total _ H) as (k' & x' & S' & J).
  rewrite S in S'. injection S' as <- <-.
  pose proof (scan_token_spaces _ _ _ S) as T.
  destruct (@scan_token_total _ J) as (t & Tk & _). rewrite Tk in T.
  destruct t as [[n w]|].
  - rewrite (words_token _ _ _ H T), (words_token _ _ _ J Tk).
    rewrite skipn_skipn. reflexivity.
  - rewrite (words_none _ T), (words_none _ Tk). reflexivity.
Qed.

Lemma scan_token_at_nul (l : list ascii) (p : nat) (c : ascii) :
  nth_error l p = Some c -> is_nul c = true ->
  scan_token (skipn p l) = Some None.
Proof.
  intros N Z. apply Ascii.eqb_eq in Z. subst c.
  apply nth_error_split in N. destruct N as (a & b & -> & <-).
  rewrite skipn_app_le by lia. rewrite skipn_all. reflexivity.
Qed.

Section Verdict.
Variable E : Env.

Lemma tokendone_words (s : locals) :
  In NUL (skipn (pos1 s) (line1 s)) ->
  In NUL (skipn (pos2 s) (line2 s)) ->
  spaces_skipped s (tokendone E s).
Proof.
  destruct s as [fi1 fi2 ln tn df wd l1 l2 p1 p2 m1 m2 st1 st2 v1 v2 o].
  unfold spaces_skipped, words_ahead1, words_ahead2.
  cbn [pos1 pos2 line1 line2 diff]. intros I1 I2.
  destruct (@scanspace_total _ I1) as (k1 & w1 & S1 & J1).
  destruct (@scanspace_total _ I2) as (k2 & w2 & S2 & J2).
  pose proof (words_spaces _ _ _ I1 S1) as W1.
  pose proof (words_spaces _ _ _ I2 S2) as W2.
  rewrite skipn_skipn in J1, J2, W1, W2.
  destruct (@in_skipn_nth _ _ J1) as (c1 & N1).
  destruct (@in_skipn_nth _ _ J2) as (c2 & N2).
  unfold tokendone. cbn [pos1 pos2 line1 line2]. rewrite S1, S2.
  cbn -[nth_error skipn Nat.add line_words streq].
  destruct (streq w1 w2); [|destruct (ignore_ws E)];
    cbn -[nth_error skipn Nat.add line_words];
    rewrite N1, N2;
    (destruct (is_nul c1) eqn:Z1; [destruct (is_nul c2) eqn:Z2|]);
    cbn -[skipn Nat.add line_words];
    try (split; [reflexivity|split; assumption]);
    (split; [reflexivity|]);
    rewrite <- W1, <- W2;
    rewrite (words_none _ (scan_token_at_nul _ _ _ N1 Z1));
    rewrite (words_none _ (scan_token_at_nul _ _ _ N2 Z2)); auto.
Qed.

Lemma tokens_judged_after (w1 w2 : list ascii) (s t : locals) (r : iter) :
  diff s <= diff t ->
  (diff t = diff s <-> token_match E w1 w2 = true) ->
  words_ahead1 t = words_ahead1 s -> words_ahead2 t = words_ahead2 s ->
  spaces_skipped t r -> tokens_judged E w1 w2 s r.
Proof.
  intros D M W1 W2. destruct r as [s'|s'|]; simpl; auto.
  - intros (D' & A1 & A2). rewrite D'. repeat split; try tauto; congruence.
  - intros (D' & A1 & A2). rewrite D'. repeat split; try tauto; congruence.
Qed.

Lemma compare_tokens_verdict (s : locals) :
  In NUL (skipn (pos1 s) (line1 s)) ->
  In NUL (skipn (pos2 s) (line2 s)) ->
  tokens_judged E (str1 s) (str2 s) s (compare_tokens E true true s).
Proof.
  destruct s as [fi1 fi2 ln tn df wd l1 l2 p1 p2 m1 m2 w1 w2 v1 v2 o].
  cbn [pos1 pos2 line1 line2 str1 str2]. intros I1 I2.
  unfold compare_tokens. cbn [negb andb str1 str2].
  assert (J : forall (m : bool) (s t : locals) (r : iter),
            diff s <= diff t ->
            (diff t = diff s <-> m = true) ->
            token_match E w1 w2 = m ->
            words_ahead1 t = words_ahead1 s ->
            words_ahead2 t = words_ahead2 s ->
            spaces_skipped t r -> tokens_judged E w1 w2 s r).
  { intros m s t r D M <-. apply tokens_judged_after; assumption. }
  assert (B : forall s s' : locals,
            diff s' = S (diff s) -> token_match E w1 w2 = false ->
            tokens_judged E w1 w2 s (Break s')).
  { intros s s' D M. simpl. rewrite M, D.
    repeat split; intros; try discriminate; lia. }
  revert J B. unfold token_match.
  destruct (streq w1 w2) eqn:Q; intros J B.
  { eapply (J true); [| |reflexivity| | |apply tokendone_words; assumption];
      try reflexivity. split; reflexivity. }
  cbn [orb] in J, B. revert J B.
  unfold compare_numbers. cbn [str1 str2].
  destruct (sscanf_Lf E w1) as [a| |], (sscanf_Lf E w2) as [b| |];
    intros J B;
    cbn [is_nomatch is_converted andb negb];
    try (apply B; reflexivity);
    unfold float_report;
    cbn -[tokendone];
    match goal with |- context [equal E ?x ?y] =>
      destruct (equal E x y) eqn:Heq
    end;
    cbn -[tokendone];
    (eapply J;
      [ | | try rewrite Heq; reflexivity | | | apply tokendone_words; assumption ];
      [ simpl; lia
      | simpl; split; intros; try discriminate; try lia; auto
      | reflexivity | reflexivity ]).
Qed.


Lemma token_iter_verdict (s : locals) :
  ready s -> pass_judged E s (token_iter E s).
Proof.
  destruct s as [fi1 fi2 ln tn df wd l1 l2 p1 p2 m1 m2 st1 st2 v1 v2 o].
  unfold ready, pass_judged, words_ahead1, words_ahead2.
  cbn [pos1 pos2 line1 line2 diff]. intros (I1 & I2 & NB).
  destruct (@scan_token_total _ I1) as (t1 & T1 & J1).
  destruct (@scan_token_total _ I2) as (t2 & T2 & J2).
  unfold token_iter. cbn -[scan_token skipn compare_tokens advance].
  rewrite T1, T2.
  destruct t1 as [[k1 w1]|], t2 as [[k2 w2]|].
  - rewrite (words_token _ _ _ I1 T1), (words_token _ _ _ I2 T2).
    rewrite skipn_skipn in J1, J2 |- *. rewrite (@skipn_skipn _ l2).
    cbn [converted]. unfold advance.
    cbn -[compare_tokens skipn Nat.add line_words].
    match goal with |- context [compare_tokens E true true ?X] =>
      pose proof (compare_tokens_verdict X J1 J2) as V;
      destruct (compare_tokens E true true X) as [s'|s'|]
    end; [| |contradiction].
    + unfold tokens_judged, words_ahead1, words_ahead2 in V.
      cbn -[skipn Nat.add line_words token_match] in V.
      destruct V as (D & M & W). split; [exact D|].
      cbn [all_match]. split.
      * intros H. destruct (W H) as [-> ->]. apply M in H. rewrite H.
        reflexivity.
      * intros H. apply andb_true_iff in H. apply M. tauto.
    + unfold tokens_judged, words_ahead1, words_ahead2 in V.
      cbn -[skipn Nat.add line_words token_match] in V.
      destruct V as (D & M & W1 & W2). split; [exact D|].
      exists w1, w2. rewrite W1, W2. auto.
  - rewrite (words_token _ _ _ I1 T1), (words_none _ T2).
    simpl. split; [lia|]. split; intros; try discriminate; lia.
  - rewrite (words_none _ T1), (words_token _ _ _ I2 T2).
    simpl. split; [lia|]. split; intros; try discriminate; lia.
  - exfalso. apply NB. split; assumption.
Qed.

Lemma token_loop_verdict (fuel : nat) (s : locals) :
  room s < fuel -> ready s ->
  exists s', token_loop E fuel s = Done s' /\
             diff s <= diff s' /\
             (diff s' = diff s <->
              all_match E (words_ahead1 s) (words_ahead2 s) = true).
Proof.
  revert s. induction fuel as [|fuel IH]; intros s Hr R; [lia|].
  rewrite token_loop_unfold.
  pose proof (token_iter_verdict s R) as V.
  pose proof (token_iter_progress E s) as P.
  destruct (@token_iter_ready E s R) as [_ C].
  destruct (token_iter E s) as [s'|s'|]; simpl in V, P, C; [| |contradiction].
  - exists s'. auto.
  - destruct V as (D & w1 & w2 & W1 & W2 & M).
    apply progress_room in P.
    destruct (IH s' ltac:(lia) C) as (s2 & L & D2 & M2).
    exists s2. split; [exact L|]. split; [lia|].
    rewrite W1, W2. cbn [all_match]. rewrite andb_true_iff.
    rewrite <- M, <- M2. lia.
Qed.

Lemma compare_line_verdict (s : locals) :
  In NUL (line1 s) -> In NUL (line2 s) ->
  ~ (blank_line (line1 s) /\ blank_line (line2 s)) ->
  exists s', compare_line E s = Done s' /\
             diff s <= diff s' /\
             (diff s' = diff s <->
              all_match E (line_words (line1 s)) (line_words (line2 s))
              = true).
Proof.
  destruct s as [fi1 fi2 ln tn df wd l1 l2 p1 p2 m1 m2 st1 st2 v1 v2 o].
  cbn [line1 line2 diff]. intros I1 I2 NB.
  destruct (@scanspace_total _ I1) as (k1 & w1 & S1 & J1).
  destruct (@scanspace_total _ I2) as (k2 & w2 & S2 & J2).
  unfold compare_line. cbn [line1 line2]. rewrite S1, S2.
  cbn -[token_loop token_fuel].
  match goal with |- context [token_loop E (token_fuel ?X) ?X] =>
    destruct (token_loop_verdict (token_fuel X) X) as (s' & L & D & M)
  end.
  - unfold room, token_fuel. lia.
  - unfold ready. cbn -[skipn blank_line].
    split; [exact J1|]. split; [exact J2|].
    intros [B1 B2]. apply NB. split; eapply blank_after_spaces; eassumption.
  - exists s'. split; [exact L|]. split; [exact D|].
    unfold words_ahead1, words_ahead2 in M.
    cbn -[line_words skipn all_match] in M.
    rewrite (words_spaces _ _ _ I1 S1), (words_spaces _ _ _ I2 S2) in M.
    exact M.
Qed.

Lemma line_words_chunk (chunk t : list ascii) :
  line_words (chunk ++ NUL :: t) = line_words (chunk ++ [NUL]).
Proof.
  unfold line_words. apply words_prefix; rewrite length_app; simpl; lia.
Qed.

Lemma line_loop_verdict (fuel : nat) (s : locals) :
  length (file1 s) < fuel ->
  no_blank_pair fuel (file1 s) (file2 s) ->
  exists s', line_loop E fuel s = Done s' /\
             diff s <= diff s' /\
             (diff s' = diff s <->
              streams_match E fuel (file1 s) (file2 s) = true).
Proof.
  revert s. induction fuel as [|fuel IH]; intros s Hf NB; [lia|].
  cbn [line_loop no_blank_pair streams_match] in *. cbv zeta.
  change (line1 (set_linenr (S (linenr s)) s)) with (line1 s).
  change (file1 (set_linenr (S (linenr s)) s)) with (file1 s).
  pose proof (fgets_rest (line1 s) (file1 s)) as R1.
  destruct (fgets (line1 s) (file1 s)) as [[b1 r1]|] eqn:G1.
  - cbn [line2 file2 set_file1 set_line1 set_linenr].
    pose proof (fgets_rest (line2 s) (file2 s)) as R2.
    destruct (fgets (line2 s) (file2 s)) as [[b2 r2]|] eqn:G2.
    + destruct (@fgets_line _ _ _ _ G1) as (c1 & -> & N1).
      destruct (@fgets_line _ _ _ _ G2) as (c2 & -> & N2).
      rewrite N1, N2 in *. destruct NB as [NB1 NB2].
      match goal with |- context [compare_line E ?X] =>
        destruct (compare_line_verdict X) as (s1 & C & D & M);
        [ | | | pose proof (compare_line_extends E X) as X1 ]
      end.
      * simpl. apply in_or_app. right. left. reflexivity.
      * simpl. apply in_or_app. right. left. reflexivity.
      * simpl. unfold blank_line in *.
        rewrite (scan_token_prefix c1 _ []), (scan_token_prefix c2 _ []).
        exact NB1.
      * rewrite C in *. simpl in X1. destruct X1 as [F1 F2 _ _ _ _].
        cbn [line1 line2 set_file2 set_line2 set_file1 set_line1 set_linenr]
          in M.
        rewrite (line_words_chunk c1), (line_words_chunk c2) in M.
        simpl in F1, F2, D, M.
        destruct (IH s1) as (s' & L & D' & M').
        -- rewrite F1. destruct R1 as [R1 _]. lia.
        -- rewrite F1, F2. exact NB2.
        -- exists s'. split; [exact L|]. split; [lia|].
           rewrite andb_true_iff, <- M. rewrite F1, F2 in M'. rewrite <- M'.
           lia.
    + destruct R1 as [_ (b & N1)]. rewrite N1.
      assert (N2 : fgets [] (file2 s) = None) by (rewrite R2; reflexivity).
      rewrite N2. eexists. split; [reflexivity|]. simpl.
      split; [lia|]. split; intros; try discriminate; lia.
  - cbn [line2 file2].
    change (line2 (set_linenr (S (linenr s)) s)) with (line2 s).
    change (file2 (set_linenr (S (linenr s)) s)) with (file2 s).
    assert (N1 : fgets [] (file1 s) = None) by (rewrite R1; reflexivity).
    rewrite N1.
    pose proof (fgets_rest (line2 s) (file2 s)) as R2.
    destruct (fgets (line2 s) (file2 s)) as [[b2 r2]|] eqn:G2.
    + destruct R2 as [_ (b & N2)]. rewrite N2.
      eexists. split; [reflexivity|]. simpl.
      split; [lia|]. split; intros; try discriminate; lia.
    + assert (N2 : fgets [] (file2 s) = None) by (rewrite R2; reflexivity).
      rewrite N2. eexists. split; [reflexivity|]. simpl.
      split; [lia|]. split; reflexivity.
Qed.

Lemma no_differences_ws (evs : list diag) :
  differences evs = 0 ->
  Forall (fun d => is_summary d = false) evs ->
  Forall (fun d => exists n k, d = WsMismatch n k) evs.
Proof.
  unfold differences. induction evs as [|d evs IH]; intros H F; [constructor|].
  inversion F; subst. simpl in H.
  destruct d; simpl in *; try discriminate; constructor; eauto.
Qed.

(** X11. What a run decides.  On two streams with no pair of blank lines
    the run ends, and [diff] is zero at the end exactly when the streams
    have as many lines and, line by line, as many tokens, each token of
    file 1 being the same string as the token of file 2 or both being
    converted by [%Lf] to numbers that [equal] accepts.  With [diff] zero
    the only reports are white-space mismatches; otherwise the output ends
    with the summary. *)
Theorem no_difference_iff_match (s1 s2 b1 b2 : list ascii) (x1 x2 : flt) :
  no_blank_lines s1 s2 ->
  exists s,
    compare_streams E s1 s2 b1 b2 x1 x2 = Done s /\
    (diff s = 0 <-> inputs_match E s1 s2 = true) /\
    (diff s = 0 -> Forall (fun d => exists n k, d = WsMismatch n k) (out s)) /\
    (0 < diff s ->
     exists evs, out s = evs ++ [Found (diff s) (linenr s - 1)]).
Proof.
  intros NB.
  pose proof (compare_streams_post E s1 s2 b1 b2 x1 x2) as P.
  revert P. unfold compare_streams, inputs_match.
  match goal with |- context [line_loop E ?f ?s0] =>
    destruct (line_loop_verdict f s0) as (s' & L & D & M)
  end.
  - simpl. lia.
  - exact NB.
  - rewrite L. intros P. exists (summary s'). split; [reflexivity|].
    simpl in M, P. destruct (summary_fields s') as (O & Df & Ln).
    rewrite Df, Ln in *. split; [exact M|].
    destruct P as (evs & Hl & Ho & F & Dd). split.
    + intros Z. rewrite Ho. unfold summary_line. rewrite Df, Z. simpl.
      rewrite Z in Dd.
      destruct (length_report _ _ _); [|simpl in Dd; lia].
      rewrite !app_nil_r. apply no_differences_ws; [lia|].
      eapply Forall_impl; [|exact F]. intros d [A (k & B & _)].
      destruct d; try reflexivity; discriminate.
    + intros Z. rewrite Ho. unfold summary_line. rewrite Df.
      apply Nat.ltb_lt in Z. rewrite Z. rewrite Ln.
      eexists. rewrite app_assoc. reflexivity.
Qed.

End Verdict.

(* ------------------------------------------------------------------ *)
(** * Order of the reports *)

Lemma pairwise_app (R : diag -> diag -> Prop) (a b : list diag) :
  pairwise R (a ++ b) <->
  pairwise R a /\ pairwise R b /\ Forall (fun x => Forall (R x) b) a.
Proof.
  induction a as [|x a IH]; simpl.
  - intuition.
  - rewrite Forall_app, IH. split.
    + intros ((A & B) & C & D & F). repeat split; auto.
    + intros ((A & B) & C & F). inversion F; subst. repeat split; auto.
Qed.

Lemma pairwise_impl (R R' : diag -> diag -> Prop) (l : list diag) :
  (forall x y, R x y -> R' x y) -> pairwise R l -> pairwise R' l.
Proof.
  intros H. induction l as [|x l IH]; simpl; [auto|].
  intros [A B]. split; [|auto]. eapply Forall_impl; [|exact A]. auto.
Qed.

Section Reports.
Variable E : Env.

Lemma stage_nil (n k lo hi : nat) : stage E n k lo hi [].
Proof. split; [constructor|exact I]. Qed.

Lemma stage_one (n k lo hi : nat) (d : diag) :
  pass_diag E n k lo hi d -> stage E n k lo hi [d].
Proof. intros H. split; [constructor; [exact H|constructor]|]. simpl. auto. Qed.

Lemma stage_app (n k lo mid hi : nat) (e1 e2 : list diag) :
  lo <= mid <= hi ->
  stage E n k lo mid e1 -> stage E n k mid hi e2 ->
  stage E n k lo hi (e1 ++ e2).
Proof.
  intros L [F1 P1] [F2 P2]. split.
  - apply Forall_app. split.
    + eapply Forall_impl; [|exact F1]. unfold pass_diag. intuition lia.
    + eapply Forall_impl; [|exact F2]. unfold pass_diag. intuition lia.
  - apply pairwise_app. split; [exact P1|]. split; [exact P2|].
    rewrite Forall_forall in F1, F2.
    apply Forall_forall; intros x Hx; apply Forall_forall; intros y Hy.
    destruct (F1 x Hx) as (A1 & _ & A3 & A4 & _).
    destruct (F2 y Hy) as (B1 & _ & B3 & B4 & _).
    unfold before, line_nr. rewrite A1, B1, A3, B3. right. split; [auto|].
    right. split; [auto|lia].
Qed.

Lemma adds_trans (s t u : locals) (e1 e2 : list diag) :
  adds s t e1 -> adds t u e2 -> adds s u (e1 ++ e2).
Proof.
  intros (A1 & A2 & A3) (B1 & B2 & B3). unfold adds.
  rewrite B1, A1, app_assoc. repeat split; congruence.
Qed.

(** Reports at places from [lo] to [mid - 1], then the rest of the
    pass. *)
Lemma pass_result_after (lo mid : nat) (s t : locals) (r : iter)
    (e1 : list diag) :
  lo <= mid <= 3 ->
  adds s t e1 -> stage E (linenr s) (tokennr s) lo mid e1 ->
  pass_result E mid t r -> pass_result E lo s r.
Proof.
  intros L A S1. pose proof A as (_ & A2 & A3).
  destruct r as [s'|s'|]; simpl; auto; rewrite A2, A3;
    intros (e2 & B & S2); exists (e1 ++ e2);
    (split; [eapply adds_trans; eassumption|]);
    eapply stage_app; try eassumption; lia.
Qed.

(** Closes [adds s X evs /\ stage ... evs] when [X] is [s] under setters
    and at most one print. *)
Ltac rep_leaf :=
  first
    [ exists []; split;
      [ unfold adds; simpl; rewrite app_nil_r; solve [repeat split]
      | apply stage_nil ]
    | eexists; split;
      [ unfold adds; simpl; solve [repeat split]
      | apply stage_one; unfold pass_diag; simpl;
        repeat split; try lia; intros; congruence ] ].

Lemma tokendone_reports (s : locals) : pass_result E 2 s (tokendone E s).
Proof.
  unfold tokendone.
  destruct (scanspace (skipn (pos1 s) (line1 s))) as [[k1 w1]|]; [|exact I].
  destruct (scanspace (skipn (pos2 s) (line2 s))) as [[k2 w2]|]; [|exact I].
  cbv zeta.
  destruct (negb (streq _ _)); [destruct (ignore_ws E) eqn:Ig|];
    cbn [negb];
    match goal with |- context [nth_error ?l ?p] => destruct (nth_error l p) end;
    try exact I;
    match goal with |- context [nth_error ?l ?p] => destruct (nth_error l p) end;
    try exact I;
    match goal with |- context [if ?b then _ else _] => destruct b end;
    simpl; rep_leaf.
Qed.

Lemma float_report_reports (s : locals) :
  exists evs, adds s (float_report E s) evs /\
              stage E (linenr s) (tokennr s) 1 2 evs.
Proof.
  unfold float_report. destruct (negb _); rep_leaf.
Qed.

Lemma compare_numbers_reports (s : locals) :
  pass_result E 0 s (compare_numbers E s).
Proof.
  unfold compare_numbers. cbv zeta.
  destruct (sscanf_Lf E (str1 s)), (sscanf_Lf E (str2 s));
    cbn [is_nomatch is_converted andb negb];
    try (simpl; rep_leaf; fail);
    match goal with |- pass_result E 0 s (tokendone E (float_report E ?X)) =>
      destruct (float_report_reports X) as (e1 & A1 & S1);
      apply pass_result_after with (mid := 1) (t := X) (e1 :=
        skipn (length (out s)) (out X));
        [ lia
        | unfold adds; simpl; rewrite ?skipn_all, ?app_nil_r,
            ?skipn_app, ?skipn_all, ?Nat.sub_diag; simpl; repeat split
        | simpl; rewrite ?skipn_all, ?skipn_app, ?skipn_all, ?Nat.sub_diag;
          simpl; first [apply stage_nil
                       | apply stage_one; unfold pass_diag; simpl;
                         repeat split; try lia; intros; congruence]
        | apply pass_result_after with (mid := 2) (t := float_report E X)
            (e1 := e1);
          [ lia | exact A1 | exact S1 | apply tokendone_reports ] ]
    end.
Qed.

Lemma compare_tokens_reports (read1 read2 : bool) (s : locals) :
  pass_result E 0 s (compare_tokens E read1 read2 s).
Proof.
  unfold compare_tokens.
  destruct (negb read1 && read2); [simpl; rep_leaf|].
  destruct (read1 && negb read2); [simpl; rep_leaf|].
  destruct (streq (str1 s) (str2 s)).
  - apply pass_result_after with (mid := 2) (t := s) (e1 := []);
      [lia| |apply stage_nil|apply tokendone_reports].
    unfold adds. rewrite app_nil_r. auto.
  - apply compare_numbers_reports.
Qed.

Lemma token_iter_reports (s : locals) : pass_reports E s (token_iter E s).
Proof.
  unfold token_iter. cbv zeta.
  destruct (scan_token _) as [t1|]; [|exact I].
  destruct (scan_token _) as [t2|]; [|exact I].
  match goal with |- pass_reports E s (compare_tokens E ?a ?b ?X) =>
    pose proof (compare_tokens_reports a b X) as R;
    assert (Q : out X = out s /\ linenr X = linenr s /\
                tokennr X = S (tokennr s))
      by (destruct t1 as [[? ?]|], t2 as [[? ?]|]; repeat split);
    destruct Q as (Q1 & Q2 & Q3);
    set (Y := X) in *; clearbody Y;
    destruct (compare_tokens E a b Y) as [s'|s'|]
  end; cbn [pass_reports pass_result] in *; auto;
    rewrite Q2, Q3 in R; destruct R as (evs & (A1 & A2 & A3) & St);
    exists evs; repeat split; try congruence; apply St.
Qed.

Lemma stage_kind (n k hi : nat) (d : diag) :
  hi <= 3 -> pass_diag E n k 0 hi d -> stops_line d = false.
Proof.
  intros H (A & B & C & D & _). destruct d; simpl in *; try reflexivity; lia.
Qed.

(** The reports of the last pass on a line. *)
Lemma line_reports_last (n k : nat) (evs : list diag) :
  stage E n (S k) 0 4 evs -> line_reports E n k evs.
Proof.
  intros [F P]. split; [|split; [exact P|]].
  - eapply Forall_impl; [|exact F]. unfold pass_diag. intuition lia.
  - clear -F P. induction evs as [|d evs IH]; simpl; [exact I|].
    inversion F as [|? ? Fd F']; subst. destruct P as [Pd P'].
    split; [|auto].
    rewrite Forall_forall in *. intros y Hy.
    specialize (Pd y Hy). specialize (F' y Hy).
    destruct Fd as (A1 & A2 & A3 & A4 & _).
    destruct F' as (B1 & _ & B3 & B4 & _).
    unfold before, line_nr in Pd. rewrite A1, B1, A3, B3 in Pd.
    destruct d; simpl in *; try reflexivity; try discriminate; lia.
Qed.

(** The reports of a pass after which the loop goes on, then those of the
    later passes. *)
Lemma line_reports_more (n k : nat) (e1 e2 : list diag) :
  stage E n (S k) 0 3 e1 -> line_reports E n (S k) e2 ->
  line_reports E n k (e1 ++ e2).
Proof.
  intros [F P] (F2 & P2 & Q2). split; [|split].
  - apply Forall_app. split.
    + eapply Forall_impl; [|exact F]. unfold pass_diag. intuition lia.
    + eapply Forall_impl; [|exact F2]. intros d (A & B & C & D).
      repeat split; auto; lia.
  - apply pairwise_app. split; [exact P|]. split; [exact P2|].
    rewrite Forall_forall in F, F2.
    apply Forall_forall; intros x Hx; apply Forall_forall; intros y Hy.
    destruct (F x Hx) as (A1 & _ & A3 & _).
    destruct (F2 y Hy) as (B1 & _ & B3 & _).
    unfold before, line_nr. rewrite A1, B1, A3. right. split; [auto|].
    left. lia.
  - apply pairwise_app. split; [|split; [exact Q2|]].
    + clear -F. induction e1 as [|d e1 IH]; simpl; [exact I|].
      inversion F; subst. split; [|auto].
      apply Forall_forall. intros y _. eapply stage_kind; [|eassumption]. lia.
    + eapply Forall_impl; [|exact F]. intros d Hd.
      apply Forall_forall. intros y _. eapply stage_kind; [|eassumption]. lia.
Qed.

Lemma token_loop_reports (fuel : nat) (s : locals) :
  room s < fuel ->
  finishes
    (fun s' => exists evs,
       out s' = out s ++ evs /\ linenr s' = linenr s /\
       line_reports E (linenr s) (tokennr s) evs)
    (token_loop E fuel s).
Proof.
  revert s. induction fuel as [|fuel IH]; intros s Hr; [lia|].
  rewrite token_loop_unfold.
  pose proof (token_iter_progress E s) as P.
  pose proof (token_iter_reports s) as R.
  destruct (token_iter E s) as [s'|s'|]; simpl in *; auto.
  - destruct R as (evs & O & L & T & St). exists evs.
    split; [exact O|]. split; [exact L|]. apply line_reports_last; exact St.
  - destruct R as (e1 & O & L & T & St).
    apply progress_room in P. specialize (IH s' ltac:(lia)).
    destruct (token_loop E fuel s') as [s2| |]; simpl in *; auto.
    destruct IH as (e2 & O2 & L2 & R2). exists (e1 ++ e2).
    rewrite O2, O, app_assoc. split; [reflexivity|]. split; [congruence|].
    rewrite L, T in R2. apply line_reports_more; assumption.
Qed.

Lemma compare_line_reports (s : locals) :
  finishes
    (fun s' => exists evs,
       out s' = out s ++ evs /\ linenr s' = linenr s /\
       line_reports E (linenr s) 0 evs)
    (compare_line E s).
Proof.
  unfold compare_line.
  destruct (scanspace (line1 s)) as [[k1 w1]|]; [|exact I].
  destruct (scanspace (line2 s)) as [[k2 w2]|]; [|exact I].
  cbv zeta.
  match goal with |- finishes _ (token_loop E (token_fuel ?X) ?X) =>
    pose proof (@token_loop_reports (token_fuel X) X) as H;
    assert (R : room X < token_fuel X) by (unfold room, token_fuel; lia);
    specialize (H R);
    destruct (token_loop E (token_fuel X) X); simpl in *; auto
  end.
Qed.

Lemma run_reports_nil (n : nat) : run_reports E n [].
Proof. repeat split; constructor. Qed.

Lemma run_reports_ended (n : nat) (f : file_id) :
  run_reports E n [FileEnded f (S n)].
Proof.
  repeat split; simpl; auto; repeat constructor; simpl; auto.
Qed.

(** The reports of one line, then those of the later lines. *)
Lemma run_reports_line (n : nat) (e1 e2 : list diag) :
  line_reports E (S n) 0 e1 -> run_reports E (S n) e2 ->
  run_reports E n (e1 ++ e2).
Proof.
  intros (F1 & P1 & Q1) (F2 & P2 & Q2).
  assert (K : forall x y, In x e1 -> In y e2 ->
                diag_line x = Some (S n) /\ S n < line_nr y).
  { rewrite Forall_forall in F1, F2. intros x y Hx Hy.
    destruct (F1 x Hx) as (A & _). destruct (F2 y Hy) as (B & _). auto. }
  split; [|split].
  - apply Forall_app. split.
    + eapply Forall_impl; [|exact F1]. intros d (A & B & C & D).
      unfold line_nr. rewrite A. repeat split; auto.
      destruct d; try reflexivity; discriminate.
    + eapply Forall_impl; [|exact F2]. intros d (A & B & C).
      repeat split; auto; lia.
  - apply pairwise_app. split; [exact P1|]. split; [exact P2|].
    apply Forall_forall; intros x Hx; apply Forall_forall; intros y Hy.
    destruct (K x y Hx Hy) as [A B].
    unfold before. left. unfold line_nr at 1. rewrite A. exact B.
  - apply pairwise_app. split; [|split; [exact Q2|]].
    + eapply pairwise_impl; [|exact Q1]. unfold closes_line.
      intros x y H. congruence.
    + apply Forall_forall; intros x Hx; apply Forall_forall; intros y Hy.
      destruct (K x y Hx Hy) as [A B]. unfold closes_line. intros _.
      unfold line_nr in B. rewrite A. intros C. rewrite C in B. lia.
Qed.

Lemma line_loop_reports (fuel : nat) (s : locals) :
  length (file1 s) < fuel ->
  finishes
    (fun s' => exists evs,
       out s' = out s ++ evs /\ run_reports E (linenr s) evs)
    (line_loop E fuel s).
Proof.
  revert s. induction fuel as [|fuel IH]; intros s Hf; [lia|].
  cbn [line_loop]. cbv zeta.
  change (line1 (set_linenr (S (linenr s)) s)) with (line1 s).
  change (file1 (set_linenr (S (linenr s)) s)) with (file1 s).
  pose proof (fgets_rest (line1 s) (file1 s)) as R1.
  destruct (fgets (line1 s) (file1 s)) as [[b1 r1]|] eqn:G1.
  - cbn [line2 file2 set_file1 set_line1 set_linenr].
    destruct (fgets (line2 s) (file2 s)) as [[b2 r2]|] eqn:G2.
    + match goal with |- context [compare_line E ?X] =>
        pose proof (compare_line_reports X) as C;
        pose proof (compare_line_extends E X) as X1;
        destruct (compare_line E X) as [s1| |]; simpl in C, X1; auto
      end.
      destruct C as (e1 & O1 & L1 & Q1).
      destruct X1 as [F1 _ _ _ _ _]. simpl in F1.
      specialize (IH s1 ltac:(rewrite F1; lia)).
      destruct (line_loop E fuel s1) as [s'| |]; simpl in *; auto.
      destruct IH as (e2 & O2 & Q2). exists (e1 ++ e2).
      rewrite O2, O1, app_assoc. split; [reflexivity|].
      rewrite L1 in Q2. apply run_reports_line; assumption.
    + simpl. eexists. split; [reflexivity|]. apply run_reports_ended.
  - cbn [line2 file2].
    match goal with |- context [fgets ?a ?b] =>
      destruct (fgets a b) as [[? ?]|]
    end; simpl.
    + eexists. split; [reflexivity|]. apply run_reports_ended.
    + exists []. rewrite app_nil_r. split; [reflexivity|].
      apply run_reports_nil.
Qed.

(** The output of a run: reports in the order of lines, none after a
    report followed by [break] on the same line, then the summary. *)
Lemma compare_streams_reports (s1 s2 b1 b2 : list ascii) (x1 x2 : flt) :
  finishes
    (fun s => exists evs,
       out s = evs ++ summary_line s /\ run_reports E 0 evs)
    (compare_streams E s1 s2 b1 b2 x1 x2).
Proof.
  unfold compare_streams.
  match goal with |- context [line_loop E ?f ?s0] =>
    pose proof (@line_loop_reports f s0) as H;
    destruct (line_loop E f s0) as [s'| |]; simpl in *; auto
  end.
  destruct (H ltac:(lia)) as (evs & O & R). exists evs.
  destruct (summary_fields s') as (So & Sd & Sl).
  rewrite So, O. split; [|exact R]. f_equal.
  unfold summary_line. rewrite Sd, Sl. reflexivity.
Qed.

End Reports.

Section Shape.
Variable E : Env.

(** X12. The reports before the summary come in the order of the input:
    every report is about an earlier line than each later report, or about
    the same line and an earlier token, or about the same token and printed
    by an earlier [printf] of the loop body.  So no report is printed
    twice, and a token gets at most one report of each kind. *)
Theorem reports_in_order (s1 s2 b1 b2 : list ascii) (x1 x2 : flt) :
  finishes
    (fun s => exists evs,
       out s = evs ++ summary_line s /\ pairwise before evs)
    (compare_streams E s1 s2 b1 b2 x1 x2) /\
  (no_blank_lines s1 s2 -> returns (compare_streams E s1 s2 b1 b2 x1 x2)).
Proof.
  split; [|apply compare_streams_returns].
  pose proof (compare_streams_reports E s1 s2 b1 b2 x1 x2) as R.
  destruct (compare_streams E s1 s2 b1 b2 x1 x2) as [s| |]; simpl in *; auto.
  destruct R as (evs & O & _ & P & _). eauto.
Qed.

(** X13. After a report of a missing token, an excess token or a token
    that cannot be parsed, nothing more is reported about that line. *)
Theorem nothing_after_break (s1 s2 b1 b2 : list ascii) (x1 x2 : flt) :
  finishes (fun s => pairwise closes_line (out s))
           (compare_streams E s1 s2 b1 b2 x1 x2) /\
  (no_blank_lines s1 s2 -> returns (compare_streams E s1 s2 b1 b2 x1 x2)).
Proof.
  split; [|apply compare_streams_returns].
  pose proof (compare_streams_reports E s1 s2 b1 b2 x1 x2) as R.
  destruct (compare_streams E s1 s2 b1 b2 x1 x2) as [s| |]; simpl in *; auto.
  destruct R as (evs & O & _ & _ & Q). rewrite O.
  apply pairwise_app. split; [exact Q|]. split.
  - unfold summary_line. destruct (0 <? diff s); simpl; auto.
  - apply Forall_forall. intros x _. apply Forall_forall. intros y Hy.
    unfold summary_line in Hy. destruct (0 <? diff s); [|destruct Hy].
    destruct Hy as [<-|[]]. unfold closes_line.
    destruct x; simpl; intros; discriminate.
Qed.

(** X14. With [ignore_ws] set no white-space mismatch is printed. *)
Theorem ignore_ws_silences (s1 s2 b1 b2 : list ascii) (x1 x2 : flt) :
  ignore_ws E = true ->
  finishes (fun s => Forall (fun d => is_ws_report d = false) (out s))
           (compare_streams E s1 s2 b1 b2 x1 x2).
Proof.
  intros Ig.
  pose proof (compare_streams_reports E s1 s2 b1 b2 x1 x2) as R.
  destruct (compare_streams E s1 s2 b1 b2 x1 x2) as [s| |]; simpl in *; auto.
  destruct R as (evs & O & F & _). rewrite O. apply Forall_app. split.
  - eapply Forall_impl; [|exact F]. intros d (_ & _ & H). auto.
  - unfold summary_line. destruct (0 <? diff s); repeat constructor.
Qed.

End Shape.

(* ------------------------------------------------------------------ *)
(** * Uninitialised variables *)

(** With the same text in front of two cursors, both have a terminator
    in front of them, and the same tokens. *)
Lemma same_text_nul (l : list ascii) (p : nat) (l' : list ascii) (p' : nat) :
  same_text l p l' p' -> In NUL (skipn p l) /\ In NUL (skipn p' l').
Proof.
  intros (a & t & t' & -> & ->).
  split; apply in_or_app; right; left; reflexivity.
Qed.

Lemma same_text_blank (l : list ascii) (p : nat) (l' : list ascii) (p' : nat) :
  same_text l p l' p' -> blank_line (skipn p' l') -> blank_line (skipn p l).
Proof.
  intros (a & t & t' & -> & ->). unfold blank_line.
  rewrite (scan_token_prefix a t t'). auto.
Qed.

Lemma same_text_skip (l : list ascii) (p : nat) (l' : list ascii) (p' : nat)
    (a t t' : list ascii) (k : nat) :
  skipn p l = a ++ NUL :: t -> skipn p' l' = a ++ NUL :: t' ->
  k <= length a -> same_text l (p + k) l' (p' + k).
Proof.
  intros A A' L. exists (skipn k a), t, t'.
  rewrite <- !skipn_skipn, A, A', !skipn_app_le by exact L. auto.
Qed.

(** The character that a cursor reaches inside the text. *)
Lemma nth_after (l : list ascii) (p k : nat) (a t : list ascii) :
  skipn p l = a ++ NUL :: t -> k <= length a ->
  nth_error l (p + k) = Some (nth k a NUL).
Proof.
  intros A L. rewrite <- nth_error_skipn, A.
  destruct (Nat.eq_dec k (length a)) as [->|N].
  - rewrite nth_error_app2, Nat.sub_diag, nth_overflow by lia. reflexivity.
  - rewrite nth_error_app1 by lia. apply nth_error_nth'. lia.
Qed.

Lemma agree_ahead_ready (s s' : locals) :
  agree_ahead s s' -> ready s -> ready s'.
Proof.
  intros (A & T1 & T2) (I1 & I2 & NB).
  destruct (same_text_nul _ _ _ _ T1) as [_ J1].
  destruct (same_text_nul _ _ _ _ T2) as [_ J2].
  split; [exact J1|]. split; [exact J2|].
  intros [B1 B2]. apply NB. split.
  - eapply same_text_blank; eauto.
  - eapply same_text_blank; eauto.
Qed.

(** A token holds a character that is no white space. *)
Lemma scan_word_input (s : list ascii) (n : nat) (w : list ascii) :
  scan_token s = Some (Some (n, w)) -> drop_spaces w <> [].
Proof.
  revert n w. induction s as [|c s IH]; intros n w; [discriminate|].
  cbn [scan_token]. destruct (isspace c) eqn:Sp.
  - destruct (scan_token s) as [[[n' w']|]|]; try discriminate.
    intros H; injection H as <- <-. eapply IH. reflexivity.
  - destruct (is_nul c) eqn:Z; [discriminate|].
    cbn [scan_word]. rewrite Sp, Z. cbn [orb].
    destruct (scan_word s) as [[n' w']|]; [|discriminate].
    intros H; injection H as <- <-. simpl. rewrite Sp. discriminate.
Qed.

(** [fgets] on the same stream, into another buffer. *)
Lemma fgets_other (buf stream c r : list ascii) :
  fgets [] stream = Some (c ++ [NUL], r) ->
  fgets buf stream = Some (c ++ NUL :: skipn (S (length c)) buf, r).
Proof.
  unfold fgets. destruct stream as [|x l]; [discriminate|]. cbv zeta.
  generalize (take_line (MAXLINELEN - 1) (x :: l)). intros ch H.
  injection H as H1 H2. apply app_inv_tail in H1. subst. reflexivity.
Qed.

Lemma fgets_end (buf buf' stream : list ascii) :
  fgets buf stream = None -> fgets buf' stream = None.
Proof. unfold fgets. destruct stream; [reflexivity|discriminate]. Qed.

Section TwoRuns.
Variable E : Env.

(** Closes [agree X X'] when [X] and [X'] come from states that agree by
    the same setters and prints. *)
Ltac agree_leaf A :=
  destruct A as [A1 A2 A3 A4 A5 A6 A7 A8 A9 A10 A11 A12 A13];
  constructor; simpl; congruence.

Lemma tokendone_agree (s s' : locals) :
  agree_ahead s s' -> iter_agree (tokendone E s) (tokendone E s').
Proof.
  intros (A & (a1 & t1 & t1' & P1 & P1') & (a2 & t2 & t2' & P2 & P2')).
  unfold tokendone. rewrite P1, P1', P2, P2'.
  destruct (scanspace_before_nul a1 t1) as (k1 & w1 & S1 & L1).
  destruct (scanspace_before_nul a2 t2) as (k2 & w2 & S2 & L2).
  rewrite (scanspace_prefix a1 t1' t1), (scanspace_prefix a2 t2' t2), S1, S2.
  cbv zeta.
  set (X := set_str2 w2 (set_n2 k2 (set_str1 w1 (set_n1 k1 s)))).
  set (X' := set_str2 w2 (set_n2 k2 (set_str1 w1 (set_n1 k1 s')))).
  change (str1 X) with w1. change (str2 X) with w2.
  change (str1 X') with w1. change (str2 X') with w2.
  assert (AX : agree X X') by (subst X X'; agree_leaf A).
  assert (F : pos1 X = pos1 s /\ pos2 X = pos2 s /\
              line1 X = line1 s /\ line2 X = line2 s /\
              n1 X = k1 /\ n2 X = k2 /\
              pos1 X' = pos1 s' /\ pos2 X' = pos2 s' /\
              line1 X' = line1 s' /\ line2 X' = line2 s' /\
              n1 X' = k1 /\ n2 X' = k2)
    by (subst X X'; simpl; auto 15).
  destruct F as (F1 & F2 & F3 & F4 & F5 & F6 & G1 & G2 & G3 & G4 & G5 & G6).
  clearbody X X'.
  match goal with |- iter_agree (match nth_error (line1 ?Z) _ with _ => _ end)
                                (match nth_error (line1 ?Z') _ with _ => _ end) =>
    assert (AZ : agree Z Z');
      [ destruct (negb (streq w1 w2)); [destruct (negb (ignore_ws E))|];
        agree_leaf AX
      | assert (H : pos1 Z = pos1 s + k1 /\ pos2 Z = pos2 s + k2 /\
                    line1 Z = line1 s /\ line2 Z = line2 s /\
                    pos1 Z' = pos1 s' + k1 /\ pos2 Z' = pos2 s' + k2 /\
                    line1 Z' = line1 s' /\ line2 Z' = line2 s');
        [ destruct (negb (streq w1 w2)); [destruct (negb (ignore_ws E))|];
          simpl; rewrite ?F1, ?F2, ?F3, ?F4, ?F5, ?F6,
                         ?G1, ?G2, ?G3, ?G4, ?G5, ?G6; auto 12
        | destruct H as (H1 & H2 & H3 & H4 & H5 & H6 & H7 & H8);
          set (W := Z) in *; set (W' := Z') in *; clearbody W W' ]
      ]
  end.
  rewrite H1, H2, H3, H4, H5, H6, H7, H8.
  rewrite (nth_after _ _ _ _ _ P1 L1), (nth_after _ _ _ _ _ P1' L1).
  rewrite (nth_after _ _ _ _ _ P2 L2), (nth_after _ _ _ _ _ P2' L2).
  destruct (is_nul (nth k1 a1 NUL) && is_nul (nth k2 a2 NUL)); simpl.
  - exact AZ.
  - split; [exact AZ|]. rewrite H1, H2, H3, H4, H5, H6, H7, H8. split.
    + eapply same_text_skip; eauto.
    + eapply same_text_skip; eauto.
Qed.

Lemma float_report_agree (s s' : locals) :
  agree_ahead s s' -> f1 s' = f1 s -> f2 s' = f2 s ->
  agree_ahead (float_report E s) (float_report E s').
Proof.
  intros (A & T1 & T2) E1 E2.
  destruct (float_report_cursor E s) as (C1 & C2 & C3 & C4).
  destruct (float_report_cursor E s') as (D1 & D2 & D3 & D4).
  split; [|rewrite C1, C2, C3, C4, D1, D2, D3, D4; auto].
  unfold float_report. rewrite E1, E2.
  destruct (negb (equal E (f1 s) (f2 s))); [|exact A].
  destruct A as [A1 A2 A3 A4 A5 A6 A7 A8 A9 A10 A11 A12 A13].
  constructor; simpl; rewrite ?E1, ?E2; congruence.
Qed.

Lemma compare_numbers_agree (s s' : locals) :
  agree_ahead s s' ->
  sscanf_Lf E (str1 s) <> InputEnd -> sscanf_Lf E (str2 s) <> InputEnd ->
  iter_agree (compare_numbers E s) (compare_numbers E s').
Proof.
  intros (A & T1 & T2) N1 N2.
  assert (Q : str1 s' = str1 s /\ str2 s' = str2 s)
    by (destruct A; auto).
  destruct Q as [Q1 Q2].
  unfold compare_numbers. cbv zeta. rewrite Q1, Q2.
  destruct (sscanf_Lf E (str1 s)) as [a| |]; [| |contradiction];
    (destruct (sscanf_Lf E (str2 s)) as [b| |]; [| |contradiction]);
    cbn [is_nomatch is_converted andb negb];
    try (simpl; agree_leaf A).
  apply tokendone_agree. apply float_report_agree; try reflexivity.
  split; [agree_leaf A|]. simpl. auto.
Qed.

Lemma compare_tokens_agree (read1 read2 : bool) (s s' : locals) :
  agree s s' ->
  (read1 = true -> read2 = true ->
   agree_ahead s s' /\
   sscanf_Lf E (str1 s) <> InputEnd /\ sscanf_Lf E (str2 s) <> InputEnd) ->
  read1 || read2 = true ->
  iter_agree (compare_tokens E read1 read2 s)
             (compare_tokens E read1 read2 s').
Proof.
  intros A H R. unfold compare_tokens.
  destruct read1, read2; try discriminate; cbn [negb andb];
    try (simpl; agree_leaf A).
  destruct (H eq_refl eq_refl) as (AA & N1 & N2).
  assert (Q : str1 s' = str1 s /\ str2 s' = str2 s)
    by (destruct A; auto).
  destruct Q as [Q1 Q2]. rewrite Q1, Q2.
  destruct (streq (str1 s) (str2 s)).
  - apply tokendone_agree. exact AA.
  - apply compare_numbers_agree; assumption.
Qed.

Lemma word_input (s : list ascii) (n : nat) (w : list ascii) :
  scan_token s = Some (Some (n, w)) -> sscanf_Lf E w <> InputEnd.
Proof.
  intros H. apply scan_word_input in H. unfold sscanf_Lf.
  destruct (drop_spaces w); [contradiction|].
  destruct (scan_flt E (a :: l)); discriminate.
Qed.

Lemma token_iter_agree (s s' : locals) :
  agree_ahead s s' -> ready s ->
  iter_agree (token_iter E s) (token_iter E s').
Proof.
  intros (A & (a1 & t1 & t1' & P1 & P1') & (a2 & t2 & t2' & P2 & P2'))
         (I1 & I2 & NB).
  unfold token_iter. cbv zeta.
  set (X := set_tokennr (S (tokennr s)) s).
  set (X' := set_tokennr (S (tokennr s')) s').
  change (pos1 X) with (pos1 s). change (pos2 X) with (pos2 s).
  change (line1 X) with (line1 s). change (line2 X) with (line2 s).
  change (pos1 X') with (pos1 s'). change (pos2 X') with (pos2 s').
  change (line1 X') with (line1 s'). change (line2 X') with (line2 s').
  destruct (@scan_token_total _ I1) as (r1 & R1 & _).
  destruct (@scan_token_total _ I2) as (r2 & R2 & _).
  rewrite R1, R2.
  rewrite P1', P2', (scan_token_prefix a1 t1' t1),
    (scan_token_prefix a2 t2' t2), <- P1, <- P2, R1, R2.
  assert (AX : agree X X') by (subst X X'; agree_leaf A).
  assert (F : pos1 X = pos1 s /\ pos2 X = pos2 s /\
              line1 X = line1 s /\ line2 X = line2 s /\
              pos1 X' = pos1 s' /\ pos2 X' = pos2 s' /\
              line1 X' = line1 s' /\ line2 X' = line2 s')
    by (subst X X'; simpl; auto 12).
  destruct F as (F1 & F2 & F3 & F4 & G1 & G2 & G3 & G4).
  clearbody X X'.
  apply compare_tokens_agree.
  - destruct r1 as [[m1 v1]|], r2 as [[m2 v2]|]; agree_leaf AX.
  - intros C1 C2.
    destruct r1 as [[m1 v1]|]; [|discriminate].
    destruct r2 as [[m2 v2]|]; [|discriminate].
    split; [|split; [exact (word_input _ _ _ R1)|exact (word_input _ _ _ R2)]].
    split; [agree_leaf AX|]. simpl.
    rewrite F1, F2, F3, F4, G1, G2, G3, G4.
    rewrite P1 in R1. rewrite P2 in R2.
    apply scan_token_before_nul in R1. apply scan_token_before_nul in R2.
    split; eapply same_text_skip; eauto.
  - destruct r1 as [[m1 v1]|], r2 as [[m2 v2]|]; try reflexivity.
    exfalso. apply NB. split; assumption.
Qed.

(** The token loop in two states that agree, each on fuel that it cannot
    use up. *)
Lemma token_loop_agree (fuel fuel' : nat) (s s' : locals) :
  agree_ahead s s' -> ready s ->
  room s < fuel -> room s' < fuel' ->
  exists a b, token_loop E fuel s = Done a /\
              token_loop E fuel' s' = Done b /\ agree a b.
Proof.
  revert fuel' s s'. induction fuel as [|fuel IH];
    intros fuel' s s' A R Hr Hr'; [lia|].
  destruct fuel' as [|fuel']; [lia|].
  rewrite !token_loop_unfold.
  pose proof (token_iter_agree s s' A R) as T.
  pose proof (agree_ahead_ready _ _ A R) as R'.
  pose proof (token_iter_progress E s) as P.
  pose proof (token_iter_progress E s') as P'.
  destruct (@token_iter_ready E s R) as [_ C].
  destruct (token_iter E s) as [a|a|], (token_iter E s') as [b|b|];
    simpl in T, P, P', C; try contradiction.
  - exists a, b. auto.
  - apply progress_room in P. apply progress_room in P'.
    apply (IH fuel' a b T C); lia.
Qed.

Lemma compare_line_agree (s s' : locals) (c1 c2 t1 t1' t2 t2' : list ascii) :
  agree s s' ->
  line1 s = c1 ++ NUL :: t1 -> line1 s' = c1 ++ NUL :: t1' ->
  line2 s = c2 ++ NUL :: t2 -> line2 s' = c2 ++ NUL :: t2' ->
  ~ (blank_line (c1 ++ [NUL]) /\ blank_line (c2 ++ [NUL])) ->
  exists a b, compare_line E s = Done a /\
              compare_line E s' = Done b /\ agree a b.
Proof.
  intros A L1 L1' L2 L2' NB. unfold compare_line.
  rewrite L1, L1', L2, L2'.
  destruct (scanspace_before_nul c1 t1) as (k1 & w1 & S1 & K1).
  destruct (scanspace_before_nul c2 t2) as (k2 & w2 & S2 & K2).
  rewrite (scanspace_prefix c1 t1' t1), (scanspace_prefix c2 t2' t2), S1, S2.
  cbv zeta.
  match goal with
  |- exists a b, token_loop E (token_fuel ?X) ?X = Done a /\
                 token_loop E (token_fuel ?X') ?X' = Done b /\ _ =>
    assert (AA : agree_ahead X X');
      [| apply (token_loop_agree (token_fuel X) (token_fuel X') X X' AA);
         [| unfold room, token_fuel; lia | unfold room, token_fuel; lia ] ]
  end.
  - split; [agree_leaf A|]. simpl. rewrite L1, L1', L2, L2'.
    split; [exists (skipn k1 c1), t1, t1' | exists (skipn k2 c2), t2, t2'];
      rewrite !skipn_app_le by assumption; auto.
  - unfold ready. simpl. rewrite L1, L2.
    rewrite !skipn_app_le by assumption.
    split; [apply in_or_app; right; left; reflexivity|].
    split; [apply in_or_app; right; left; reflexivity|].
    intros [B1 B2]. apply NB. unfold blank_line.
    rewrite (scan_token_prefix c1 [] t1), (scan_token_prefix c2 [] t2).
    rewrite <- (skipn_app_le _ k1 c1 (NUL :: t1) K1) in B1.
    rewrite <- (skipn_app_le _ k2 c2 (NUL :: t2) K2) in B2.
    split; eapply blank_after_spaces; eauto.
Qed.

Lemma line_loop_agree (fuel : nat) (s s' : locals) :
  agree s s' ->
  length (file1 s) < fuel ->
  no_blank_pair fuel (file1 s) (file2 s) ->
  exists a b, line_loop E fuel s = Done a /\
              line_loop E fuel s' = Done b /\ agree a b.
Proof.
  revert s s'. induction fuel as [|fuel IH]; intros s s' A Hf NB; [lia|].
  assert (Q : file1 s' = file1 s /\ file2 s' = file2 s)
    by (destruct A; auto).
  destruct Q as [Q1 Q2].
  cbn [line_loop no_blank_pair] in *. cbv zeta.
  change (line1 (set_linenr (S (linenr s)) s)) with (line1 s).
  change (file1 (set_linenr (S (linenr s)) s)) with (file1 s).
  change (line1 (set_linenr (S (linenr s')) s')) with (line1 s').
  change (file1 (set_linenr (S (linenr s')) s')) with (file1 s').
  rewrite Q1.
  pose proof (fgets_rest (line1 s) (file1 s)) as R1.
  destruct (fgets (line1 s) (file1 s)) as [[b1 r1]|] eqn:G1.
  - destruct (@fgets_line _ _ _ _ G1) as (c1 & -> & N1).
    pose proof (fgets_other (line1 s') _ _ _ N1) as G1'.
    rewrite G1'.
    cbn [line2 file2 set_file1 set_line1 set_linenr]. rewrite Q2.
    destruct (fgets (line2 s) (file2 s)) as [[b2 r2]|] eqn:G2.
    + destruct (@fgets_line _ _ _ _ G2) as (c2 & -> & N2).
      pose proof (fgets_other (line2 s') _ _ _ N2) as G2'.
      rewrite G2'. rewrite N1, N2 in NB. destruct NB as [NB1 NB2].
      match goal with
      |- exists a b, match compare_line E ?X with _ => _ end = _ /\
                     match compare_line E ?X' with _ => _ end = _ /\ _ =>
        edestruct (compare_line_agree X X' c1 c2) as (a & b & Ca & Cb & Aab);
          [ agree_leaf A | reflexivity | reflexivity | reflexivity
          | reflexivity | exact NB1 | ];
        pose proof (compare_line_extends E X) as Xa
      end.
      rewrite Ca, Cb. rewrite Ca in Xa. simpl in Xa.
      destruct Xa as [F1 F2 _ _ _ _]. simpl in F1, F2.
      apply IH; [exact Aab| rewrite F1; destruct R1; lia |].
      rewrite F1, F2. exact NB2.
    + pose proof (fgets_end _ (line2 s') _ G2) as G2'.
      rewrite G2'. eexists. eexists. split; [reflexivity|].
      split; [reflexivity|]. agree_leaf A.
  - pose proof (fgets_end _ (line1 s') _ G1) as G1'.
    rewrite G1'. cbn [line2 file2].
    change (line2 (set_linenr (S (linenr s)) s)) with (line2 s).
    change (file2 (set_linenr (S (linenr s)) s)) with (file2 s).
    change (line2 (set_linenr (S (linenr s')) s')) with (line2 s').
    change (file2 (set_linenr (S (linenr s')) s')) with (file2 s').
    rewrite Q2.
    destruct (fgets (line2 s) (file2 s)) as [[b2 r2]|] eqn:G2.
    + destruct (@fgets_line _ _ _ _ G2) as (c2 & -> & N2).
      pose proof (fgets_other (line2 s') _ _ _ N2) as G2'.
      rewrite G2'. eexists. eexists. split; [reflexivity|].
      split; [reflexivity|]. agree_leaf A.
    + pose proof (fgets_end _ (line2 s') _ G2) as G2'.
      rewrite G2'. eexists. eexists. split; [reflexivity|].
      split; [reflexivity|]. agree_leaf A.
Qed.

(** X17. On streams with no pair of blank lines, what a run prints and
    counts does not depend on the contents that [line1], [line2], [f1]
    and [f2] have before the run: no report shows a value that the run
    has not stored before. *)
Theorem output_ignores_garbage
    (s1 s2 b1 b2 b1' b2' : list ascii) (x1 x2 x1' x2' : flt) :
  no_blank_lines s1 s2 ->
  exists s s',
    compare_streams E s1 s2 b1 b2 x1 x2 = Done s /\
    compare_streams E s1 s2 b1' b2' x1' x2' = Done s' /\
    out s' = out s /\ diff s' = diff s /\ wsdiff s' = wsdiff s /\
    linenr s' = linenr s.
Proof.
  intros NB. unfold compare_streams.
  match goal with
  |- exists s s', match line_loop E ?f ?X with _ => _ end = _ /\
                  match line_loop E ?f ?X' with _ => _ end = _ /\ _ =>
    destruct (line_loop_agree f X X') as (a & b & La & Lb & A)
  end.
  - constructor; reflexivity.
  - simpl. lia.
  - exact NB.
  - rewrite La, Lb. exists (summary a), (summary b).
    split; [reflexivity|]. split; [reflexivity|].
    destruct A as [A1 A2 A3 A4 A5 A6 A7 A8 A9 A10 A11 A12 A13].
    unfold summary. rewrite A5, A3.
    destruct (0 <? diff a); simpl; repeat split; congruence.
Qed.

End TwoRuns.

(* ------------------------------------------------------------------ *)
(** * A read outside the line buffers *)

(** [fgets] takes a short line of white space with its newline. *)
Lemma take_line_spaces (room : nat) (w rest : list ascii) :
  length w < room -> Forall space_not_newline w ->
  take_line room (w ++ newline :: rest) = w ++ [newline].
Proof.
  revert room. induction w as [|c w IH]; intros room L F.
  - destruct room; [simpl in L; lia|]. reflexivity.
  - destruct room; [simpl in L; lia|]. inversion F as [|? ? [_ N] F']; subst.
    simpl. apply Ascii.eqb_neq in N. rewrite N. f_equal.
    apply IH; [simpl in L; lia|exact F'].
Qed.

Lemma scanspace_all_spaces (w t : list ascii) :
  Forall (fun c => isspace c = true) w ->
  scanspace (w ++ NUL :: t) = Some (length w, w) /\
  blank_line (w ++ NUL :: t).
Proof.
  unfold blank_line. induction w as [|c w IH]; intros F.
  - split; reflexivity.
  - inversion F as [|? ? Hc F']; subst. destruct (IH F') as [A B].
    simpl. rewrite Hc, A, B. split; reflexivity.
Qed.

Section Overrun.
Variable E : Env.

(** X15. When the line loop reads, into buffers of [MAXLINELEN]
    characters, two lines of white space of which one has 511 characters or
    more before its newline, the token loop reads outside a buffer:
    the cursor of that line is moved to twice the length of the line, the
    newline included. *)
Theorem long_blank_lines_overrun
    (fuel : nat) (s : locals) (w1 w2 rest1 rest2 : list ascii) :
  file1 s = w1 ++ newline :: rest1 ->
  file2 s = w2 ++ newline :: rest2 ->
  Forall space_not_newline w1 -> Forall space_not_newline w2 ->
  length w1 + 2 <= MAXLINELEN -> length w2 + 2 <= MAXLINELEN ->
  length (line1 s) = MAXLINELEN -> length (line2 s) = MAXLINELEN ->
  MAXLINELEN <= 2 * (length w1 + 1) \/ MAXLINELEN <= 2 * (length w2 + 1) ->
  line_loop E (S fuel) s = Fault.
Proof.
  intros F1 F2 W1 W2 L1 L2 B1 B2 H.
  assert (G : forall (buf w rest : list ascii),
            Forall space_not_newline w -> length w + 2 <= MAXLINELEN ->
            fgets buf (w ++ newline :: rest) =
            Some ((w ++ [newline]) ++
                  NUL :: skipn (S (length (w ++ [newline]))) buf, rest)).
  { intros buf w rest W L. unfold fgets.
    destruct (w ++ newline :: rest) as [|c x] eqn:Ex;
      [destruct w; discriminate|]. rewrite <- Ex. cbv zeta.
    rewrite take_line_spaces by (auto; lia).
    do 2 f_equal.
    change (newline :: rest) with ([newline] ++ rest).
    rewrite app_assoc, skipn_app, skipn_all, Nat.sub_diag. reflexivity. }
  assert (Sp : forall w, Forall space_not_newline w ->
                 Forall (fun c => isspace c = true) (w ++ [newline])).
  { intros w W. apply Forall_app. split.
    - eapply Forall_impl; [|exact W]. intros c [A _]. exact A.
    - repeat constructor. }
  cbn [line_loop]. cbv zeta.
  change (line1 (set_linenr (S (linenr s)) s)) with (line1 s).
  change (file1 (set_linenr (S (linenr s)) s)) with (file1 s).
  rewrite F1, (G _ _ _ W1 L1).
  cbn [line2 file2 set_file1 set_line1 set_linenr].
  rewrite F2, (G _ _ _ W2 L2).
  destruct (scanspace_all_spaces (w1 ++ [newline])
              (skipn (S (length (w1 ++ [newline]))) (line1 s)) (Sp _ W1))
    as [S1 K1].
  destruct (scanspace_all_spaces (w2 ++ [newline])
              (skipn (S (length (w2 ++ [newline]))) (line2 s)) (Sp _ W2))
    as [S2 K2].
  match goal with |- context [compare_line E ?X] =>
    rewrite (compare_line_overrun E X _ _ _ _ S1 S2 K1 K2); [reflexivity|]
  end.
  cbn [line1 line2 set_file2 set_line2 set_file1 set_line1].
  rewrite !length_app. cbn [length].
  rewrite !length_skipn. lia.
Qed.

End Overrun.

(* ------------------------------------------------------------------ *)
(** * Two blank lines *)

Section Stale.
Variable E : Env.

Lemma forward_refl (s : locals) : forward s s.
Proof. repeat split; auto. Qed.

Lemma forward_trans (s t u : locals) : forward s t -> forward t u -> forward s u.
Proof.
  intros (A & B & C & D) (A' & B' & C' & D').
  repeat split; try congruence; lia.
Qed.

Lemma after_forward (s t : locals) (r : iter) :
  forward s t -> after (forward t) r -> after (forward s) r.
Proof. destruct r; simpl; eauto using forward_trans. Qed.

Lemma tokendone_forward (s : locals) : after (forward s) (tokendone E s).
Proof.
  unfold tokendone.
  destruct (scanspace (skipn (pos1 s) (line1 s))) as [[k1 w1]|]; [|exact I].
  destruct (scanspace (skipn (pos2 s) (line2 s))) as [[k2 w2]|]; [|exact I].
  cbv zeta.
  match goal with |- context [if ?b then _ else ?x] =>
    set (s1 := if b then _ else x) end.
  assert (F : pos1 s1 = pos1 s /\ pos2 s1 = pos2 s /\
              line1 s1 = line1 s /\ line2 s1 = line2 s).
  { subst s1. destruct (negb _); [destruct (negb _)|]; simpl; auto 10. }
  destruct F as (F1 & F2 & F3 & F4).
  clearbody s1. simpl. rewrite F1, F2, F3, F4.
  destruct (nth_error (line1 s) (pos1 s + n1 s1)); [|exact I].
  destruct (nth_error (line2 s) (pos2 s + n2 s1)); [|exact I].
  destruct (is_nul a && is_nul a0); unfold after, forward; simpl;
    rewrite ?F1, ?F2, ?F3, ?F4; repeat split; auto; lia.
Qed.

Lemma compare_numbers_forward (s : locals) :
  after (forward s) (compare_numbers E s).
Proof.
  unfold compare_numbers. cbv zeta.
  destruct (is_nomatch (sscanf_Lf E (str1 s)));
    [destruct (sscanf_Lf E (str1 s)), (sscanf_Lf E (str2 s));
     repeat split; auto|].
  destruct (is_nomatch (sscanf_Lf E (str2 s)));
    [destruct (sscanf_Lf E (str1 s)), (sscanf_Lf E (str2 s));
     repeat split; auto|].
  eapply after_forward; [|apply tokendone_forward].
  match goal with |- forward s (float_report E ?X) =>
    destruct (float_report_cursor E X) as (Q1 & Q2 & Q3 & Q4);
    unfold forward; rewrite Q1, Q2, Q3, Q4
  end.
  destruct (negb _), (sscanf_Lf E (str1 s)), (sscanf_Lf E (str2 s));
    repeat split; auto.
Qed.

Lemma compare_tokens_forward (read1 read2 : bool) (s : locals) :
  after (forward s) (compare_tokens E read1 read2 s).
Proof.
  unfold compare_tokens.
  destruct (negb read1 && read2); [repeat split; auto|].
  destruct (read1 && negb read2); [repeat split; auto|].
  destruct (streq (str1 s) (str2 s)).
  - apply tokendone_forward.
  - apply compare_numbers_forward.
Qed.

(** A pass moves the cursors by what the two conversions consumed, or by
    the old values of [n1] and [n2], and then by the white space that
    follows. *)
Lemma token_iter_steps (s : locals) :
  match scan_token (skipn (pos1 s) (line1 s)),
        scan_token (skipn (pos2 s) (line2 s)) with
  | Some t1, Some t2 =>
      after (fun s' => reached (pos1 s + step_of t1 (n1 s))
                               (pos2 s + step_of t2 (n2 s)) s' /\
                       line1 s' = line1 s /\ line2 s' = line2 s)
            (token_iter E s)
  | _, _ => token_iter E s = Undefined
  end.
Proof.
  unfold token_iter. cbv zeta.
  set (s0 := set_tokennr (S (tokennr s)) s).
  change (pos1 s0) with (pos1 s). change (pos2 s0) with (pos2 s).
  change (line1 s0) with (line1 s). change (line2 s0) with (line2 s).
  destruct (scan_token (skipn (pos1 s) (line1 s))) as [t1|]; [|reflexivity].
  destruct (scan_token (skipn (pos2 s) (line2 s))) as [t2|]; [|reflexivity].
  pose proof (compare_tokens_forward (converted t1) (converted t2)
                (advance t1 t2 s0)) as H.
  pose proof (advance_moved t1 t2 s0) as [A1 A2 A3 A4].
  change (pos1 s0) with (pos1 s) in *. change (pos2 s0) with (pos2 s) in *.
  change (line1 s0) with (line1 s) in *. change (line2 s0) with (line2 s) in *.
  change (n1 s0) with (n1 s) in *. change (n2 s0) with (n2 s) in *.
  unfold forward in H. rewrite A1, A2, A3, A4 in H.
  destruct (compare_tokens E (converted t1) (converted t2) (advance t1 t2 s0))
    as [s'|s'|]; cbn [after] in *; auto;
    destruct H as (P1 & P2 & L1 & L2); unfold reached;
    repeat split; auto.
Qed.

Lemma token_iter_forward (s : locals) : after (forward s) (token_iter E s).
Proof.
  pose proof (token_iter_steps s) as H.
  destruct (scan_token (skipn (pos1 s) (line1 s))) as [t1|];
    [|rewrite H; exact I].
  destruct (scan_token (skipn (pos2 s) (line2 s))) as [t2|];
    [|rewrite H; exact I].
  destruct (token_iter E s) as [s'|s'|]; simpl in *; auto;
    destruct H as ((P1 & P2) & L1 & L2); repeat split; auto; lia.
Qed.

Lemma token_loop_forward (fuel : nat) (s s' : locals) :
  token_loop E fuel s = Done s' -> forward s s'.
Proof.
  revert s. induction fuel as [|fuel IH]; intros s; [discriminate|].
  simpl. pose proof (token_iter_forward s) as F.
  destruct (token_iter E s) as [t|t|]; simpl in F.
  - intros H; injection H as <-. exact F.
  - intros H. eapply forward_trans; [exact F|]. apply IH. exact H.
  - discriminate.
Qed.

(** After the white space of a blank line, at the count that [scanspace]
    gives, is the terminator. *)
Lemma blank_line_terminator (buf : list ascii) (k : nat) (w : list ascii) :
  scanspace buf = Some (k, w) -> blank_line buf ->
  nth_error buf k = Some NUL.
Proof.
  intros S B. pose proof (blank_skip_spaces _ _ _ S B) as K.
  unfold blank_line in K.
  destruct (@scanspace_stops _ _ _ S) as (d & D & P).
  destruct (skipn k buf) as [|c l] eqn:Sk; [discriminate|].
  assert (N : nth_error buf k = Some c)
    by (rewrite <- (Nat.add_0_r k), <- nth_error_skipn, Sk; reflexivity).
  rewrite N in D. injection D as <-. rewrite N. f_equal.
  cbn [scan_token] in K. rewrite P in K.
  destruct (is_nul c) eqn:Z.
  - apply Ascii.eqb_eq in Z. exact Z.
  - destruct (scan_word (c :: l)) as [[? ?]|]; discriminate.
Qed.

(** C10. On two blank lines the token loop does not stop at the
    terminators.  [scanspace] leaves each cursor on the terminator of its
    line, at [k1] and [k2], and these counts in [n1] and [n2]; the first
    pass finds no token, stores nothing, and moves the cursors by the
    counts that [n1] and [n2] still hold: the work on the two lines
    ends, unless a read leaves the buffers, with the cursors at [k1 + k1]
    and [k2 + k2] or beyond. *)
Theorem blank_lines_pass_the_terminators
    (s : locals) (k1 k2 : nat) (w1 w2 : list ascii) :
  scanspace (line1 s) = Some (k1, w1) ->
  scanspace (line2 s) = Some (k2, w2) ->
  blank_line (line1 s) -> blank_line (line2 s) ->
  nth_error (line1 s) k1 = Some NUL /\
  nth_error (line2 s) k2 = Some NUL /\
  finishes (reached (k1 + k1) (k2 + k2)) (compare_line E s).
Proof.
  intros S1 S2 B1 B2.
  pose proof (blank_skip_spaces _ _ _ S1 B1) as K1.
  pose proof (blank_skip_spaces _ _ _ S2 B2) as K2.
  split; [exact (blank_line_terminator _ _ _ S1 B1)|].
  split; [exact (blank_line_terminator _ _ _ S2 B2)|].
  unfold compare_line. rewrite S1, S2. cbv zeta.
  match goal with |- finishes _ (token_loop E (token_fuel ?X) ?X) =>
    set (s0 := X)
  end.
  assert (R : room s0 < token_fuel s0) by (unfold room, token_fuel; lia).
  pose proof (@token_loop_fuel E (token_fuel s0) s0 R) as NF.
  unfold token_fuel in *. cbn [token_loop] in *.
  pose proof (token_iter_steps s0) as T.
  change (pos1 s0) with k1 in T. change (pos2 s0) with k2 in T.
  change (n1 s0) with k1 in T. change (n2 s0) with k2 in T.
  change (line1 s0) with (line1 s) in T. change (line2 s0) with (line2 s) in T.
  unfold blank_line in K1, K2. rewrite K1, K2 in T.
  cbn [step_of] in T.
  destruct (token_iter E s0) as [t|t|]; cbn [after] in T.
  - destruct T as (T & _). exact T.
  - destruct T as ((T1 & T2) & _).
    destruct (token_loop E _ t) as [s'| |] eqn:L; [|exact I|contradiction].
    apply token_loop_forward in L. destruct L as (L1 & L2 & _).
    split; simpl; lia.
  - exact I.
Qed.

End Stale.

(* ------------------------------------------------------------------ *)
(** * Reports of one line of text *)

Section Plain.
Variable E : Env.

Lemma plain_print (d : diag) (s : locals) :
  prints_tokens d = false -> plain_out s -> plain_out (print d s).
Proof.
  intros D P. unfold plain_out, print. simpl.
  apply Forall_app. split; [exact P|]. repeat constructor. exact D.
Qed.

Lemma tokendone_plain (s : locals) :
  plain_out s -> after plain_out (tokendone E s).
Proof.
  intros P. unfold tokendone.
  destruct (scanspace (skipn (pos1 s) (line1 s))) as [[k1 w1]|]; [|exact I].
  destruct (scanspace (skipn (pos2 s) (line2 s))) as [[k2 w2]|]; [|exact I].
  cbv zeta.
  match goal with |- context [if ?b then _ else ?x] =>
    set (s1 := if b then _ else x) end.
  assert (F : plain_out s1).
  { subst s1. destruct (negb _); [destruct (negb _)|]; try exact P.
    apply plain_print; [reflexivity|exact P]. }
  clearbody s1.
  match goal with |- context [nth_error ?l ?p] => destruct (nth_error l p) end;
    [|exact I].
  match goal with |- context [nth_error ?l ?p] => destruct (nth_error l p) end;
    [|exact I].
  match goal with |- context [if ?b then _ else _] => destruct b end;
    exact F.
Qed.

Lemma float_report_plain (s : locals) :
  plain_out s -> plain_out (float_report E s).
Proof.
  intros P. unfold float_report. destruct (negb _); [|exact P].
  apply plain_print; [reflexivity|exact P].
Qed.

Lemma compare_numbers_plain (s : locals) :
  sscanf_Lf E (str1 s) <> InputEnd -> sscanf_Lf E (str2 s) <> InputEnd ->
  plain_out s -> after plain_out (compare_numbers E s).
Proof.
  intros N1 N2 P. unfold compare_numbers. cbv zeta.
  destruct (sscanf_Lf E (str1 s)) as [a| |]; [| |contradiction];
    (destruct (sscanf_Lf E (str2 s)) as [b| |]; [| |contradiction]);
    cbn [is_nomatch is_converted andb negb];
    try (apply plain_print; [reflexivity|exact P]).
  apply tokendone_plain, float_report_plain. exact P.
Qed.

Lemma compare_tokens_plain (read1 read2 : bool) (s : locals) :
  (read1 = true -> read2 = true ->
   sscanf_Lf E (str1 s) <> InputEnd /\ sscanf_Lf E (str2 s) <> InputEnd) ->
  read1 || read2 = true ->
  plain_out s -> after plain_out (compare_tokens E read1 read2 s).
Proof.
  intros H R P. unfold compare_tokens.
  destruct read1, read2; try discriminate; cbn [negb andb];
    try (apply plain_print; [reflexivity|exact P]).
  destruct (H eq_refl eq_refl) as (N1 & N2).
  destruct (streq (str1 s) (str2 s)).
  - apply tokendone_plain. exact P.
  - apply compare_numbers_plain; assumption.
Qed.

(** With a token at one of the cursors, a pass does not reach line 271:
    the strings that it reads as numbers are tokens. *)
Lemma token_iter_plain (s : locals) :
  ready s -> plain_out s -> after plain_out (token_iter E s).
Proof.
  intros (I1 & I2 & NB) P. unfold token_iter. cbv zeta.
  set (s0 := set_tokennr (S (tokennr s)) s).
  change (pos1 s0) with (pos1 s). change (pos2 s0) with (pos2 s).
  change (line1 s0) with (line1 s). change (line2 s0) with (line2 s).
  destruct (@scan_token_total _ I1) as (t1 & T1 & J1).
  destruct (@scan_token_total _ I2) as (t2 & T2 & J2).
  rewrite T1, T2.
  apply compare_tokens_plain.
  - intros R1 R2.
    destruct t1 as [[m1 v1]|]; [|discriminate].
    destruct t2 as [[m2 v2]|]; [|discriminate].
    split; [exact (word_input E _ _ _ T1)|exact (word_input E _ _ _ T2)].
  - destruct t1 as [[m1 v1]|]; [reflexivity|].
    destruct t2 as [[m2 v2]|]; [reflexivity|].
    exfalso. apply NB. split; assumption.
  - destruct t1 as [[m1 v1]|], t2 as [[m2 v2]|]; exact P.
Qed.

Lemma token_loop_plain (fuel : nat) (s s' : locals) :
  ready s -> plain_out s -> token_loop E fuel s = Done s' -> plain_out s'.
Proof.
  revert s. induction fuel as [|fuel IH]; intros s R P; [discriminate|].
  simpl. destruct (@token_iter_ready E s R) as [D C].
  pose proof (token_iter_plain s R P) as Q.
  destruct (token_iter E s) as [t|t|]; simpl in *.
  - intros H; injection H as <-. exact Q.
  - apply IH; assumption.
  - discriminate.
Qed.

Lemma compare_line_plain (s s' : locals) :
  In NUL (line1 s) -> In NUL (line2 s) ->
  ~ (blank_line (line1 s) /\ blank_line (line2 s)) ->
  plain_out s -> compare_line E s = Done s' -> plain_out s'.
Proof.
  intros I1 I2 NB P. unfold compare_line.
  destruct (@scanspace_total _ I1) as (k1 & w1 & S1 & J1).
  destruct (@scanspace_total _ I2) as (k2 & w2 & S2 & J2).
  rewrite S1, S2. cbv zeta.
  apply token_loop_plain; [|exact P].
  unfold ready. simpl.
  split; [exact J1|]. split; [exact J2|].
  intros [B1 B2]. apply NB. split.
  - eapply blank_after_spaces; eassumption.
  - eapply blank_after_spaces; eassumption.
Qed.

Lemma line_loop_plain (fuel : nat) (s s' : locals) :
  no_blank_pair fuel (file1 s) (file2 s) -> plain_out s ->
  line_loop E fuel s = Done s' -> plain_out s'.
Proof.
  revert s. induction fuel as [|fuel IH]; intros s NB P; [discriminate|].
  cbn [line_loop no_blank_pair] in *. cbv zeta.
  change (line1 (set_linenr (S (linenr s)) s)) with (line1 s).
  change (file1 (set_linenr (S (linenr s)) s)) with (file1 s).
  destruct (fgets (line1 s) (file1 s)) as [[b1 r1]|] eqn:G1.
  - cbn [line2 file2 set_file1 set_line1 set_linenr].
    destruct (fgets (line2 s) (file2 s)) as [[b2 r2]|] eqn:G2.
    + destruct (fgets_line _ _ G1) as (c1 & -> & N1).
      destruct (fgets_line _ _ G2) as (c2 & -> & N2).
      rewrite N1, N2 in NB. destruct NB as [NB1 NB2].
      match goal with |- context [compare_line E ?X] =>
        pose proof (compare_line_extends E X) as C;
        pose proof (fun t => @compare_line_plain X t) as F;
        destruct (compare_line E X) as [s1| |]; try discriminate
      end.
      destruct C as [C1 C2 _ _ _ _]. simpl in C1, C2.
      apply IH; [rewrite C1, C2; exact NB2|].
      apply F; simpl; auto.
      * apply in_or_app. right. left. reflexivity.
      * apply in_or_app. right. left. reflexivity.
      * unfold blank_line in *.
        rewrite (scan_token_prefix c1 _ []), (scan_token_prefix c2 _ []).
        exact NB1.
    + intros H; injection H as <-.
      apply plain_print; [reflexivity|exact P].
  - cbn [line2 file2].
    change (line2 (set_linenr (S (linenr s)) s)) with (line2 s).
    change (file2 (set_linenr (S (linenr s)) s)) with (file2 s).
    destruct (fgets (line2 s) (file2 s)) as [[b2 r2]|] eqn:G2;
      intros H; injection H as <-.
    + apply plain_print; [reflexivity|exact P].
    + exact P.
Qed.

(** When no two lines read together are both blank, the report of line
    271 is not printed. *)
Lemma compare_streams_plain (s1 s2 b1 b2 : list ascii) (x1 x2 : flt)
                            (s : locals) :
  no_blank_lines s1 s2 ->
  compare_streams E s1 s2 b1 b2 x1 x2 = Done s -> plain_out s.
Proof.
  intros NB. unfold compare_streams.
  match goal with |- context [line_loop E ?f ?s0] =>
    pose proof (fun t => @line_loop_plain f s0 t NB) as H;
    destruct (line_loop E f s0) as [s'| |]; try discriminate
  end.
  intros Q; injection Q as <-.
  specialize (H s' ltac:(constructor) eq_refl).
  unfold summary. destruct (0 <? diff s'); [|exact H].
  apply plain_print; [reflexivity|exact H].
Qed.

End Plain.

(** ** Texts without a newline *)

Lemma no_newline_append (a b : string) :
  no_newline a -> no_newline b -> no_newline (a ++ b).
Proof.
  unfold no_newline. intros A B. induction a as [|c a IH]; [exact B|].
  simpl in *. intros [H|H]; [apply A; left; exact H|].
  apply IH; [|exact H]. intros N. apply A. right. exact N.
Qed.

Lemma no_newline_uint (u : Decimal.uint) :
  no_newline (NilEmpty.string_of_uint u).
Proof.
  unfold no_newline.
  induction u; simpl; [tauto|..]; intros [H|H]; try discriminate; tauto.
Qed.

Lemma no_newline_dec (n : nat) : no_newline (dec n).
Proof. apply no_newline_uint. Qed.

Lemma no_newline_spaces (k : nat) : no_newline (spaces k).
Proof.
  unfold no_newline. induction k; simpl; [tauto|].
  intros [H|H]; [discriminate|tauto].
Qed.

Lemma no_newline_dec3 (n : nat) : no_newline (dec3 n).
Proof.
  unfold dec3. apply no_newline_append;
    [apply no_newline_spaces|apply no_newline_dec].
Qed.

Lemma append_assoc (a b c : string) :
  ((a ++ b) ++ c = a ++ (b ++ c))%string.
Proof. induction a as [|x a IH]; simpl; [reflexivity|]. rewrite IH. reflexivity. Qed.

(** Closes [no_newline] of a text put together from constants, counters
    and numbers. *)
Ltac plain_text :=
  repeat first
    [ apply no_newline_dec | apply no_newline_dec3
    | assumption
    | apply no_newline_append
    | solve [unfold no_newline; simpl; intuition discriminate] ].

Section ReportText.
Variable E : Env.
Variable show_flt : string -> flt -> string.

(** A report about a line, other than that of line 271, is one line of
    text when the numbers in it are. *)
Lemma text_one_line (d : diag) (n : nat) :
  (forall (f : string) (x : flt), no_newline (show_flt f x)) ->
  diag_line d = Some n -> prints_tokens d = false ->
  exists rest,
    text show_flt d = ("line " ++ dec3 n ++ ": " ++ rest ++ eol)%string /\
    no_newline rest.
Proof.
  intros S.
  destruct d as [[|] k|k t|k t|f k t|k t a b|k t x y ad rd|k t|k t];
    cbn [diag_line prints_tokens text]; intros H P; try discriminate;
    injection H as ->.
  - exists "file 1 ended before 2."%string. split; [reflexivity|plain_text].
  - exists "file 2 ended before 1."%string. split; [reflexivity|plain_text].
  - exists ("file 1 misses " ++ dec t ++ "-th token.")%string.
    split; [|plain_text].
    simpl. rewrite append_assoc. reflexivity.
  - exists ("file 1 has excess " ++ dec t ++ "-th token.")%string.
    split; [|plain_text].
    simpl. rewrite append_assoc. reflexivity.
  - exists ("file " ++ file_digit f ++ ", " ++ dec t
            ++ "-th entry cannot be parsed as float.")%string.
    split; [|destruct f; plain_text].
    simpl. rewrite !append_assoc. simpl. rewrite append_assoc. reflexivity.
  - pose proof (S "%8LG"%string x). pose proof (S "%-8LG"%string y).
    exists (dec t ++ "-th float differs: "
            ++ show_flt "%8LG" x ++ " != " ++ show_flt "%-8LG" y
            ++ match ad with
               | Some v => "  absdiff = " ++ show_flt "%9.5LE" v
               | None => EmptyString
               end
            ++ match rd with
               | Some v => "  reldiff = " ++ show_flt "%9.5LE" v
               | None => EmptyString
               end)%string.
    split.
    + simpl. repeat (rewrite !append_assoc; simpl). reflexivity.
    + destruct ad as [v|], rd as [v'|];
        try pose proof (S "%9.5LE"%string v);
        try pose proof (S "%9.5LE"%string v');
        plain_text.
  - exists ("whitespace mismatch after " ++ dec t ++ "-th token.")%string.
    split; [|plain_text].
    simpl. rewrite append_assoc. reflexivity.
Qed.

(** C9, amended. Of every comparison that runs to its end, the output
    holds the reports, each of which starts with [line <N>: ], and after
    them the summary [Found <diff> differences in <linenr-1> lines]
    exactly when [diff] is positive; [diff] is the number of reports other
    than the notices of a white-space mismatch.  When no two lines read
    together are both blank, the comparison runs to its end, and each
    report is one line of text, [line <N>: <description>] and a newline,
    provided that [printf] of a number gives no newline. *)
Theorem report_lines_then_summary (s1 s2 b1 b2 : list ascii) (x1 x2 : flt) :
  finishes
    (fun s => exists evs,
       out s = evs ++ summary_line s /\
       diff s = differences evs /\
       Forall (fun d => exists n rest,
                 text show_flt d = ("line " ++ dec3 n ++ ": " ++ rest)%string)
              evs)
    (compare_streams E s1 s2 b1 b2 x1 x2) /\
  (no_blank_lines s1 s2 ->
   (forall (f : string) (x : flt), no_newline (show_flt f x)) ->
   exists s evs,
     compare_streams E s1 s2 b1 b2 x1 x2 = Done s /\
     out s = evs ++ summary_line s /\
     diff s = differences evs /\
     Forall (fun d => exists n rest,
               text show_flt d
               = ("line " ++ dec3 n ++ ": " ++ rest ++ eol)%string /\
               no_newline rest)
            evs).
Proof.
  pose proof (compare_streams_post E s1 s2 b1 b2 x1 x2) as H.
  assert (G : finishes
    (fun s => exists evs,
       out s = evs ++ summary_line s /\
       diff s = differences evs /\
       Forall (fun d => exists n, diag_line d = Some n) evs)
    (compare_streams E s1 s2 b1 b2 x1 x2)).
  { destruct (compare_streams E s1 s2 b1 b2 x1 x2) as [s| |];
      cbn [finishes] in *; auto.
    destruct H as (evs & L & O & F & D).
    exists (evs ++ length_report (stream_lines s1) (stream_lines s2)
                                 (linenr s)).
    split; [|split].
    - rewrite O, <- app_assoc. reflexivity.
    - rewrite differences_app, D. f_equal.
      unfold length_report. destruct (_ =? _); reflexivity.
    - apply Forall_app. split.
      + eapply Forall_impl; [|exact F]. intros d (_ & n & Hn & _).
        exists n. exact Hn.
      + unfold length_report. destruct (_ =? _); constructor; [|constructor].
        exists (linenr s). reflexivity. }
  clear H. split.
  - destruct (compare_streams E s1 s2 b1 b2 x1 x2) as [s| |];
      cbn [finishes] in *; auto.
    destruct G as (evs & O & D & F). exists evs.
    split; [exact O|]. split; [exact D|].
    eapply Forall_impl; [|exact F]. intros d (n & Hn).
    exists n. apply text_of_line_report. exact Hn.
  - intros NB S.
    destruct (@compare_streams_returns E s1 s2 b1 b2 x1 x2 NB) as (s & R).
    pose proof (compare_streams_plain E s1 s2 b1 b2 x1 x2 s NB R) as P.
    rewrite R in G. cbn [finishes] in G.
    destruct G as (evs & O & D & F). exists s, evs.
    split; [exact R|]. split; [exact O|]. split; [exact D|].
    unfold plain_out in P. rewrite O in P. apply Forall_app in P.
    destruct P as [P _].
    rewrite Forall_forall in *. intros d Hd.
    destruct (F d Hd) as (n & Hn). exists n.
    apply text_one_line; auto.
Qed.

End ReportText.

(* ------------------------------------------------------------------ *)
(** * The theorems on inputs *)

(** Tolerances of one half and six tenths accept 1 against 2, and so do
    tolerances of one. *)
Lemma should_accept_monotone_witness :
  should_accept (Fin 1) (Fin 2) (Fin 1) (Fin 1) zero zero = true.
Proof.
  apply (should_accept_monotone (Fin 1) (Fin 2) (Fin (1 # 2)) (Fin (6 # 10))
           (Fin 1) (Fin 1) zero zero); reflexivity.
Defined.

(** [-p 0.9] is accepted, and sets [probability]. *)
Lemma option_value_whole_witness :
  exists g',
    option_case CLib.env call_p initial_globals = inr g' /\
    probability g' = fst (strtold CLib.env (CLib.chars "0.9")) /\
    alpha g' = default_alpha.
Proof.
  assert (N : ~ In NUL (CLib.chars "0.9"))
    by (simpl; intros [H|[H|[H|[]]]]; discriminate H).
  destruct (option_value_whole CLib.env call_p initial_globals
              (CLib.chars "0.9") (or_intror eq_refl) eq_refl N)
    as ([_ A] & B & _).
  destruct (A eq_refl) as [g' Hg]. exists g'. split; [exact Hg|].
  destruct (B g' Hg) as [_ Bp]. exact (Bp eq_refl).
Defined.

(** [check_estimation --help] without any file. *)
Lemma help_or_version_exits_witness :
  main CLib.env [CLib.chars "check_estimation"; CLib.chars "--help"]
       [call_help] 2 (fun _ => None) [] CLib.blank CLib.blank NaN NaN =
  Exited 0 (mkGlobals default_alpha default_probability true false).
Proof.
  apply help_or_version_exits; [reflexivity|].
  left. constructor. reflexivity.
Defined.

(** Two inputs of one line. *)
Lemma equal_lengths_no_mismatch_witness :
  finishes
    (fun s => linenr s = S (stream_lines one_value) /\
              Forall (fun d => is_length_mismatch d = false) (out s))
    (compare_streams CLib.env one_value one_interval
       CLib.blank CLib.blank NaN NaN).
Proof.
  exact (proj1 (equal_lengths_no_mismatch CLib.env one_value one_interval
                  CLib.blank CLib.blank NaN NaN eq_refl)).
Defined.

(** An empty line against the line [x]. *)
Lemma blank_line_against_text_witness :
  exists s', compare_line CLib.env empty_against_text = Done s' /\
             out s' = [MissesToken 1 1] /\ diff s' = 1.
Proof.
  assert (N1 : In NUL (line1 empty_against_text)) by (simpl; auto).
  assert (N2 : In NUL (line2 empty_against_text)) by (simpl; auto).
  assert (B1 : blank_line (line1 empty_against_text)) by reflexivity.
  assert (B2 : ~ blank_line (line2 empty_against_text))
    by (intros H; discriminate H).
  exact (proj1 (blank_line_against_text CLib.env empty_against_text N1 N2)
           B1 B2).
Defined.

(** A file of two lines against itself. *)
Lemma same_input_no_report_witness :
  exists s,
    compare_streams CLib.env two_lines two_lines
      CLib.blank CLib.blank NaN NaN = Done s /\
    out s = [] /\ diff s = 0 /\ wsdiff s = 0.
Proof.
  apply same_input_no_report.
  vm_compute. repeat split; intros [A _]; discriminate A.
Defined.

(** [1.0 2 x] against [ 1.00   2 x]: the inputs match, and the only
    report is about white space. *)
Lemma no_difference_iff_match_witness :
  exists s,
    compare_streams CLib.env spaced_out spaced_ref
      CLib.blank CLib.blank NaN NaN = Done s /\
    diff s = 0 /\
    Forall (fun d => exists n k, d = WsMismatch n k) (out s).
Proof.
  assert (NB : no_blank_lines spaced_out spaced_ref)
    by (vm_compute; repeat split; intros [A _]; discriminate A).
  destruct (no_difference_iff_match CLib.env spaced_out spaced_ref
              CLib.blank CLib.blank NaN NaN NB) as (s & R & [_ M] & W & _).
  exists s. split; [exact R|].
  assert (D : diff s = 0) by (apply M; reflexivity).
  split; [exact D|exact (W D)].
Defined.

(** The same two lines, with [ignore_ws] set. *)
Lemma ignore_ws_silences_witness :
  finishes (fun s => Forall (fun d => is_ws_report d = false) (out s))
           (compare_streams env_ignore_ws spaced_out spaced_ref
              CLib.blank CLib.blank NaN NaN).
Proof.
  apply ignore_ws_silences. reflexivity.
Defined.

(** Two lines of 511 spaces. *)
Lemma long_blank_lines_overrun_witness :
  line_loop CLib.env 1 before_long_blank = Fault.
Proof.
  assert (W : Forall space_not_newline long_blank).
  { apply Forall_forall. intros c Hc. apply repeat_spec in Hc. subst c.
    split; [reflexivity|discriminate]. }
  assert (L : length long_blank = 511) by apply repeat_length.
  apply (long_blank_lines_overrun CLib.env 0 before_long_blank
           long_blank long_blank (CLib.chars "1") (CLib.chars "1"));
    try reflexivity; try exact W.
  - rewrite L. apply Nat.leb_le. reflexivity.
  - rewrite L. apply Nat.leb_le. reflexivity.
  - left. rewrite L. apply Nat.leb_le. reflexivity.
Defined.

(** The line [1 2], once after two spaces and once after a tab. *)
Lemma leading_space_not_compared_witness :
  exists s', compare_line CLib.env indented_lines = Done s' /\
             out s' = [] /\ diff s' = 0 /\ wsdiff s' = 0.
Proof.
  apply (leading_space_not_compared CLib.env indented_lines
           (CLib.chars "  ") ["009"%char] (CLib.chars "1 2" ++ [newline])
           [] []); try reflexivity.
  - repeat constructor.
  - repeat constructor.
  - intros H. discriminate H.
Defined.

(** Two runs on [1.0 2 x] and [ 1.00   2 x], with different contents of
    the buffers and of [f1] and [f2]. *)
Lemma output_ignores_garbage_witness :
  exists s s',
    compare_streams CLib.env spaced_out spaced_ref
      CLib.blank CLib.blank NaN NaN = Done s /\
    compare_streams CLib.env spaced_out spaced_ref
      (CLib.chars "left over") [] PInf zero = Done s' /\
    out s' = out s /\ diff s' = diff s /\ wsdiff s' = wsdiff s /\
    linenr s' = linenr s.
Proof.
  apply output_ignores_garbage.
  vm_compute. repeat split; intros [A _]; discriminate A.
Defined.

(** [check_estimation x out ref] where no file can be opened: the error
    names the first file. *)
Lemma argument_errors_witness :
  main CLib.env argv_two_files [] 1 (fun _ => None) []
       CLib.blank CLib.blank NaN NaN =
  Failed (CannotOpen (CLib.chars "out")) initial_globals.
Proof.
  destruct (argument_errors CLib.env argv_two_files [] 1 (fun _ => None) []
              CLib.blank CLib.blank NaN NaN initial_globals
              eq_refl eq_refl eq_refl) as (_ & _ & H).
  apply H. split; [simpl; lia|]. left. repeat split.
Defined.

(** The theorem on the empty second lines of [abc\n\n] and [abd\n\n]:
    the terminators are at index 1, and the work on the line ends with the
    cursors at index 2 or beyond, on what is left of the first lines. *)
Lemma blank_lines_pass_the_terminators_witness :
  nth_error (line1 second_empty_lines) 1 = Some NUL /\
  nth_error (line2 second_empty_lines) 1 = Some NUL /\
  finishes (reached 2 2) (compare_line CLib.env second_empty_lines).
Proof.
  apply (blank_lines_pass_the_terminators CLib.env second_empty_lines
           1 1 [newline] [newline]); reflexivity.
Defined.

(** The run on [abc\n\n] and [abd\n\n].  On the second lines, which are
    empty, the first pass goes on with the cursors behind the terminators;
    the second pass reads [c] and [d] there and reports a second entry of
    line 2. *)
Example stale_tokens_reported :
  (exists s', token_iter CLib.env at_the_terminators = Continue s' /\
              pos1 s' = 2 /\ pos2 s' = 2) /\
  (exists s', compare_line CLib.env second_empty_lines = Done s' /\
              pos1 s' = 3 /\ pos2 s' = 3 /\
              out s' = [CannotParse File1 1 1; CannotParse File1 2 2]) /\
  match compare_streams CLib.env
          (CLib.chars "abc" ++ [newline; newline])
          (CLib.chars "abd" ++ [newline; newline])
          CLib.blank CLib.blank NaN NaN with
  | Done s => out s = [CannotParse File1 1 1; CannotParse File1 2 2;
                       Found 2 2]
  | _ => False
  end.
Proof.
  split; [|split].
  - eexists. vm_compute. repeat split.
  - eexists. vm_compute. repeat split.
  - vm_compute. reflexivity.
Qed.

(** The theorem on [1 2] against [1 3]: one report, one line of text, and
    the summary. *)
Lemma report_lines_then_summary_witness :
  exists s evs,
    compare_streams CLib.env (CLib.chars "1 2" ++ [newline])
                    (CLib.chars "1 3" ++ [newline])
                    CLib.blank CLib.blank NaN NaN = Done s /\
    out s = evs ++ summary_line s /\
    diff s = differences evs /\
    Forall (fun d => exists n rest,
              text show_placeholder d
              = ("line " ++ dec3 n ++ ": " ++ rest ++ eol)%string /\
              no_newline rest)
           evs.
Proof.
  destruct (report_lines_then_summary CLib.env show_placeholder
              (CLib.chars "1 2" ++ [newline]) (CLib.chars "1 3" ++ [newline])
              CLib.blank CLib.blank NaN NaN) as [_ H].
  apply H.
  - vm_compute. intuition discriminate.
  - intros f x. unfold no_newline, show_placeholder. simpl.
    intuition discriminate.
Defined.

(** An empty line against a line of one space: both are blank, and the
    report of line 271 prints the white space that [scanspace] stored,
    newlines included, over three lines of text. *)
Example blank_lines_report_is_three_lines :
  match compare_streams CLib.env empty_line space_line
          CLib.blank CLib.blank NaN NaN with
  | Done s =>
      out s = [NonFloatDiffer 1 1 [newline] [" "%char; newline];
               Found 1 1] /\
      map (text show_placeholder) (out s) =
      [("line   1: 1-th non-float tokens differ: '" ++ eol
        ++ "' != ' " ++ eol ++ "'." ++ eol)%string;
       ("Found 1 differences in 1 lines" ++ eol)%string]
  | _ => False
  end.
Proof. vm_compute. split; reflexivity. Qed.
